(** * The luna virtual machine: dispatch loop and instruction handlers

    A shallow embedding of [src/VirtualMachine.cpp].  The machine works on
    an operand stack of slots (values and counters), a stack of scope
    tables ([nest_tables_]), a call stack of activation records and the
    current instruction pointer.  Every handler of the source is a
    definition of the same name below, written in a small state monad with
    two ways of failing: a [RuntimeError] thrown by the source ([Exc]), and
    a crash ([Crash]) for a failed [assert], a null dereference or an
    access out of range. *)

From Stdlib Require Import ZArith Lia.
From stdpp Require Import base tactics option list strings gmap.

Local Open Scope Z_scope.

(** ** Values

    The source passes [Value *] everywhere, so a [Value] here is such a
    pointer: null, one of the immutable primitives, or a reference into
    one of the object stores of the data pool.  A number is a [double] in
    the source; the handlers only ever build numbers from [int]s and
    never compute with them, so the payload is an integer. *)

Inductive Value : Type :=
  | VNull
  | VNil
  | VBool (b : bool)
  | VNumber (n : Z)
  | VString (s : string)
  | VTable (r : nat)
  | VFunction (f : nat)
  | VClosure (c : nat)
  | VNative (n : nat).

#[global] Instance Value_eq_dec : EqDecision Value.
Proof. solve_decision. Defined.

Definition Value_encode (v : Value) : nat + (bool + (Z + (string + nat * nat))) :=
  match v with
  | VNull => inl 0%nat
  | VNil => inl 1%nat
  | VBool b => inr (inl b)
  | VNumber n => inr (inr (inl n))
  | VString s => inr (inr (inr (inl s)))
  | VTable r => inr (inr (inr (inr (0%nat, r))))
  | VFunction f => inr (inr (inr (inr (1%nat, f))))
  | VClosure c => inr (inr (inr (inr (2%nat, c))))
  | VNative n => inr (inr (inr (inr (3%nat, n))))
  end.

Definition Value_decode (x : nat + (bool + (Z + (string + nat * nat)))) : Value :=
  match x with
  | inl 0%nat => VNull
  | inl _ => VNil
  | inr (inl b) => VBool b
  | inr (inr (inl n)) => VNumber n
  | inr (inr (inr (inl s))) => VString s
  | inr (inr (inr (inr (0%nat, r)))) => VTable r
  | inr (inr (inr (inr (1%nat, f)))) => VFunction f
  | inr (inr (inr (inr (2%nat, c)))) => VClosure c
  | inr (inr (inr (inr (_, n)))) => VNative n
  end.

#[global] Instance Value_countable : Countable Value.
Proof.
  refine (inj_countable' Value_encode Value_decode _).
  intros []; reflexivity.
Defined.

Inductive ValueType : Type :=
  | TYPE_NIL
  | TYPE_BOOL
  | TYPE_NUMBER
  | TYPE_STRING
  | TYPE_TABLE
  | TYPE_FUNCTION
  | TYPE_NATIVE_FUNCTION.

#[global] Instance ValueType_eq_dec : EqDecision ValueType.
Proof. solve_decision. Defined.

(** [Value::Type()] is a virtual call: on the null pointer it crashes.
    Both a compiled [Function] and a [Closure] answer [TYPE_FUNCTION]
    ([GenerateClosure] asserts it of the former, [Call] tests it of the
    latter). *)
Definition Type_ (v : Value) : option ValueType :=
  match v with
  | VNull => None
  | VNil => Some TYPE_NIL
  | VBool _ => Some TYPE_BOOL
  | VNumber _ => Some TYPE_NUMBER
  | VString _ => Some TYPE_STRING
  | VTable _ => Some TYPE_TABLE
  | VFunction _ | VClosure _ => Some TYPE_FUNCTION
  | VNative _ => Some TYPE_NATIVE_FUNCTION
  end.

(** ** Stack slots, instructions, pool objects *)

Inductive StackValue : Type :=
  | StackValue_Value (value : Value)
  | StackValue_Counter (current total : Z).

Inductive OpCode : Type :=
  | OpCode_Assign
  | OpCode_CleanStack
  | OpCode_GetLocalTable
  | OpCode_GetTable
  | OpCode_GetTableValue
  | OpCode_Push
  | OpCode_GenerateClosure
  | OpCode_Ret
  | OpCode_GenerateArgTable
  | OpCode_MergeCounter
  | OpCode_ResetCounter
  | OpCode_DuplicateCounter
  | OpCode_Call
  | OpCode_AddLocalTable
  | OpCode_DelLocalTable
  | OpCode_AddGlobalTable
  | OpCode_DelGlobalTable
  | OpCode_Other (code : Z).

Inductive InstructionParam : Type :=
  | InstructionParamType_None
  | InstructionParamType_Name (name : Value)
  | InstructionParamType_Value (value : Value)
  | InstructionParamType_Counter (counter : Z)
  | InstructionParamType_CounterIndex (counter_index : Z).

Record Instruction : Type := mkInstruction {
  op_code : OpCode;
  param_a : InstructionParam
}.

Record Function : Type := mkFunction {
  instructions : list Instruction;
  upvalue_set : list Value
}.

Record Closure : Type := mkClosure {
  closure_func : nat;
  closure_upvalue_table : option nat
}.

Record DataPool : Type := mkDataPool {
  tables : list (gmap Value Value);
  closures : list Closure;
  functions : list Function
}.

Record CallStackInfo : Type := mkCallStackInfo {
  caller_base : list Instruction;
  caller_total : Z;
  caller_offset : Z;
  callee : Value;
  callee_tables : Z
}.

(** The three stacks are [std::vector]s in the source; here the head of
    each list is the vector's [back()]. *)
Record VM : Type := mkVM {
  stack_ : list StackValue;
  data_pool_ : DataPool;
  nest_tables_ : list (option nat);
  call_stack_ : list CallStackInfo;
  ins_base_ : list Instruction;
  ins_count_ : Z;
  ins_current_ : Z;
  global_table_ : nat
}.

Definition set_stack (st : list StackValue) (s : VM) : VM :=
  mkVM st (data_pool_ s) (nest_tables_ s) (call_stack_ s)
       (ins_base_ s) (ins_count_ s) (ins_current_ s) (global_table_ s).

Definition set_pool (p : DataPool) (s : VM) : VM :=
  mkVM (stack_ s) p (nest_tables_ s) (call_stack_ s)
       (ins_base_ s) (ins_count_ s) (ins_current_ s) (global_table_ s).

Definition set_nest (n : list (option nat)) (s : VM) : VM :=
  mkVM (stack_ s) (data_pool_ s) n (call_stack_ s)
       (ins_base_ s) (ins_count_ s) (ins_current_ s) (global_table_ s).

Definition set_calls (c : list CallStackInfo) (s : VM) : VM :=
  mkVM (stack_ s) (data_pool_ s) (nest_tables_ s) c
       (ins_base_ s) (ins_count_ s) (ins_current_ s) (global_table_ s).

Definition set_ins (base : list Instruction) (count cur : Z) (s : VM) : VM :=
  mkVM (stack_ s) (data_pool_ s) (nest_tables_ s) (call_stack_ s)
       base count cur (global_table_ s).

(** ** The monad of the handlers *)

Inductive Res (A : Type) : Type :=
  | Val (a : A) (s : VM)
  | Exc (msg : string) (s : VM)
  | Crash.
Arguments Val {A} a s.
Arguments Exc {A} msg s.
Arguments Crash {A}.

Definition M (A : Type) : Type := VM -> Res A.

Definition ret {A} (a : A) : M A := fun s => Val a s.

Definition bind {A B} (m : M A) (k : A -> M B) : M B :=
  fun s => match m s with
           | Val a s' => k a s'
           | Exc msg s' => Exc msg s'
           | Crash => Crash
           end.

Definition throw {A} (msg : string) : M A := fun s => Exc msg s.
Definition crash {A} : M A := fun _ => Crash.
Definition get : M VM := fun s => Val s s.
Definition modify (f : VM -> VM) : M unit := fun s => Val tt (f s).

(** An [assert] of the source. *)
Definition assert (b : bool) : M unit := if b then ret tt else crash.

(** A pointer that must not be null, a read that must be in range. *)
Definition some {A} (o : option A) : M A :=
  match o with Some a => ret a | None => crash end.

Declare Scope vm_scope.
Delimit Scope vm_scope with vm.
Notation "x <- m ;; k" := (bind m (fun x => k))
  (at level 100, m at next level, k at level 200, right associativity, only parsing) : vm_scope.
Notation "m ;; k" := (bind m (fun _ => k))
  (at level 100, k at level 200, right associativity, only parsing) : vm_scope.
Local Open Scope vm_scope.

(** ** Machine integers

    [callee_tables] and the sizes of the vectors are [std::size_t]:
    arithmetic on them wraps modulo 2^64.  Counters are [int]s, kept in
    [Z]; an [int] converted to [std::size_t] (in [ResetCounter]) has 2^64
    added when it is negative.  The sum of two counters (in
    [MergeCounter]) is a sum of [int]s: it is taken in 32 bits, two's
    complement. *)

Definition wrap64 (z : Z) : Z := z mod 2 ^ 64.

Definition wrap_int (z : Z) : Z := (z + 2 ^ 31) mod 2 ^ 32 - 2 ^ 31.

Definition size_t_of_int (z : Z) : Z := if z <? 0 then z + 2 ^ 64 else z.

(** ** The operand stack *)

Module Stack.

(** Modelled from the spec: the class [Stack] (Stack.h is not part of
    the source).  [Top()] answers the last slot pushed; the callers
    dereference it at once, so on an empty stack it crashes. *)
Definition Top : M StackValue :=
  fun s => match stack_ s with
           | sv :: _ => Val sv s
           | [] => Crash
           end.

(** Modelled from the spec: [Pop(n = 1)] removes the [n] topmost slots;
    the handlers must provide the slots they pop. *)
Definition Pop (n : Z) : M unit :=
  fun s => if (0 <=? n) && (n <=? Z.of_nat (length (stack_ s)))
           then Val tt (set_stack (drop (Z.to_nat n) (stack_ s)) s)
           else Crash.

(** Modelled from the spec: [Push(value)] and [Push(name-key)]. *)
Definition Push (v : Value) : M unit :=
  modify (fun s => set_stack (StackValue_Value v :: stack_ s) s).

(** Modelled from the spec: [Push(total, current)] pushes a counter
    slot. *)
Definition Push_counter (total current : Z) : M unit :=
  modify (fun s => set_stack (StackValue_Counter current total :: stack_ s) s).

(** [Push()] followed by the copy of a whole slot into the new one, as
    [DuplicateCounter] does. *)
Definition Push_slot (sv : StackValue) : M unit :=
  modify (fun s => set_stack (sv :: stack_ s) s).

(** Modelled from the spec: [Size()]. *)
Definition Size : M Z := fun s => Val (Z.of_nat (length (stack_ s))) s.

(** Where the slot of index [i] sits, counted from the top: a negative
    [i] is relative to the top ([-1] is the top), any other [i] counts
    from the bottom. *)
Definition position (len : nat) (i : Z) : option nat :=
  if i <? 0
  then (if - i <=? Z.of_nat len then Some (Z.to_nat (- i - 1)) else None)
  else (if i <? Z.of_nat len then Some (len - 1 - Z.to_nat i)%nat else None).

(** Modelled from the spec: [GetStackValue(i)]. *)
Definition GetStackValue (i : Z) : M StackValue :=
  fun s => match position (length (stack_ s)) i with
           | Some p => match stack_ s !! p with
                       | Some sv => Val sv s
                       | None => Crash
                       end
           | None => Crash
           end.

(** A write through the pointer that [GetStackValue(i)] returned. *)
Definition SetStackValue (i : Z) (sv : StackValue) : M unit :=
  fun s => match position (length (stack_ s)) i with
           | Some p => Val tt (set_stack (<[p := sv]> (stack_ s)) s)
           | None => Crash
           end.

End Stack.

(** Reading a member of the slot's union that is not the one stored is
    a crash, whether the source asserts the slot's type or not. *)
Definition slot_value (sv : StackValue) : M Value :=
  match sv with
  | StackValue_Value v => ret v
  | StackValue_Counter _ _ => crash
  end.

Definition slot_counter (sv : StackValue) : M (Z * Z) :=
  match sv with
  | StackValue_Counter current total => ret (current, total)
  | StackValue_Value _ => crash
  end.

(** ** Tables *)

Module Table.

(** Modelled from the spec: [Table::HaveKey(k)] (Table.h is not part of
    the source). *)
Definition HaveKey (t : gmap Value Value) (k : Value) : bool :=
  match t !! k with Some _ => true | None => false end.

(** Modelled from the spec: [Table::GetValue(k)], Nil when the key is
    absent; [GetTableValue(k)] is the same. *)
Definition GetValue (t : gmap Value Value) (k : Value) : Value :=
  default VNil (t !! k).

(** Modelled from the spec: [Table::Assign(k, v)] for a key the table
    accepts. *)
Definition Assign (t : gmap Value Value) (k v : Value) : gmap Value Value :=
  <[k := v]> t.

End Table.

(** A [Table *] seen as a [Value *]. *)
Definition Value_of_table (t : option nat) : Value :=
  match t with Some r => VTable r | None => VNull end.

(** [static_cast<Table *>(v)]: the cast checks nothing, the use of
    anything but a table crashes. *)
Definition table_of_Value (v : Value) : option nat :=
  match v with VTable r => Some r | _ => None end.

Definition pool_set_table (r : nat) (t : gmap Value Value) (p : DataPool) : DataPool :=
  mkDataPool (<[r := t]> (tables p)) (closures p) (functions p).

(** The table a [Table *] points to. *)
Definition deref_table (t : option nat) : M (nat * gmap Value Value) :=
  fun s => match t with
           | Some r => match tables (data_pool_ s) !! r with
                       | Some tbl => Val (r, tbl) s
                       | None => Crash
                       end
           | None => Crash
           end.

Section VirtualMachine.

(** What the source takes from headers that are not part of it: the
    name that [Value::Name()] answers for a value of each type, the
    message of the error a table raises on a Nil key, and what each
    native function does to the operand stack and the data pool. *)
Variable type_name : ValueType -> string.
Variable nil_key_error : string.
Variable native_call : nat -> list StackValue -> DataPool -> list StackValue * DataPool.

(** The methods of [Table], called through a [Table *]: a null or
    dangling table pointer crashes, and so does a null key. *)
Definition Table_HaveKey (t : option nat) (k : Value) : M bool :=
  rt <- deref_table t ;;
  match k with
  | VNull => crash
  | _ => ret (Table.HaveKey rt.2 k)
  end.

Definition Table_GetValue (t : option nat) (k : Value) : M Value :=
  rt <- deref_table t ;;
  match k with
  | VNull => crash
  | _ => ret (Table.GetValue rt.2 k)
  end.

Definition Table_GetTableValue := Table_GetValue.

(** Modelled from the spec: [Table::Assign(k, v)] rejects a key of type
    Nil with a runtime error (Table.h is not part of the source). *)
Definition Table_Assign (t : option nat) (k v : Value) : M unit :=
  rt <- deref_table t ;;
  match k with
  | VNull => crash
  | VNil => throw nil_key_error
  | _ => modify (fun s => set_pool (pool_set_table rt.1 (Table.Assign rt.2 k v)
                                      (data_pool_ s)) s)
  end.

(** ** The data pool *)

Definition DataPool_GetNil : M Value := ret VNil.
Definition DataPool_GetNumber (n : Z) : M Value := ret (VNumber n).
Definition DataPool_GetString (str : string) : M Value := ret (VString str).

(** Modelled from the spec: [DataPool::GetTable()] answers a fresh
    empty table (the data pool is not part of the source). *)
Definition DataPool_GetTable : M (option nat) :=
  fun s => let p := data_pool_ s in
           Val (Some (length (tables p)))
               (set_pool (mkDataPool (tables p ++ [∅]) (closures p) (functions p)) s).

(** Modelled from the spec: [GetClosure(function)] answers a new
    closure, with an upvalue table iff the function declares at least
    one upvalue. *)
Definition DataPool_GetClosure (f : nat) : M nat :=
  fun s => let p := data_pool_ s in
           match functions p !! f with
           | None => Crash
           | Some fn =>
               match upvalue_set fn with
               | [] => Val (length (closures p))
                           (set_pool (mkDataPool (tables p)
                                        (closures p ++ [mkClosure f None])
                                        (functions p)) s)
               | _ :: _ => Val (length (closures p))
                               (set_pool (mkDataPool (tables p ++ [∅])
                                            (closures p ++ [mkClosure f (Some (length (tables p)))])
                                            (functions p)) s)
               end
           end.

(** [static_cast<Closure *>(v)] and a use of the closure. *)
Definition closure_of_Value (v : Value) : M Closure :=
  fun s => match v with
           | VClosure c => match closures (data_pool_ s) !! c with
                           | Some cl => Val cl s
                           | None => Crash
                           end
           | _ => Crash
           end.

Definition Closure_GetFunction (cl : Closure) : M Function :=
  fun s => match functions (data_pool_ s) !! closure_func cl with
           | Some fn => Val fn s
           | None => Crash
           end.

(** ** The call stack and the scope tables *)

Definition call_stack_back : M CallStackInfo :=
  fun s => match call_stack_ s with
           | info :: _ => Val info s
           | [] => Crash
           end.

Definition call_stack_pop_back : M unit :=
  fun s => match call_stack_ s with
           | _ :: rest => Val tt (set_calls rest s)
           | [] => Crash
           end.

Definition call_stack_push_back (info : CallStackInfo) : M unit :=
  modify (fun s => set_calls (info :: call_stack_ s) s).

(** A write to [call_stack_.back().callee_tables]. *)
Definition set_callee_tables (n : Z) : M unit :=
  fun s => match call_stack_ s with
           | info :: rest =>
               Val tt (set_calls (mkCallStackInfo (caller_base info) (caller_total info)
                                    (caller_offset info) (callee info) n :: rest) s)
           | [] => Crash
           end.

Definition nest_tables_back : M (option nat) :=
  fun s => match nest_tables_ s with
           | t :: _ => Val t s
           | [] => Crash
           end.

Definition nest_tables_pop_back : M unit :=
  fun s => match nest_tables_ s with
           | _ :: rest => Val tt (set_nest rest s)
           | [] => Crash
           end.

(** The size of a vector is a [std::size_t]: a [push_back] that would
    take it to 2^64 elements cannot succeed, the allocation fails
    first and ends the run. *)
Definition nest_tables_push_back (t : option nat) : M unit :=
  fun s => if Z.of_nat (length (nest_tables_ s)) + 1 <? 2 ^ 64
           then Val tt (set_nest (t :: nest_tables_ s) s)
           else Crash.

(** [std::vector::resize(n)]: the vector keeps its [n] oldest elements,
    or grows by null pointers at its back. *)
Definition resize (n : nat) (l : list (option nat)) : list (option nat) :=
  replicate (n - length l) None ++ drop (length l - n) l.

Definition nest_tables_resize (n : Z) : M unit :=
  modify (fun s => set_nest (resize (Z.to_nat n) (nest_tables_ s)) s).

(** ** Instruction parameters

    [param_a.param] is a union: [name] and [value] share their storage
    (both are [Value *]), and so do [counter] and [counter_index]. *)

Definition param_value (ins : Instruction) : M Value :=
  match param_a ins with
  | InstructionParamType_Name v | InstructionParamType_Value v => ret v
  | _ => crash
  end.

Definition param_counter_index (ins : Instruction) : M Z :=
  match param_a ins with
  | InstructionParamType_Counter n | InstructionParamType_CounterIndex n => ret n
  | _ => crash
  end.

Definition is_Value (sv : StackValue) : bool :=
  match sv with StackValue_Value _ => true | StackValue_Counter _ _ => false end.

Definition is_Counter (sv : StackValue) : bool :=
  match sv with StackValue_Counter _ _ => true | StackValue_Value _ => false end.

(** ** The handlers *)

Definition Assign : M unit :=
  sv <- Stack.Top ;;
  assert (is_Value sv) ;;
  key <- slot_value sv ;;
  (* Pop the key and counter *)
  Stack.Pop 2 ;;
  sv <- Stack.Top ;;
  assert (is_Value sv) ;;
  table <- slot_value sv ;;
  Stack.Pop 1 ;;
  counter <- Stack.Top ;;
  assert (is_Counter counter) ;;
  ct <- slot_counter counter ;;
  nil <- DataPool_GetNil ;;
  value <- (if ct.1 <? ct.2
            then
              let index := ct.1 - ct.2 - 1 in
              Stack.SetStackValue (-1) (StackValue_Counter (ct.1 + 1) ct.2) ;;
              sv <- Stack.GetStackValue index ;;
              slot_value sv
            else ret nil) ;;
  Table_Assign (table_of_Value table) key value.

Definition CleanStack : M unit :=
  counter <- Stack.Top ;;
  assert (is_Counter counter) ;;
  ct <- slot_counter counter ;;
  let total := ct.2 in
  (* Pop the counter *)
  Stack.Pop 1 ;;
  (* Pop values bottom of the counter *)
  if total >? 0 then Stack.Pop total else ret tt.

Definition GetLocalTable : M unit :=
  t <- nest_tables_back ;;
  Stack.Push (Value_of_table t) ;;
  Stack.Push_counter 1 0.

(** The loop of [GetTable]: [it] walks [nest_tables_] from its back,
    [callee_tables] counts down; it answers whether the handler
    returned from inside the loop. *)
Fixpoint GetTable_loop (key : Value) (it : list (option nat)) (callee_tables : Z) : M bool :=
  if callee_tables >? 0
  then match it with
       | [] => crash
       | t :: it' =>
           found <- Table_HaveKey t key ;;
           if found : bool
           then Stack.Push (Value_of_table t) ;; Stack.Push_counter 1 0 ;; ret true
           else GetTable_loop key it' (callee_tables - 1)
       end
  else ret false.

Definition GetTable (ins : Instruction) : M unit :=
  key <- match param_a ins with
         | InstructionParamType_Name k => ret k
         | _ => crash
         end ;;
  info <- call_stack_back ;;
  s <- get ;;
  returned <- GetTable_loop key (nest_tables_ s) (callee_tables info) ;;
  if returned : bool then ret tt
  else
    (* If can not find in local tables, we use the upvalue table. *)
    info <- call_stack_back ;;
    ty <- some (Type_ (callee info)) ;;
    assert (bool_decide (ty = TYPE_FUNCTION)) ;;
    cl <- closure_of_Value (callee info) ;;
    Stack.Push (Value_of_table (closure_upvalue_table cl)) ;;
    Stack.Push_counter 1 0.

(** Search to the counter. *)
Fixpoint GetTableValue_search (n : nat) (index : Z) : M Z :=
  match n with
  | O => ret index
  | S n' =>
      sv <- Stack.GetStackValue (index - 1) ;;
      assert (is_Counter sv) ;;
      ct <- slot_counter sv ;;
      GetTableValue_search n' (index - 1 - ct.2)
  end.

Definition GetTableValue (ins : Instruction) : M unit :=
  counter_index <- param_counter_index ins ;;
  index <- GetTableValue_search (Z.to_nat counter_index) (-1) ;;
  c <- Stack.GetStackValue (index - 1) ;;
  assert (is_Counter c) ;;
  (* -1: key, index - 1: counter, index - 2: table *)
  sv <- Stack.GetStackValue (index - 2) ;;
  table <- slot_value sv ;;
  ty <- some (Type_ table) ;;
  if bool_decide (ty <> TYPE_TABLE)
  then throw ("attempt to index value from " +:+ type_name ty)
  else
    top <- Stack.Top ;;
    key <- slot_value top ;;
    v <- Table_GetValue (table_of_Value table) key ;;
    Stack.SetStackValue (index - 2) (StackValue_Value v) ;;
    (* Pop the key *)
    Stack.Pop 1.

Definition DoPush (ins : Instruction) : M unit :=
  match param_a ins with
  | InstructionParamType_Name name => Stack.Push name
  | InstructionParamType_Value value => Stack.Push value
  | InstructionParamType_Counter counter => Stack.Push_counter counter 0
  | _ => ret tt
  end.

(** The loop of [GetUpvalueKeyOwnerTable]: [callee_tables] is tested
    at every turn and never changed. *)
Fixpoint GetUpvalueKeyOwnerTable_loop (key : Value) (it : list (option nat))
    (callee_tables : Z) : M (option (option nat)) :=
  match it with
  | [] => ret None
  | t :: it' =>
      if callee_tables >? 0
      then found <- Table_HaveKey t key ;;
           if found : bool then ret (Some t)
           else GetUpvalueKeyOwnerTable_loop key it' callee_tables
      else ret None
  end.

Definition GetUpvalueKeyOwnerTable (key : Value) : M (option nat) :=
  info <- call_stack_back ;;
  let callee_tables := callee_tables info in
  s <- get ;;
  returned <- GetUpvalueKeyOwnerTable_loop key (nest_tables_ s) callee_tables ;;
  match returned with
  | Some t => ret t
  | None =>
      info <- call_stack_back ;;
      match callee info with
      | VNull =>
          (* We insert the key to the lastest table. *)
          assert (bool_decide (callee_tables = 1)) ;;
          t <- nest_tables_back ;;
          nil <- DataPool_GetNil ;;
          Table_Assign t key nil ;;
          ret t
      | callee =>
          cl <- closure_of_Value callee ;;
          let t := closure_upvalue_table cl in
          (* Because key can not find in local tables, so upvalue table
             must exist, and upvalue table must have key. *)
          has <- Table_HaveKey t key ;;
          assert has ;;
          ret t
      end
  end.

Fixpoint GenerateClosure_loop (upvalue_table : option nat) (it : list Value) : M unit :=
  match it with
  | [] => ret tt
  | first :: it' =>
      t <- GetUpvalueKeyOwnerTable first ;;
      v <- Table_GetTableValue t first ;;
      Table_Assign upvalue_table first v ;;
      GenerateClosure_loop upvalue_table it'
  end.

Definition GenerateClosure (ins : Instruction) : M unit :=
  value <- param_value ins ;;
  ty <- some (Type_ value) ;;
  assert (bool_decide (ty = TYPE_FUNCTION)) ;;
  f <- match value with VFunction f => ret f | _ => crash end ;;
  c <- DataPool_GetClosure f ;;
  Stack.Push (VClosure c) ;;
  Stack.Push_counter 1 0 ;;
  cl <- closure_of_Value (VClosure c) ;;
  match closure_upvalue_table cl with
  | Some u =>
      func <- Closure_GetFunction cl ;;
      GenerateClosure_loop (Some u) (upvalue_set func)
  | None => ret tt
  end.

Definition Return : M unit :=
  call_info <- call_stack_back ;;
  s <- get ;;
  modify (set_ins (caller_base call_info) (caller_total call_info) (caller_offset call_info)) ;;
  nest_tables_resize (wrap64 (Z.of_nat (length (nest_tables_ s)) - callee_tables call_info)) ;;
  call_stack_pop_back.

Fixpoint GenerateArgTable_loop (n : nat) (arg : option nat) (index arg_index : Z) : M unit :=
  match n with
  | O => ret tt
  | S n' =>
      key <- DataPool_GetNumber arg_index ;;
      arg_value <- Stack.GetStackValue index ;;
      v <- slot_value arg_value ;;
      Table_Assign arg key v ;;
      GenerateArgTable_loop n' arg (index + 1) (arg_index + 1)
  end.

Definition GenerateArgTable : M unit :=
  arg <- DataPool_GetTable ;;
  sv <- Stack.Top ;;
  ct <- slot_counter sv ;;
  let current := ct.1 in
  let total := ct.2 in
  let index := -1 - (total - current) in
  GenerateArgTable_loop (Z.to_nat (total - current)) arg index 1 ;;
  Stack.SetStackValue (-1) (StackValue_Counter total total) ;;
  local <- nest_tables_back ;;
  name <- DataPool_GetString "arg" ;;
  Table_Assign local name (Value_of_table arg).

Fixpoint MergeCounter_loop (n : nat) (index : Z) : M unit :=
  match n with
  | O => ret tt
  | S n' =>
      src <- Stack.GetStackValue (index + 1) ;;
      Stack.SetStackValue index src ;;
      MergeCounter_loop n' (index + 1)
  end.

Definition MergeCounter : M unit :=
  sv1 <- Stack.GetStackValue (-1) ;;
  ct1 <- slot_counter sv1 ;;
  let counter1 := ct1.2 in
  let index := -1 - counter1 - 1 in
  sv2 <- Stack.GetStackValue index ;;
  ct2 <- slot_counter sv2 ;;
  let counter2 := ct2.2 in
  MergeCounter_loop (Z.to_nat counter1) index ;;
  Stack.Pop 2 ;;
  Stack.Push_counter (wrap_int (counter1 + counter2)) 0.

Definition ResetCounter : M unit :=
  sv <- Stack.Top ;;
  assert (is_Counter sv) ;;
  ct <- slot_counter sv ;;
  let counter := size_t_of_int ct.2 in
  (* counter is ok *)
  if counter =? 1 then ret tt
  else
    (* Pop older counter *)
    Stack.Pop 1 ;;
    (if counter =? 0
     then nil <- DataPool_GetNil ;; Stack.Push nil
     else Stack.Pop (counter - 1)) ;;
    (* Push new counter *)
    Stack.Push_counter 1 0.

(** Copy counter elements. *)
Fixpoint DuplicateCounter_loop (n : nat) (index : Z) : M unit :=
  match n with
  | O => ret tt
  | S n' =>
      src <- Stack.GetStackValue index ;;
      Stack.Push_slot src ;;
      DuplicateCounter_loop n' (index + 1)
  end.

Definition DuplicateCounter : M unit :=
  sv <- Stack.Top ;;
  assert (is_Counter sv) ;;
  ct <- slot_counter sv ;;
  let total := ct.2 in
  stack_size <- Stack.Size ;;
  let index := stack_size - total - 1 in
  DuplicateCounter_loop (Z.to_nat total) index ;;
  (* Push new counter *)
  Stack.Push_counter total 0.

(** The bootstrap built by the constructor: a single [Ret]. *)
Definition native_func_ret_ : list Instruction :=
  [mkInstruction OpCode_Ret InstructionParamType_None].

(** [CallStackInfo(base, total, offset, callee)] opens a record that
    has pushed no scope table yet. *)
Definition new_CallStackInfo (base : list Instruction) (total offset : Z)
    (callee : Value) : CallStackInfo :=
  mkCallStackInfo base total offset callee 0.

Definition Call : M unit :=
  sv <- Stack.Top ;;
  assert (is_Counter sv) ;;                     (* params counter *)
  ct <- slot_counter sv ;;
  let index := -1 - ct.2 in
  sv <- Stack.GetStackValue (index - 1) ;;
  assert (is_Counter sv) ;;                     (* caller counter *)
  ct <- slot_counter sv ;;
  assert (ct.2 =? 1) ;;                         (* caller counter must 1 *)
  sv <- Stack.GetStackValue (index - 2) ;;
  callee <- slot_value sv ;;
  s <- get ;;
  call_stack_push_back
    (new_CallStackInfo (ins_base_ s) (ins_count_ s) (ins_current_ s) callee) ;;
  type <- some (Type_ callee) ;;
  match type with
  | TYPE_FUNCTION =>
      cl <- closure_of_Value callee ;;
      func <- Closure_GetFunction cl ;;
      modify (set_ins (instructions func) (Z.of_nat (length (instructions func))) (-1))
  | TYPE_NATIVE_FUNCTION =>
      match callee with
      | VNative n =>
          modify (fun s => let r := native_call n (stack_ s) (data_pool_ s) in
                           set_pool r.2 (set_stack r.1 s))
      | _ => crash
      end ;;
      modify (set_ins native_func_ret_ (Z.of_nat (length native_func_ret_)) (-1))
  | _ => throw ("attempt to call " +:+ type_name type)
  end.

Definition AddLocalTable : M unit :=
  t <- DataPool_GetTable ;;
  nest_tables_push_back t ;;
  info <- call_stack_back ;;
  set_callee_tables (wrap64 (callee_tables info + 1)).

Definition DelLocalTable : M unit :=
  nest_tables_pop_back ;;
  info <- call_stack_back ;;
  set_callee_tables (wrap64 (callee_tables info - 1)).

Definition AddGlobalTable : M unit :=
  s <- get ;;
  nest_tables_push_back (Some (global_table_ s)) ;;
  call_stack_push_back (new_CallStackInfo [] 0 0 VNull) ;;
  set_callee_tables 1.

Definition DelGlobalTable : M unit :=
  nest_tables_pop_back ;;
  call_stack_pop_back.

(** ** The dispatch loop *)

Definition dispatch (ins : Instruction) : M unit :=
  match op_code ins with
  | OpCode_Assign => Assign
  | OpCode_CleanStack => CleanStack
  | OpCode_GetLocalTable => GetLocalTable
  | OpCode_GetTable => GetTable ins
  | OpCode_GetTableValue => GetTableValue ins
  | OpCode_Push => DoPush ins
  | OpCode_GenerateClosure => GenerateClosure ins
  | OpCode_Ret => Return
  | OpCode_GenerateArgTable => GenerateArgTable
  | OpCode_MergeCounter => MergeCounter
  | OpCode_ResetCounter => ResetCounter
  | OpCode_DuplicateCounter => DuplicateCounter
  | OpCode_Call => Call
  | OpCode_AddLocalTable => AddLocalTable
  | OpCode_DelLocalTable => DelLocalTable
  | OpCode_AddGlobalTable => AddGlobalTable
  | OpCode_DelGlobalTable => DelGlobalTable
  | OpCode_Other _ => ret tt
  end.

(** [&ins_base_[ins_current_]] and its first use. *)
Definition fetch : M Instruction :=
  fun s => if ins_current_ s <? 0 then Crash
           else match ins_base_ s !! Z.to_nat (ins_current_ s) with
                | Some ins => Val ins s
                | None => Crash
                end.

(** The body of the [while] of [Run]. *)
Definition step : M unit :=
  ins <- fetch ;;
  dispatch ins ;;
  modify (fun s => set_ins (ins_base_ s) (ins_count_ s) (ins_current_ s + 1) s).

(** The [while] itself; the answer tells whether the loop ended within
    [fuel] turns. *)
Fixpoint Run_loop (fuel : nat) : M bool :=
  match fuel with
  | O => ret false
  | S fuel' =>
      s <- get ;;
      if ins_current_ s <? ins_count_ s
      then step ;; Run_loop fuel'
      else ret true
  end.

Definition Run (fuel : nat) (boot : list Instruction) : M bool :=
  modify (set_ins boot (Z.of_nat (length boot)) 0) ;;
  Run_loop fuel.

(** ** What the properties are stated with *)

(** A computation that only reads the machine: it crashes or answers
    in the state it started from. *)
Class Reader {A} (m : M A) : Prop :=
  reader : forall s, m s = Crash \/ exists a, m s = Val a s.

(** [++ins_current_]. *)
Definition advance (s : VM) : VM :=
  set_ins (ins_base_ s) (ins_count_ s) (ins_current_ s + 1) s.

(** The stack [Call] expects: the counter of the arguments on top, the
    [A] arguments it counts, the counter of the callee (its total is
    1) and the callee. *)
Definition Call_shape (s : VM) (callee : Value) : Prop :=
  exists cur A args cur1 rest,
    stack_ s = StackValue_Counter cur A :: args ++
               StackValue_Counter cur1 1 :: StackValue_Value callee :: rest /\
    0 <= A /\ Z.of_nat (length args) = A.

(** The state in which [Call] has pushed the record of the call. *)
Definition record_pushed (s : VM) (callee : Value) : VM :=
  set_calls (new_CallStackInfo (ins_base_ s) (ins_count_ s) (ins_current_ s) callee
               :: call_stack_ s) s.

(** What the native function [n] leaves of a state. *)
Definition after_native (n : nat) (s : VM) : VM :=
  set_pool (native_call n (stack_ s) (data_pool_ s)).2
    (set_stack (native_call n (stack_ s) (data_pool_ s)).1 s).

(** The stack [Assign] expects, from the top: the key, the slot that
    is popped with it, the table, and the counter of the right-hand
    side with the [tot] values of its run, which are [vals] from the
    first pushed to the last.  The key is not the null pointer and
    the table exists. *)
Definition Assign_shape (s : VM) (key : Value) (r : nat) (cur tot : Z)
    (vals : list Value) (rest : list StackValue) : Prop :=
  (exists c, stack_ s = StackValue_Value key :: c :: StackValue_Value (VTable r) ::
                        StackValue_Counter cur tot ::
                        (StackValue_Value <$> reverse vals) ++ rest) /\
  Z.of_nat (length vals) = tot /\
  0 <= cur /\
  key <> VNull /\
  is_Some (tables (data_pool_ s) !! r).

(** The value the next [Assign] takes from a counter at [cur]. *)
Definition consumed (cur : Z) (vals : list Value) : Value :=
  default VNil (vals !! Z.to_nat cur).

(** The counter after one [Assign]. *)
Definition advanced (cur tot : Z) : Z := if cur <? tot then cur + 1 else cur.

(** One target of a multiple assignment, as the instructions do it:
    the table and its counter are pushed, then the key, then [Assign]
    runs. *)
Definition assign_to (target : nat * Value) : M unit :=
  Stack.Push (VTable target.1) ;;
  Stack.Push_counter 1 0 ;;
  Stack.Push target.2 ;;
  Assign.

Fixpoint assign_all (targets : list (nat * Value)) : M unit :=
  match targets with
  | [] => ret tt
  | target :: targets' => assign_to target ;; assign_all targets'
  end.

(** The write [table[key] = value] in the pool. *)
Definition write (p : DataPool) (w : (nat * Value) * Value) : DataPool :=
  match tables p !! w.1.1 with
  | Some tbl => pool_set_table w.1.1 (Table.Assign tbl w.1.2 w.2) p
  | None => p
  end.

(** The values that [K] successive [Assign]s take from a counter. *)
Fixpoint taken (K : nat) (cur tot : Z) (vals : list Value) : list Value :=
  match K with
  | O => []
  | S K' => consumed cur vals :: taken K' (advanced cur tot) tot vals
  end.

(** A target whose key a table accepts and whose table is in the
    pool. *)
Definition assignable (p : DataPool) (target : nat * Value) : Prop :=
  target.2 <> VNull /\ target.2 <> VNil /\ (target.1 < length (tables p))%nat.

(** The scan of [GetTable] finds nothing: the [callee_tables]
    innermost scope tables are there, and none of them has the key. *)
Definition not_in_scope (s : VM) (key : Value) (callee_tables : Z) : Prop :=
  callee_tables <= Z.of_nat (length (nest_tables_ s)) /\
  key <> VNull /\
  Forall (fun t => exists r tbl, t = Some r /\
                                 tables (data_pool_ s) !! r = Some tbl /\
                                 Table.HaveKey tbl key = false)
         (take (Z.to_nat callee_tables) (nest_tables_ s)).

(** A computation that leaves [nest_tables_] and [call_stack_] as they
    are. *)
Class Framed {A} (m : M A) : Prop :=
  framed : forall s a s', m s = Val a s' ->
           nest_tables_ s' = nest_tables_ s /\ call_stack_ s' = call_stack_ s.

(** The opcodes whose handlers touch neither [nest_tables_] nor
    [call_stack_]. *)
Definition plain (op : OpCode) : bool :=
  match op with
  | OpCode_Ret | OpCode_Call
  | OpCode_AddLocalTable | OpCode_DelLocalTable
  | OpCode_AddGlobalTable | OpCode_DelGlobalTable => false
  | _ => true
  end.

(** One turn of the dispatch loop that fetches an instruction of
    opcode [op] and completes. *)
Definition executes (op : OpCode) (s s' : VM) : Prop :=
  exists ins, fetch s = Val ins s /\ op_code ins = op /\ step s = Val tt s'.

(** The part of a run that belongs to one activation: [Activation s n s']
    goes from the state [s] in which the activation starts to a state
    [s'] of the same activation, [n] being the number of scope tables
    the activation has pushed with [AddLocalTable] and not yet removed
    with [DelLocalTable].  The calls it makes are completed by their
    [Ret], and a global table it adds is removed by [DelGlobalTable]
    when the tables pushed above it are gone. *)
Inductive Activation : VM -> nat -> VM -> Prop :=
  | Activation_enter s :
      Activation s 0 s
  | Activation_plain s n s1 op s2 :
      Activation s n s1 -> plain op = true -> executes op s1 s2 ->
      Activation s n s2
  | Activation_add s n s1 s2 :
      Activation s n s1 -> executes OpCode_AddLocalTable s1 s2 ->
      Activation s (S n) s2
  | Activation_del s n s1 s2 :
      Activation s (S n) s1 -> executes OpCode_DelLocalTable s1 s2 ->
      Activation s n s2
  | Activation_call s n s1 s2 m s3 s4 :
      Activation s n s1 -> executes OpCode_Call s1 s2 ->
      Activation s2 m s3 -> executes OpCode_Ret s3 s4 ->
      Activation s n s4
  | Activation_global s n s1 s2 s3 s4 :
      Activation s n s1 -> executes OpCode_AddGlobalTable s1 s2 ->
      Activation s2 0 s3 -> executes OpCode_DelGlobalTable s3 s4 ->
      Activation s n s4.

(** The record [info] with [n] for its [callee_tables]. *)
Definition with_callee_tables (info : CallStackInfo) (n : Z) : CallStackInfo :=
  mkCallStackInfo (caller_base info) (caller_total info) (caller_offset info)
                  (callee info) n.

(** What a table of the pool shows at one key. *)
Definition key_view (p : DataPool) (r : nat) (k : Value) : option (option Value) :=
  (fun tbl : gmap Value Value => tbl !! k) <$> tables p !! r.

(** [owns s key t]: in state [s], [GetUpvalueKeyOwnerTable key] finds
    the table [t], either among the scope tables or as the upvalue
    table of the closure that is running, and has nothing to add. *)
Definition owns (s : VM) (key : Value) (t : nat) : Prop :=
  exists info calls,
    call_stack_ s = info :: calls /\
    (GetUpvalueKeyOwnerTable_loop key (nest_tables_ s) (callee_tables info) s
       = Val (Some (Some t)) s
     \/
     (GetUpvalueKeyOwnerTable_loop key (nest_tables_ s) (callee_tables info) s = Val None s /\
      exists c0 cl, callee info = VClosure c0 /\
                    closures (data_pool_ s) !! c0 = Some cl /\
                    closure_upvalue_table cl = Some t /\
                    Table_HaveKey (Some t) key s = Val true s)).

(** The tables [GetUpvalueKeyOwnerTable] may look into. *)
Definition in_scope (s : VM) (r : nat) : Prop :=
  Some r ∈ nest_tables_ s \/
  exists info c0 cl, head (call_stack_ s) = Some info /\ callee info = VClosure c0 /\
                     closures (data_pool_ s) !! c0 = Some cl /\
                     closure_upvalue_table cl = Some r.

(** [captured s u n]: the table [u] holds, at the key [n], the value
    that the owner of [n] has for it in state [s]. *)
Definition captured (s : VM) (u : nat) (n : Value) : Prop :=
  exists t o,
    owns s n t /\ t <> u /\
    key_view (data_pool_ s) t n = Some o /\
    key_view (data_pool_ s) u n = Some (Some (default VNil o)).

(** Two states that differ at most in what their tables hold. *)
Definition same_frame (s s' : VM) : Prop :=
  stack_ s' = stack_ s /\ nest_tables_ s' = nest_tables_ s /\
  call_stack_ s' = call_stack_ s /\
  closures (data_pool_ s') = closures (data_pool_ s) /\
  functions (data_pool_ s') = functions (data_pool_ s) /\
  length (tables (data_pool_ s')) = length (tables (data_pool_ s)).

(** A state without dangling references: the tables in scope exist,
    and so does the closure that is running. *)
Definition no_dangling (s : VM) : Prop :=
  (forall r, in_scope s r -> (r < length (tables (data_pool_ s)))%nat) /\
  (forall info c0, head (call_stack_ s) = Some info -> callee info = VClosure c0 ->
                   (c0 < length (closures (data_pool_ s)))%nat).

(** The state in which [GenerateClosure] starts to copy upvalues: the
    closure and its empty upvalue table are in the pool, the closure
    and its counter are on the stack. *)
Definition closure_pushed (f : nat) (s : VM) : VM :=
  set_stack (StackValue_Counter 0 1 ::
             StackValue_Value (VClosure (length (closures (data_pool_ s)))) :: stack_ s)
    (set_pool (mkDataPool (tables (data_pool_ s) ++ [∅])
                 (closures (data_pool_ s) ++
                  [mkClosure f (Some (length (tables (data_pool_ s))))])
                 (functions (data_pool_ s))) s).

(** ** States to run the machine on *)

(** A host to run the machine with: names for the types, a message for
    the Nil key, and native functions that leave the stack and the pool
    as they are. *)
Definition sample_type_name (ty : ValueType) : string :=
  match ty with
  | TYPE_NIL => "nil"
  | TYPE_BOOL => "bool"
  | TYPE_NUMBER => "number"
  | TYPE_STRING => "string"
  | TYPE_TABLE => "table"
  | TYPE_FUNCTION => "function"
  | TYPE_NATIVE_FUNCTION => "native function"
  end.

Definition sample_nil_key_error : string := "table key is nil".

Definition sample_native_call (n : nat) (st : list StackValue) (p : DataPool) :
    list StackValue * DataPool := (st, p).

Definition no_param (op : OpCode) : Instruction :=
  mkInstruction op InstructionParamType_None.

Definition unknown_opcode_state : VM :=
  mkVM [StackValue_Counter 0 0] (mkDataPool [∅] [] []) [Some 0%nat]
       [mkCallStackInfo [] 0 0 VNull 1] [no_param (OpCode_Other 99)] 1 0 0.

Definition call_number_state : VM :=
  mkVM [StackValue_Counter 0 1; StackValue_Value (VString "arg");
        StackValue_Counter 0 1; StackValue_Value (VNumber 5)]
       (mkDataPool [∅] [] []) [Some 0%nat]
       [mkCallStackInfo [] 0 0 VNull 1] [no_param OpCode_Call] 1 0 0.

Definition assign_x_state : VM :=
  mkVM [StackValue_Value (VString "x"); StackValue_Counter 0 1;
        StackValue_Value (VTable 0); StackValue_Counter 0 1;
        StackValue_Value (VNumber 1)]
       (mkDataPool [∅] [] []) [Some 0%nat]
       [mkCallStackInfo [] 0 0 VNull 1] [no_param OpCode_Assign] 1 0 0.

Definition clean_two_state : VM :=
  mkVM [StackValue_Counter 0 2; StackValue_Value (VNumber 20); StackValue_Value (VNumber 10)]
       (mkDataPool [∅] [] []) [Some 0%nat]
       [mkCallStackInfo [] 0 0 VNull 1] [no_param OpCode_CleanStack] 1 0 0.

(** [a, b, c = 10, 20]: the counter of the right-hand side is {0,2}. *)
Definition assign_abc_state : VM :=
  mkVM [StackValue_Counter 0 2; StackValue_Value (VNumber 20); StackValue_Value (VNumber 10)]
       (mkDataPool [∅] [] []) [Some 0%nat]
       [mkCallStackInfo [] 0 0 VNull 1] [] 0 0 0.

Definition abc : list (nat * Value) :=
  [(0%nat, VString "a"); (0%nat, VString "b"); (0%nat, VString "c")].

(** A Nil key: the table refuses it, nothing is written, and the
    counter has been advanced all the same. *)
Definition assign_nil_key_state : VM :=
  mkVM [StackValue_Value VNil; StackValue_Counter 0 1;
        StackValue_Value (VTable 0); StackValue_Counter 0 1;
        StackValue_Value (VNumber 10)]
       (mkDataPool [∅] [] []) [Some 0%nat]
       [mkCallStackInfo [] 0 0 VNull 1] [no_param OpCode_Assign] 1 0 0.

Definition three_results_state : VM :=
  mkVM [StackValue_Counter 0 3; StackValue_Value (VNumber 3);
        StackValue_Value (VNumber 2); StackValue_Value (VNumber 1)]
       (mkDataPool [∅] [] []) [Some 0%nat]
       [mkCallStackInfo [] 0 0 VNull 1] [no_param OpCode_ResetCounter] 1 0 0.

(** A counter {1,1}: its one value has been consumed by an [Assign].
    [ResetCounter] returns at once and the counter stays {1,1}. *)
Definition consumed_counter_state : VM :=
  mkVM [StackValue_Counter 1 1; StackValue_Value (VNumber 7)]
       (mkDataPool [∅] [] []) [Some 0%nat]
       [mkCallStackInfo [] 0 0 VNull 1] [no_param OpCode_ResetCounter] 1 0 0.

(** The top-level chunk after [AddGlobalTable]: the global table is the
    only scope table and the only call record has no callee. *)
Definition global_frame : VM :=
  mkVM [] (mkDataPool [∅] [] []) [Some 0%nat] [mkCallStackInfo [] 0 0 VNull 1] [] 0 0 0.

Definition GetTable_x : Instruction :=
  mkInstruction OpCode_GetTable (InstructionParamType_Name (VString "x")).

(** Inside a call: table 0 is the global table and binds [x], table 1
    is the scope table of the running closure, table 2 is the upvalue
    table of that closure and binds [x] too. *)
Definition callee_frame (upvalues : option nat) : VM :=
  mkVM []
       (mkDataPool [{[VString "x" := VNumber 1]}; ∅; {[VString "x" := VNumber 7]}]
                   [mkClosure 0 upvalues]
                   [mkFunction [] [VString "x"]])
       [Some 1%nat; Some 0%nat]
       [mkCallStackInfo [] 0 0 (VClosure 0) 1; mkCallStackInfo [] 0 0 VNull 1]
       [] 0 0 0.

Definition GetTable_y : Instruction :=
  mkInstruction OpCode_GetTable (InstructionParamType_Name (VString "y")).

(** The global frame with [n = 1], and a function that declares the
    upvalue [n]. *)
Definition before_closure : VM :=
  mkVM [] (mkDataPool [{[VString "n" := VNumber 1]}] [] [mkFunction [] [VString "n"]])
       [Some 0%nat] [mkCallStackInfo [] 0 0 VNull 1] [] 0 0 0.

(** The state [GenerateClosure] leaves of [before_closure]. *)
Definition after_closure : VM :=
  mkVM [StackValue_Counter 0 1; StackValue_Value (VClosure 0)]
       (mkDataPool [{[VString "n" := VNumber 1]}; {[VString "n" := VNumber 1]}]
                   [mkClosure 0 (Some 1%nat)]
                   [mkFunction [] [VString "n"]])
       [Some 0%nat] [mkCallStackInfo [] 0 0 VNull 1] [] 0 0 0.

(** The caller is about to run [Call] on a closure without arguments;
    the body of the closure is [AddLocalTable; Ret]. *)
Definition before_call : VM :=
  mkVM [StackValue_Counter 0 0; StackValue_Counter 0 1; StackValue_Value (VClosure 0)]
       (mkDataPool [∅] [mkClosure 0 None]
                   [mkFunction [no_param OpCode_AddLocalTable; no_param OpCode_Ret] []])
       [Some 0%nat] [mkCallStackInfo [] 0 0 VNull 1]
       [no_param OpCode_Call] 1 0 0.

(** The states that follow: the call has been made, the closure has
    added its scope table, the closure has returned. *)
Definition in_callee : VM :=
  mkVM [StackValue_Counter 0 0; StackValue_Counter 0 1; StackValue_Value (VClosure 0)]
       (mkDataPool [∅] [mkClosure 0 None]
                   [mkFunction [no_param OpCode_AddLocalTable; no_param OpCode_Ret] []])
       [Some 0%nat]
       [mkCallStackInfo [no_param OpCode_Call] 1 0 (VClosure 0) 0;
        mkCallStackInfo [] 0 0 VNull 1]
       [no_param OpCode_AddLocalTable; no_param OpCode_Ret] 2 0 0.

Definition table_added : VM :=
  mkVM [StackValue_Counter 0 0; StackValue_Counter 0 1; StackValue_Value (VClosure 0)]
       (mkDataPool [∅; ∅] [mkClosure 0 None]
                   [mkFunction [no_param OpCode_AddLocalTable; no_param OpCode_Ret] []])
       [Some 1%nat; Some 0%nat]
       [mkCallStackInfo [no_param OpCode_Call] 1 0 (VClosure 0) 1;
        mkCallStackInfo [] 0 0 VNull 1]
       [no_param OpCode_AddLocalTable; no_param OpCode_Ret] 2 1 0.

Definition after_return : VM :=
  mkVM [StackValue_Counter 0 0; StackValue_Counter 0 1; StackValue_Value (VClosure 0)]
       (mkDataPool [∅; ∅] [mkClosure 0 None]
                   [mkFunction [no_param OpCode_AddLocalTable; no_param OpCode_Ret] []])
       [Some 0%nat] [mkCallStackInfo [] 0 0 VNull 1]
       [no_param OpCode_Call] 1 1 0.

(** ** More shapes of the operand stack *)

(** A multi-value as it lies on the stack, from the top: the counter,
    whose total is the length of the run, and the slots of the run. *)
Definition group_slots (g : Z * list StackValue) : list StackValue :=
  StackValue_Counter g.1 (Z.of_nat (length g.2)) :: g.2.

(** The stack [GetTableValue] expects, from the top: the key, the
    multi-values that the counter index tells it to skip, the counter
    of the table and the slot of the table. *)
Definition GetTableValue_shape (s : VM) (key : Value) (groups : list (Z * list StackValue))
    (c0 t0 : Z) (table : Value) (rest : list StackValue) : Prop :=
  stack_ s = StackValue_Value key :: concat (group_slots <$> groups) ++
             StackValue_Counter c0 t0 :: StackValue_Value table :: rest.

(** The slots that the loop of [MergeCounter] leaves where the upper
    run [run] and the slot [d] beneath it were: the run one slot
    lower, under a copy of its topmost slot. *)
Definition shifted (run : list StackValue) (d : StackValue) : list StackValue :=
  match run with
  | [] => [d]
  | top :: _ => top :: run
  end.

(** The table that [GenerateArgTable] fills: the values [vs] under the
    numbers [arg_index], [arg_index + 1], ... *)
Fixpoint fill_args (tbl : gmap Value Value) (arg_index : Z) (vs : list Value)
    : gmap Value Value :=
  match vs with
  | [] => tbl
  | v :: vs' => fill_args (<[VNumber arg_index := v]> tbl) (arg_index + 1) vs'
  end.


(** A computation that changes nothing of the machine but the operand
    stack, whether it completes or raises. *)
Class StackOnly {A} (m : M A) : Prop :=
  stack_only : forall s, match m s with
                         | Val _ s' | Exc _ s' => s' = set_stack (stack_ s') s
                         | Crash => True
                         end.

(** The opcodes whose handlers work on the operand stack alone. *)
Definition on_stack (op : OpCode) : bool :=
  match op with
  | OpCode_CleanStack | OpCode_GetLocalTable | OpCode_GetTable | OpCode_GetTableValue
  | OpCode_Push | OpCode_MergeCounter | OpCode_ResetCounter | OpCode_DuplicateCounter
  | OpCode_Other _ => true
  | _ => false
  end.

(** ** More states to run the machine on *)

(** An activation with two scope tables: the inner one, table 1, is
    empty; the outer one, table 0, binds [x]. *)
Definition two_scopes : VM :=
  mkVM [] (mkDataPool [{[VString "x" := VNumber 1]}; ∅] [] [])
       [Some 1%nat; Some 0%nat] [mkCallStackInfo [] 0 0 VNull 2] [] 0 0 0.

(** [t.x] with one multi-value between the key and the table. *)
Definition index_x_state : VM :=
  mkVM [StackValue_Value (VString "x");
        StackValue_Counter 0 1; StackValue_Value (VNumber 5);
        StackValue_Counter 0 1; StackValue_Value (VTable 0)]
       (mkDataPool [{[VString "x" := VNumber 1]}] [] []) [Some 0%nat]
       [mkCallStackInfo [] 0 0 VNull 1]
       [mkInstruction OpCode_GetTableValue (InstructionParamType_CounterIndex 1)] 1 0 0.

(** [(5).x]: the slot of the table holds a number. *)
Definition index_number_state : VM :=
  mkVM [StackValue_Value (VString "x"); StackValue_Counter 0 1; StackValue_Value (VNumber 5)]
       (mkDataPool [∅] [] []) [Some 0%nat]
       [mkCallStackInfo [] 0 0 VNull 1]
       [mkInstruction OpCode_GetTableValue (InstructionParamType_CounterIndex 0)] 1 0 0.

(** Three multi-values of one value each. *)
Definition three_groups_state : VM :=
  mkVM [StackValue_Counter 0 1; StackValue_Value (VNumber 3);
        StackValue_Counter 0 1; StackValue_Value (VNumber 2);
        StackValue_Counter 0 1; StackValue_Value (VNumber 1)]
       (mkDataPool [∅] [] []) [Some 0%nat]
       [mkCallStackInfo [] 0 0 VNull 1] [no_param OpCode_MergeCounter] 1 0 0.

(** The arguments 10, 20, 30 of a call, the first of them taken by a
    parameter. *)
Definition args_state : VM :=
  mkVM [StackValue_Counter 1 3; StackValue_Value (VNumber 30);
        StackValue_Value (VNumber 20); StackValue_Value (VNumber 10)]
       (mkDataPool [∅] [] []) [Some 0%nat]
       [mkCallStackInfo [] 0 0 VNull 1] [no_param OpCode_GenerateArgTable] 1 0 0.

(** The caller is about to run [Call] on the native function 0,
    without arguments. *)
Definition call_native_state : VM :=
  mkVM [StackValue_Counter 0 0; StackValue_Counter 0 1; StackValue_Value (VNative 0)]
       (mkDataPool [∅] [] []) [Some 0%nat]
       [mkCallStackInfo [] 0 0 VNull 1]
       [no_param OpCode_Call; no_param OpCode_CleanStack] 2 0 0.


(** A multi-value of one above a counter whose total is the largest
    [int]. *)
Definition merge_overflow_state : VM :=
  mkVM [StackValue_Counter 0 1; StackValue_Value (VNumber 3);
        StackValue_Counter 0 2147483647]
       (mkDataPool [∅] [] []) [Some 0%nat]
       [mkCallStackInfo [] 0 0 VNull 1] [no_param OpCode_MergeCounter] 1 0 0.
(** ** Reasoning about the monad *)

Lemma bind_Val {A B} (m : M A) (k : A -> M B) s b s' :
  bind m k s = Val b s' <-> exists a s1, m s = Val a s1 /\ k a s1 = Val b s'.
Proof.
  unfold bind. destruct (m s) as [a s1|msg s1|]; split.
  - eauto.
  - intros (a' & s1' & [= -> ->] & Hk). exact Hk.
  - discriminate.
  - intros (? & ? & [=] & _).
  - discriminate.
  - intros (? & ? & [=] & _).
Qed.

Lemma bind_ret {A B} (a : A) (k : A -> M B) s : bind (ret a) k s = k a s.
Proof. reflexivity. Qed.

Lemma bind_reader {A B} (m : M A) `{!Reader m} (k : A -> M B) s :
  (m s = Crash /\ bind m k s = Crash) \/ exists a, m s = Val a s /\ bind m k s = k a s.
Proof.
  unfold bind. destruct (reader (m:=m) s) as [E|[a E]]; rewrite E; eauto.
Qed.

#[global] Instance ret_reader {A} (a : A) : Reader (ret a).
Proof. intros s. right. by exists a. Qed.

#[global] Instance crash_reader {A} : Reader (@crash A).
Proof. intros s. by left. Qed.

#[global] Instance get_reader : Reader get.
Proof. intros s. right. by exists s. Qed.

#[global] Instance assert_reader b : Reader (assert b).
Proof. destruct b; apply _. Qed.

#[global] Instance some_reader {A} (o : option A) : Reader (some o).
Proof. destruct o; apply _. Qed.

#[global] Instance bind_is_reader {A B} (m : M A) (k : A -> M B) :
  Reader m -> (forall a, Reader (k a)) -> Reader (bind m k).
Proof.
  intros Hm Hk s. destruct (bind_reader m k s) as [[_ ->]|(a & _ & ->)]; [by left|].
  apply Hk.
Qed.

#[global] Instance Top_reader : Reader Stack.Top.
Proof. intros s. unfold Stack.Top. destruct (stack_ s); eauto. Qed.

#[global] Instance Size_reader : Reader Stack.Size.
Proof. intros s. right. by eexists. Qed.

#[global] Instance GetStackValue_reader i : Reader (Stack.GetStackValue i).
Proof.
  intros s. unfold Stack.GetStackValue.
  destruct (Stack.position _ _); [|by left]. destruct (_ !! _); eauto.
Qed.

#[global] Instance slot_value_reader sv : Reader (slot_value sv).
Proof. destruct sv; apply _. Qed.

#[global] Instance slot_counter_reader sv : Reader (slot_counter sv).
Proof. destruct sv; apply _. Qed.

#[global] Instance deref_table_reader t : Reader (deref_table t).
Proof.
  intros s. unfold deref_table. destruct t; [|by left]. destruct (_ !! _); eauto.
Qed.

#[global] Instance Table_HaveKey_reader t k : Reader (Table_HaveKey t k).
Proof. unfold Table_HaveKey. apply bind_is_reader; [apply _|]. intros a. destruct k; apply _. Qed.

#[global] Instance Table_GetValue_reader t k : Reader (Table_GetValue t k).
Proof. unfold Table_GetValue. apply bind_is_reader; [apply _|]. intros a. destruct k; apply _. Qed.

#[global] Instance closure_of_Value_reader v : Reader (closure_of_Value v).
Proof.
  intros s. unfold closure_of_Value. destruct v; try by left. destruct (_ !! _); eauto.
Qed.

#[global] Instance Closure_GetFunction_reader cl : Reader (Closure_GetFunction cl).
Proof. intros s. unfold Closure_GetFunction. destruct (_ !! _); eauto. Qed.

#[global] Instance call_stack_back_reader : Reader call_stack_back.
Proof. intros s. unfold call_stack_back. destruct (call_stack_ s); eauto. Qed.

#[global] Instance nest_tables_back_reader : Reader nest_tables_back.
Proof. intros s. unfold nest_tables_back. destruct (nest_tables_ s); eauto. Qed.

(** One step of a handler, forwards: the next action is a reader. *)
Ltac step_reader H :=
  match type of H with
  | context [bind ?m ?k ?s] =>
      let E := fresh "E" in
      destruct (bind_reader m k s) as [[_ E]|(? & ? & E)];
      rewrite E in H; clear E; [try discriminate H|]
  end.

(** One step where the next action changes the state and cannot fail. *)
Ltac step_modify H :=
  match type of H with
  | context [bind (modify ?f) ?k ?s] => change (bind (modify f) k s) with (k tt (f s)) in H
  | context [bind get ?k ?s] => change (bind get k s) with (k s s) in H
  | context [bind (ret ?a) ?k ?s] => change (bind (ret a) k s) with (k a s) in H
  | context [bind (Stack.Push ?v) ?k ?s] =>
      change (bind (Stack.Push v) k s)
        with (k tt (set_stack (StackValue_Value v :: stack_ s) s)) in H
  | context [bind (Stack.Push_counter ?t ?c) ?k ?s] =>
      change (bind (Stack.Push_counter t c) k s)
        with (k tt (set_stack (StackValue_Counter c t :: stack_ s) s)) in H
  | context [bind (call_stack_push_back ?i) ?k ?s] =>
      change (bind (call_stack_push_back i) k s)
        with (k tt (set_calls (i :: call_stack_ s) s)) in H
  end.

Ltac steps H := repeat (first [step_modify H | step_reader H]; cbn beta in H).

(** ** Unhandled opcodes *)

(** C9.  An instruction whose opcode is none of the seventeen that the
    switch of [Run] handles runs no handler: the turn of the loop
    succeeds, it leaves the operand stack, the data pool, the scope
    tables, the call stack and the instruction base and count as they
    were, and only moves [ins_current_] to the next instruction. *)
Theorem unhandled_opcode_is_skipped (s : VM) (ins : Instruction) (code : Z) (fuel : nat) :
  fetch s = Val ins s ->
  op_code ins = OpCode_Other code ->
  dispatch ins s = Val tt s /\
  step s = Val tt (advance s) /\
  stack_ (advance s) = stack_ s /\
  data_pool_ (advance s) = data_pool_ s /\
  nest_tables_ (advance s) = nest_tables_ s /\
  call_stack_ (advance s) = call_stack_ s /\
  ins_base_ (advance s) = ins_base_ s /\
  ins_count_ (advance s) = ins_count_ s /\
  ins_current_ (advance s) = ins_current_ s + 1 /\
  (ins_current_ s < ins_count_ s -> Run_loop (S fuel) s = Run_loop fuel (advance s)).
Proof.
  intros Hfetch Hop.
  assert (Hd : dispatch ins s = Val tt s) by (unfold dispatch; rewrite Hop; reflexivity).
  assert (Hs : step s = Val tt (advance s)).
  { unfold step, bind. rewrite Hfetch, Hd. reflexivity. }
  repeat split; try done.
  intros Hlt. cbn [Run_loop]. unfold bind at 1, get.
  destruct (Z.ltb_spec (ins_current_ s) (ins_count_ s)) as [_|?]; [|lia].
  unfold bind at 1. rewrite Hs. reflexivity.
Qed.

(** ** The type check of [Call] *)

Lemma position_neg (len : nat) (p : nat) :
  (p < len)%nat -> Stack.position len (- Z.of_nat p - 1) = Some p.
Proof.
  intros Hp. unfold Stack.position.
  destruct (Z.ltb_spec (- Z.of_nat p - 1) 0); [|lia].
  destruct (Z.leb_spec (- (- Z.of_nat p - 1)) (Z.of_nat len)); [|lia].
  f_equal. lia.
Qed.

Lemma GetStackValue_neg (s : VM) (i : Z) (p : nat) (sv : StackValue) :
  i = - Z.of_nat p - 1 -> stack_ s !! p = Some sv ->
  Stack.GetStackValue i s = Val sv s.
Proof.
  intros -> Hsv. unfold Stack.GetStackValue.
  rewrite position_neg by (by eapply lookup_lt_Some). by rewrite Hsv.
Qed.

Lemma lookup_after_middle {A} (l1 : list A) (x y : A) (l2 : list A) :
  (l1 ++ x :: y :: l2) !! S (length l1) = Some y.
Proof.
  rewrite lookup_app_r by lia.
  by replace (S (length l1) - length l1)%nat with 1%nat by lia.
Qed.

Lemma Call_reads_callee (s : VM) (callee : Value) :
  Call_shape s callee ->
  Call s =
    bind (some (Type_ callee))
      (fun type =>
         match type with
         | TYPE_FUNCTION =>
             cl <- closure_of_Value callee ;;
             func <- Closure_GetFunction cl ;;
             modify (set_ins (instructions func) (Z.of_nat (length (instructions func))) (-1))
         | TYPE_NATIVE_FUNCTION =>
             match callee with
             | VNative n =>
                 modify (fun s => let r := native_call n (stack_ s) (data_pool_ s) in
                                  set_pool r.2 (set_stack r.1 s))
             | _ => crash
             end ;;
             modify (set_ins native_func_ret_ (Z.of_nat (length native_func_ret_)) (-1))
         | _ => throw ("attempt to call " +:+ type_name type)
         end) (record_pushed s callee).
Proof.
  intros (cur & A & args & cur1 & rest & Hst & HA & Hlen).
  unfold Call. unfold bind at 1, Stack.Top. rewrite Hst.
  cbn [is_Counter assert]. unfold bind at 1, ret. unfold bind at 1. cbn [slot_counter ret snd].
  unfold bind at 1.
  rewrite (GetStackValue_neg s _ (S (length args)) (StackValue_Counter cur1 1)).
  2: lia.
  2: { rewrite Hst. by apply (list_lookup_middle (_ :: args)). }
  cbn [is_Counter assert]. unfold bind at 1, ret. unfold bind at 1. cbn [slot_counter ret snd].
  unfold bind at 1. cbn [Z.eqb Pos.eqb assert ret].
  unfold bind at 1.
  rewrite (GetStackValue_neg s _ (S (S (length args))) (StackValue_Value callee)).
  2: lia.
  2: { rewrite Hst. apply (lookup_after_middle (_ :: args)). }
  reflexivity.
Qed.

(** C5.  On the stack that [Call] expects, with a callee that is not
    the null pointer, [Call] raises a runtime error if and only if the
    type of the callee is neither function nor native function, and
    the message of that error is "attempt to call " followed by the
    name of the callee's type.  For a closure the call succeeds and
    the machine continues in the instructions of the callee (at -1, so
    that the loop fetches index 0 next); for a native function the
    function is run and the machine continues in the bootstrap that
    holds a single [Ret]. *)
Theorem Call_type_check (s : VM) (callee : Value) (ty : ValueType) :
  Call_shape s callee ->
  Type_ callee = Some ty ->
  ((exists msg s', Call s = Exc msg s') <->
     ty <> TYPE_FUNCTION /\ ty <> TYPE_NATIVE_FUNCTION) /\
  (forall msg s', Call s = Exc msg s' -> msg = "attempt to call " +:+ type_name ty) /\
  (forall c cl func,
      callee = VClosure c ->
      closures (data_pool_ s) !! c = Some cl ->
      functions (data_pool_ s) !! closure_func cl = Some func ->
      Call s = Val tt (set_ins (instructions func) (Z.of_nat (length (instructions func))) (-1)
                         (record_pushed s callee))) /\
  (forall n,
      callee = VNative n ->
      Call s = Val tt (set_ins native_func_ret_ 1 (-1)
                         (after_native n (record_pushed s callee))) /\
      native_func_ret_ = [mkInstruction OpCode_Ret InstructionParamType_None]).
Proof.
  intros Hshape Hty.
  rewrite (Call_reads_callee s callee Hshape), Hty.
  cbn [some]. rewrite bind_ret.
  split; [|split; [|split]].
  - split.
    + intros (msg & s' & H). split; intros ->.
      * steps H. unfold modify in H. discriminate H.
      * destruct callee; try discriminate Hty. discriminate H.
    + intros [Hf Hn]. destruct ty; try done; eauto.
  - intros msg s' H. destruct ty; try (unfold throw in H; by injection H as <- _).
    + steps H. unfold modify in H. discriminate H.
    + destruct callee; try discriminate Hty. discriminate H.
  - intros c cl func -> Hcl Hfunc. injection Hty as <-.
    unfold bind at 1, closure_of_Value. cbn [data_pool_ record_pushed set_calls].
    rewrite Hcl. unfold bind at 1, Closure_GetFunction.
    cbn [data_pool_ record_pushed set_calls]. rewrite Hfunc. reflexivity.
  - intros n ->. injection Hty as <-. split; reflexivity.
Qed.

(** C10.  Whenever [Call] raises an error, the error is the failed
    type check of a callee that is neither a function nor a native
    function, and the state in which it is raised is the state of the
    call with one more record on the call stack: the record that
    holds the caller's instruction base, count and offset and the
    callee that cannot be called.  Nothing else has changed, and the
    record has not been removed. *)
Theorem Call_error_leaves_record (s : VM) (msg : string) (s' : VM) :
  Call s = Exc msg s' ->
  exists cur A callee ty,
    head (stack_ s) = Some (StackValue_Counter cur A) /\
    Stack.GetStackValue (-1 - A - 2) s = Val (StackValue_Value callee) s /\
    Type_ callee = Some ty /\
    ty <> TYPE_FUNCTION /\ ty <> TYPE_NATIVE_FUNCTION /\
    msg = "attempt to call " +:+ type_name ty /\
    s' = record_pushed s callee /\
    call_stack_ s' =
      mkCallStackInfo (ins_base_ s) (ins_count_ s) (ins_current_ s) callee 0 :: call_stack_ s.
Proof.
  unfold Call. intros H. steps H.
  match goal with H : Stack.Top s = Val ?x s |- _ =>
    unfold Stack.Top in H; destruct (stack_ s) as [|sv st] eqn:Hst; [discriminate H|];
    injection H as <- end.
  match goal with H : slot_counter sv s = _ |- _ =>
    destruct sv as [|cur A]; [discriminate H|]; injection H as <- end.
  match goal with H : slot_value ?x s = Val ?v s |- _ =>
    destruct x as [callee|]; [injection H as <-|discriminate H] end.
  match goal with H : some (Type_ callee) _ = Val ?t _ |- _ =>
    destruct (Type_ callee) as [ty|] eqn:Hty; [injection H as <-|discriminate H] end.
  exists cur, A, callee, ty. cbn [snd] in *.
  destruct ty; try (unfold throw in H; injection H as <- <-; repeat split; done).
  - steps H. unfold modify in H. discriminate H.
  - destruct callee; try discriminate Hty. discriminate H.
Qed.

(** ** Running a handler forwards *)

Lemma bind_Val_eq {A B} (m : M A) (k : A -> M B) s a s1 :
  m s = Val a s1 -> bind m k s = k a s1.
Proof. intros H. unfold bind. by rewrite H. Qed.

Lemma Top_cons (s : VM) sv st : stack_ s = sv :: st -> Stack.Top s = Val sv s.
Proof. intros H. unfold Stack.Top. by rewrite H. Qed.

Lemma Pop_app (s : VM) (n : Z) pre st :
  stack_ s = pre ++ st -> Z.of_nat (length pre) = n ->
  Stack.Pop n s = Val tt (set_stack st s).
Proof.
  intros Hst Hn. unfold Stack.Pop. rewrite Hst, length_app.
  destruct (Z.leb_spec 0 n); [|lia].
  destruct (Z.leb_spec n (Z.of_nat (length pre + length st))); [|lia].
  cbn [andb]. replace (Z.to_nat n) with (length pre) by lia.
  by rewrite drop_app_length.
Qed.

Lemma SetStackValue_neg (s : VM) (i : Z) (p : nat) (sv : StackValue) :
  i = - Z.of_nat p - 1 -> (p < length (stack_ s))%nat ->
  Stack.SetStackValue i sv s = Val tt (set_stack (<[p := sv]> (stack_ s)) s).
Proof. intros -> Hp. unfold Stack.SetStackValue. by rewrite position_neg. Qed.

(** ** [Assign] *)

Ltac simp_vm :=
  cbn [set_stack set_pool set_nest set_calls set_ins stack_ data_pool_ nest_tables_
       call_stack_ ins_base_ ins_count_ ins_current_ global_table_].

Tactic Notation "simp_vm" "in" hyp(H) :=
  cbn [set_stack set_pool set_nest set_calls set_ins stack_ data_pool_ nest_tables_
       call_stack_ ins_base_ ins_count_ ins_current_ global_table_] in H.

Ltac fwd_top :=
  match goal with
  | |- context [bind Stack.Top ?k ?s] =>
      let st := eval cbn [set_stack set_pool set_nest set_calls set_ins stack_] in (stack_ s) in
      match st with
      | ?sv :: ?r => rewrite (bind_Val_eq Stack.Top k s sv s (Top_cons s sv r eq_refl))
      end
  end.

Ltac fwd_pop pre :=
  match goal with
  | |- context [bind (Stack.Pop ?n) ?k ?s] =>
      rewrite (bind_Val_eq (Stack.Pop n) k s tt _ (Pop_app s n pre _ eq_refl eq_refl))
  end.

Lemma Assign_runs (s : VM) key r cur tot vals rest :
  Assign_shape s key r cur tot vals rest ->
  Assign s =
    Table_Assign (Some r) key (consumed cur vals)
      (set_stack (StackValue_Counter (advanced cur tot) tot ::
                  (StackValue_Value <$> reverse vals) ++ rest) s).
Proof.
  intros ((c & Hst) & Hlen & Hcur & Hkey & Htbl).
  destruct s as [st pool nest calls base count icur g]. cbn in Hst, Htbl. subst st.
  unfold Assign.
  fwd_top. cbn [is_Value assert slot_value]. rewrite !bind_ret.
  fwd_pop [StackValue_Value key; c]. simp_vm.
  fwd_top. cbn [is_Value assert slot_value]. rewrite !bind_ret.
  fwd_pop [StackValue_Value (VTable r)]. simp_vm.
  fwd_top. cbn [is_Counter assert slot_counter]. rewrite !bind_ret.
  unfold DataPool_GetNil. rewrite bind_ret. cbn [fst snd].
  unfold advanced, consumed.
  destruct (Z.ltb_spec cur tot) as [Hlt|Hge].
  - assert (Hv : exists v, vals !! Z.to_nat cur = Some v).
    { apply lookup_lt_is_Some. lia. }
    destruct Hv as [v Hv]. rewrite Hv. cbn [default].
    erewrite (bind_Val_eq _ (fun value => Table_Assign _ _ value) _ v).
    + reflexivity.
    + erewrite bind_Val_eq.
      2: { apply (SetStackValue_neg _ (-1) 0); [reflexivity|cbn; lia]. }
      simp_vm. cbn [insert list_insert].
      erewrite bind_Val_eq.
      2: { apply (GetStackValue_neg _ _ (S (length vals - 1 - Z.to_nat cur)) (StackValue_Value v)).
           - lia.
           - simp_vm. rewrite lookup_cons.
             rewrite lookup_app_l by (rewrite length_fmap, length_reverse; lia).
             rewrite list_lookup_fmap, reverse_lookup by lia.
             replace (length vals - S (length vals - 1 - Z.to_nat cur))%nat
               with (Z.to_nat cur) by lia.
             by rewrite Hv. }
      reflexivity.
  - rewrite lookup_ge_None_2 by lia. rewrite bind_ret. reflexivity.
Qed.

Lemma Table_Assign_ok (s : VM) (r : nat) (tbl : gmap Value Value) (key v : Value) :
  tables (data_pool_ s) !! r = Some tbl -> key <> VNull -> key <> VNil ->
  Table_Assign (Some r) key v s =
    Val tt (set_pool (pool_set_table r (Table.Assign tbl key v) (data_pool_ s)) s).
Proof.
  intros Htbl Hnull Hnil. unfold Table_Assign.
  erewrite bind_Val_eq by (unfold deref_table; rewrite Htbl; reflexivity).
  destruct key; done.
Qed.

Lemma Table_Assign_Nil (s : VM) (r : nat) (v : Value) :
  is_Some (tables (data_pool_ s) !! r) ->
  Table_Assign (Some r) VNil v s = Exc nil_key_error s.
Proof.
  intros [tbl Htbl]. unfold Table_Assign.
  erewrite bind_Val_eq by (unfold deref_table; rewrite Htbl; reflexivity).
  reflexivity.
Qed.

(** ** [CleanStack] *)

Lemma CleanStack_runs (s : VM) (cur N : Z) (rest : list StackValue) :
  stack_ s = StackValue_Counter cur N :: rest ->
  0 <= N <= Z.of_nat (length rest) ->
  CleanStack s = Val tt (set_stack (drop (Z.to_nat N) rest) s).
Proof.
  intros Hst HN.
  destruct s as [st pool nest calls base count icur g]. cbn in Hst. subst st.
  unfold CleanStack.
  fwd_top. cbn [is_Counter assert slot_counter]. rewrite !bind_ret. cbn [snd].
  fwd_pop [StackValue_Counter cur N]. simp_vm.
  destruct (Z.gtb_spec N 0) as [Hpos|Hzero].
  - rewrite <- (take_drop (Z.to_nat N) rest) at 1.
    erewrite Pop_app; [reflexivity|reflexivity|].
    rewrite length_take. lia.
  - by replace N with 0 by lia.
Qed.

(** C7.  On the stack it expects, [Assign] ends (with its result, or
    with the error of a table that refuses a Nil key) on a stack three
    slots shorter, on which the counter of the right-hand side and the
    values of its run are still there.  [CleanStack], run on a counter
    of total [N] that has its [N] slots beneath it, ends on a stack
    [N + 1] slots shorter. *)
Theorem stack_balance (s : VM) key r cur tot vals rest (s2 : VM) cur2 N rest2 :
  Assign_shape s key r cur tot vals rest ->
  stack_ s2 = StackValue_Counter cur2 N :: rest2 ->
  0 <= N <= Z.of_nat (length rest2) ->
  (exists s',
      (Assign s = Val tt s' \/ Assign s = Exc nil_key_error s') /\
      Z.of_nat (length (stack_ s')) = Z.of_nat (length (stack_ s)) - 3 /\
      stack_ s' = StackValue_Counter (advanced cur tot) tot ::
                  (StackValue_Value <$> reverse vals) ++ rest) /\
  (exists s2',
      CleanStack s2 = Val tt s2' /\
      Z.of_nat (length (stack_ s2')) = Z.of_nat (length (stack_ s2)) - (N + 1)).
Proof.
  intros Hshape Hst2 HN. split.
  - rewrite (Assign_runs _ _ _ _ _ _ _ Hshape).
    destruct Hshape as ((c & Hst) & Hlen & Hcur & Hkey & [tbl Htbl]).
    set (s1 := set_stack _ s).
    assert (Hlen1 : Z.of_nat (length (stack_ s1)) = Z.of_nat (length (stack_ s)) - 3).
    { subst s1. rewrite Hst. cbn [stack_ set_stack length]. lia. }
    destruct (decide (key = VNil)) as [->|Hnil].
    + exists s1. split; [right; by apply Table_Assign_Nil|]. done.
    + eexists. split; [left; by apply Table_Assign_ok|]. done.
  - exists (set_stack (drop (Z.to_nat N) rest2) s2).
    split; [by eapply CleanStack_runs|].
    rewrite Hst2. cbn [stack_ set_stack length]. rewrite length_drop. lia.
Qed.

(** ** [ResetCounter] *)

(** C8, as amended.  On a stack whose top slot is a counter of total
    [tot], with [0 <= tot] and at least [tot - 1] slots beneath it,
    [ResetCounter] succeeds and leaves a counter of total 1 on top.
    When [tot] is 1 it changes nothing at all: the counter keeps the
    [current] it had.  When [tot] is 0 the new counter {0,1} sits on
    one pushed Nil; when [tot] is greater than 1 it sits on the stack
    from which the [tot - 1] topmost slots beneath the old counter
    were popped. *)
Theorem ResetCounter_coerces (s : VM) (cur tot : Z) (rest : list StackValue) :
  stack_ s = StackValue_Counter cur tot :: rest ->
  0 <= tot ->
  tot - 1 <= Z.of_nat (length rest) ->
  exists s' cur',
    ResetCounter s = Val tt s' /\
    head (stack_ s') = Some (StackValue_Counter cur' 1) /\
    (tot = 1 -> s' = s /\ cur' = cur) /\
    (tot = 0 -> cur' = 0 /\
                stack_ s' = StackValue_Counter 0 1 :: StackValue_Value VNil :: rest) /\
    (1 < tot -> cur' = 0 /\
                stack_ s' = StackValue_Counter 0 1 :: drop (Z.to_nat (tot - 1)) rest).
Proof.
  intros Hst Htot Hrest.
  destruct s as [st pool nest calls base count icur g]. cbn in Hst. subst st.
  unfold ResetCounter.
  fwd_top. cbn [is_Counter assert slot_counter]. rewrite !bind_ret. cbn [snd].
  unfold size_t_of_int. destruct (Z.ltb_spec tot 0) as [?|_]; [lia|].
  destruct (Z.eqb_spec tot 1) as [->|Hne1].
  - eexists _, cur. split; [reflexivity|]. repeat split; try done; lia.
  - fwd_pop [StackValue_Counter cur tot]. simp_vm.
    destruct (Z.eqb_spec tot 0) as [->|Hne0].
    + eexists _, 0. split; [reflexivity|]. repeat split; try done; lia.
    + erewrite (bind_Val_eq (Stack.Pop _)).
      2: { apply (Pop_app _ _ (take (Z.to_nat (tot - 1)) rest) (drop (Z.to_nat (tot - 1)) rest)).
           - simp_vm. by rewrite take_drop.
           - rewrite length_take. lia. }
      simp_vm.
      eexists _, 0. split; [reflexivity|]. repeat split; try done; lia.
Qed.

(** ** Multiple assignment *)

Lemma write_tables_length p w : length (tables (write p w)) = length (tables p).
Proof.
  unfold write. destruct (tables p !! w.1.1); [|done].
  cbn. by rewrite length_insert.
Qed.

Lemma assign_to_runs (s : VM) (target : nat * Value) cur tot vals rest :
  stack_ s = StackValue_Counter cur tot :: (StackValue_Value <$> reverse vals) ++ rest ->
  Z.of_nat (length vals) = tot -> 0 <= cur ->
  assignable (data_pool_ s) target ->
  assign_to target s =
    Val tt (set_pool (write (data_pool_ s) (target, consumed cur vals))
              (set_stack (StackValue_Counter (advanced cur tot) tot ::
                          (StackValue_Value <$> reverse vals) ++ rest) s)).
Proof.
  intros Hst Hlen Hcur (Hnull & Hnil & Hr).
  destruct (lookup_lt_is_Some_2 _ _ Hr) as [tbl Htbl].
  unfold assign_to.
  do 3 (unfold bind at 1; cbn [Stack.Push Stack.Push_counter modify]).
  erewrite Assign_runs.
  2: { split; [|done]. eexists. simp_vm. rewrite Hst. reflexivity. }
  erewrite Table_Assign_ok; [|exact Htbl|done..].
  unfold write. cbn [fst snd]. rewrite Htbl. reflexivity.
Qed.

Lemma assign_all_runs (targets : list (nat * Value)) :
  forall (s : VM) cur tot vals rest,
    stack_ s = StackValue_Counter cur tot :: (StackValue_Value <$> reverse vals) ++ rest ->
    Z.of_nat (length vals) = tot -> 0 <= cur ->
    Forall (assignable (data_pool_ s)) targets ->
    assign_all targets s =
      Val tt (set_pool (foldl write (data_pool_ s)
                          (zip targets (taken (length targets) cur tot vals)))
                (set_stack (StackValue_Counter
                              (Nat.iter (length targets) (fun c => advanced c tot) cur) tot ::
                            (StackValue_Value <$> reverse vals) ++ rest) s)).
Proof.
  induction targets as [|target targets IH]; intros s cur tot vals rest Hst Hlen Hcur Hall.
  - cbn. destruct s. cbn in Hst. by subst.
  - apply Forall_cons in Hall as [Htarget Hall].
    cbn [assign_all]. erewrite bind_Val_eq by (by eapply assign_to_runs).
    erewrite IH; [| reflexivity | done | unfold advanced; case_match; lia |].
    + cbn [length taken zip zip_with foldl]. simp_vm. rewrite Nat.iter_succ_r. reflexivity.
    + simp_vm. eapply Forall_impl; [exact Hall|].
      intros t (? & ? & ?). repeat split; try done. by rewrite write_tables_length.
Qed.

Lemma taken_from (K : nat) :
  forall cur (vals : list Value),
    0 <= cur <= Z.of_nat (length vals) ->
    taken K cur (Z.of_nat (length vals)) vals =
      take K (drop (Z.to_nat cur) vals) ++
      replicate (K - (length vals - Z.to_nat cur)) VNil /\
    Nat.iter K (fun c => advanced c (Z.of_nat (length vals))) cur =
      Z.min (cur + Z.of_nat K) (Z.of_nat (length vals)).
Proof.
  induction K as [|K IH]; intros cur vals Hcur.
  - cbn. split; [done|lia].
  - rewrite Nat.iter_succ_r. cbn [taken]. unfold advanced at 1 3, consumed.
    destruct (Z.ltb_spec cur (Z.of_nat (length vals))) as [Hlt|Hge].
    + destruct (IH (cur + 1) vals ltac:(lia)) as [-> ->].
      destruct (lookup_lt_is_Some_2 vals (Z.to_nat cur) ltac:(lia)) as [v Hv].
      rewrite Hv. cbn [default]. split; [|lia].
      rewrite (drop_S _ _ _ Hv). cbn [take app].
      replace (Z.to_nat (cur + 1)) with (S (Z.to_nat cur)) by lia.
      do 3 f_equal. lia.
    + destruct (IH cur vals ltac:(lia)) as [-> ->].
      rewrite lookup_ge_None_2 by lia. cbn [default]. split; [|lia].
      rewrite drop_ge by lia. rewrite !take_nil. cbn [app].
      replace (S K - (length vals - Z.to_nat cur))%nat with (S K) by lia.
      replace (K - (length vals - Z.to_nat cur))%nat with K by lia.
      reflexivity.
Qed.

(** C4, as amended.  When [Assign] runs on the stack it expects with a
    key that is not Nil, it succeeds and consumes one value of the
    right-hand side: with [current < total] it writes the value at
    position [current] of the run as [table[key]] and adds one to
    [current]; otherwise it writes Nil and leaves the counter as it
    is; the counter slot and the run stay on the stack.  Hence [K]
    assignments to keys that are not Nil, from a counter {0, N}, write
    the first [min K N] values of the run, in order, and then
    [K - N] Nils, and leave the counter at {min K N, N}. *)
Theorem Assign_consumes_one (s : VM) key r tbl cur tot vals rest
    (s2 : VM) (targets : list (nat * Value)) (vals2 : list Value) rest2 :
  Assign_shape s key r cur tot vals rest ->
  key <> VNil ->
  tables (data_pool_ s) !! r = Some tbl ->
  stack_ s2 = StackValue_Counter 0 (Z.of_nat (length vals2)) ::
              (StackValue_Value <$> reverse vals2) ++ rest2 ->
  Forall (assignable (data_pool_ s2)) targets ->
  let K := length targets in
  let N := length vals2 in
  (Assign s =
     Val tt (set_pool (pool_set_table r (<[key := consumed cur vals]> tbl) (data_pool_ s))
               (set_stack (StackValue_Counter (advanced cur tot) tot ::
                           (StackValue_Value <$> reverse vals) ++ rest) s))) /\
  (cur < tot -> vals !! Z.to_nat cur = Some (consumed cur vals) /\
                advanced cur tot = cur + 1) /\
  (tot <= cur -> consumed cur vals = VNil /\ advanced cur tot = cur) /\
  (assign_all targets s2 =
     Val tt (set_pool (foldl write (data_pool_ s2)
                         (zip targets (take (K `min` N) vals2 ++ replicate (K - N) VNil)))
               (set_stack (StackValue_Counter (Z.of_nat (K `min` N)) (Z.of_nat N) ::
                           (StackValue_Value <$> reverse vals2) ++ rest2) s2))).
Proof.
  intros Hshape Hnil Htbl Hst2 Hall K N.
  destruct (Hshape) as (_ & Hlen & Hcur & Hnull & _).
  split; [|split; [|split]].
  - rewrite (Assign_runs _ _ _ _ _ _ _ Hshape).
    by erewrite Table_Assign_ok.
  - intros Hlt. unfold consumed, advanced.
    destruct (lookup_lt_is_Some_2 vals (Z.to_nat cur) ltac:(lia)) as [v Hv].
    rewrite Hv. destruct (Z.ltb_spec cur tot); [done|lia].
  - intros Hge. unfold consumed, advanced.
    rewrite lookup_ge_None_2 by lia. destruct (Z.ltb_spec cur tot); [lia|done].
  - subst K N. erewrite assign_all_runs; [|exact Hst2|done|done|done].
    destruct (taken_from (length targets) 0 vals2 ltac:(lia)) as [-> ->].
    change (drop (Z.to_nat 0) vals2) with vals2. rewrite Nat.sub_0_r.
    replace (Z.min (0 + Z.of_nat (length targets)) (Z.of_nat (length vals2)))
      with (Z.of_nat (length targets `min` length vals2)) by lia.
    do 4 f_equal.
    destruct (Nat.le_ge_cases (length targets) (length vals2)).
    + rewrite Nat.min_l by done. done.
    + rewrite Nat.min_r by done. by rewrite !take_ge by lia.
Qed.

(** ** [GetTable] *)

Lemma Table_HaveKey_runs (s : VM) (r : nat) (tbl : gmap Value Value) (key : Value) :
  tables (data_pool_ s) !! r = Some tbl -> key <> VNull ->
  Table_HaveKey (Some r) key s = Val (Table.HaveKey tbl key) s.
Proof.
  intros Htbl Hkey. unfold Table_HaveKey.
  erewrite bind_Val_eq by (unfold deref_table; rewrite Htbl; reflexivity).
  destruct key; done.
Qed.

Lemma GetTable_loop_not_found (s : VM) (key : Value) (it : list (option nat)) :
  forall callee_tables,
    callee_tables <= Z.of_nat (length it) ->
    key <> VNull ->
    Forall (fun t => exists r tbl, t = Some r /\
                                   tables (data_pool_ s) !! r = Some tbl /\
                                   Table.HaveKey tbl key = false)
           (take (Z.to_nat callee_tables) it) ->
    GetTable_loop key it callee_tables s = Val false s.
Proof.
  induction it as [|t it IH]; intros n Hn Hkey Hall.
  - cbn in Hn. cbn [GetTable_loop]. destruct (Z.gtb_spec n 0); [lia|done].
  - cbn [GetTable_loop]. destruct (Z.gtb_spec n 0) as [Hpos|]; [|done].
    replace (Z.to_nat n) with (S (Z.to_nat (n - 1))) in Hall by lia.
    cbn [take] in Hall. apply Forall_cons in Hall as [(r & tbl & -> & Htbl & Hno) Hall].
    erewrite bind_Val_eq by (by eapply Table_HaveKey_runs).
    rewrite Hno. apply IH; [cbn [length] in Hn; lia|done..].
Qed.

(** C1, as amended.  When the key is in none of the scope tables that
    [GetTable] scans and the callee of the current call record is a
    closure, [GetTable] raises no error: it pushes the upvalue table
    of that closure, then a counter {0,1}.  A closure without an
    upvalue table makes it push the null table pointer. *)
Theorem GetTable_falls_back_to_upvalues (s : VM) (key : Value) (info : CallStackInfo)
    (calls : list CallStackInfo) (c : nat) (cl : Closure) :
  call_stack_ s = info :: calls ->
  not_in_scope s key (callee_tables info) ->
  callee info = VClosure c ->
  closures (data_pool_ s) !! c = Some cl ->
  GetTable (mkInstruction OpCode_GetTable (InstructionParamType_Name key)) s =
    Val tt (set_stack (StackValue_Counter 0 1 ::
                       StackValue_Value (Value_of_table (closure_upvalue_table cl)) ::
                       stack_ s) s) /\
  (closure_upvalue_table cl = None ->
   Value_of_table (closure_upvalue_table cl) = VNull).
Proof.
  intros Hcalls (Hn & Hkey & Hall) Hcallee Hcl. split; [|by intros ->].
  unfold GetTable. cbn [param_a]. rewrite bind_ret.
  assert (Hback : call_stack_back s = Val info s).
  { unfold call_stack_back. by rewrite Hcalls. }
  rewrite (bind_Val_eq _ _ _ _ _ Hback).
  change (bind get ?k s) with (k s s). cbn beta.
  rewrite (bind_Val_eq _ _ _ _ _ (GetTable_loop_not_found s key _ _ Hn Hkey Hall)).
  rewrite (bind_Val_eq _ _ _ _ _ Hback).
  rewrite Hcallee. cbn [Type_ some]. rewrite bind_ret.
  rewrite bool_decide_eq_true_2 by done. cbn [assert]. rewrite bind_ret.
  erewrite bind_Val_eq by (unfold closure_of_Value; rewrite Hcl; reflexivity).
  reflexivity.
Qed.

(** ** Handlers that leave the scope tables and the call stack alone *)

Lemma reader_framed {A} (m : M A) : Reader m -> Framed m.
Proof.
  intros Hm s a s' H. destruct (Hm s) as [E|[a' E]]; rewrite E in H; [done|].
  by injection H as _ <-.
Qed.

Lemma bind_framed {A B} (m : M A) (k : A -> M B) :
  Framed m -> (forall a, Framed (k a)) -> Framed (bind m k).
Proof.
  intros Hm Hk s b s' H. apply bind_Val in H as (a & s1 & H1 & H2).
  apply Hm in H1 as [E1 E2]. apply Hk in H2 as [-> ->]. done.
Qed.

Lemma modify_framed (f : VM -> VM) :
  (forall s, nest_tables_ (f s) = nest_tables_ s /\ call_stack_ (f s) = call_stack_ s) ->
  Framed (modify f).
Proof. intros Hf s a s' H. injection H as _ <-. apply Hf. Qed.

Lemma throw_framed {A} msg : Framed (@throw A msg).
Proof. intros s a s' H. discriminate H. Qed.

Lemma Pop_framed n : Framed (Stack.Pop n).
Proof. intros s a s' H. unfold Stack.Pop in H. case_match; by simplify_eq. Qed.

Lemma SetStackValue_framed i sv : Framed (Stack.SetStackValue i sv).
Proof. intros s a s' H. unfold Stack.SetStackValue in H. case_match; by simplify_eq. Qed.

Lemma Table_Assign_framed t k v : Framed (Table_Assign t k v).
Proof.
  unfold Table_Assign. apply bind_framed; [apply reader_framed, _|].
  intros rt. destruct k; try (by apply modify_framed); try (by apply reader_framed, _).
  intros s a s' [=].
Qed.

Lemma DataPool_GetTable_framed : Framed DataPool_GetTable.
Proof. by intros s a s' [= <- <-]. Qed.

Lemma DataPool_GetClosure_framed f : Framed (DataPool_GetClosure f).
Proof.
  intros s a s' H. unfold DataPool_GetClosure in H.
  repeat case_match; by simplify_eq.
Qed.

Ltac framed :=
  repeat first
    [ assumption
    | match goal with H : forall _, Framed _ |- _ => apply H end
    | match goal with H : forall _ _, Framed _ |- _ => apply H end
    | match goal with H : forall _ _ _, Framed _ |- _ => apply H end
    | match goal with H : forall _ _ _ _, Framed _ |- _ => apply H end
    | apply Pop_framed | apply SetStackValue_framed | apply Table_Assign_framed
    | apply DataPool_GetTable_framed | apply DataPool_GetClosure_framed
    | apply throw_framed
    | apply reader_framed; solve [apply _]
    | apply modify_framed; intros ?; split; reflexivity
    | progress cbv zeta
    | match goal with
      | |- Framed (if ?b then _ else _) => destruct b
      | |- Framed (match ?x with _ => _ end) => destruct x
      end
    | apply bind_framed; [|intros ?] ].

Lemma GetTable_loop_framed key it : forall n, Framed (GetTable_loop key it n).
Proof.
  induction it as [|t it IH]; intros n; cbn [GetTable_loop]; unfold Stack.Push,
    Stack.Push_counter; framed.
Qed.

Lemma GetTableValue_search_framed n : forall i, Framed (GetTableValue_search n i).
Proof. induction n as [|n IH]; intros i; cbn [GetTableValue_search]; framed. Qed.

Lemma GetUpvalueKeyOwnerTable_loop_framed key it n :
  Framed (GetUpvalueKeyOwnerTable_loop key it n).
Proof. induction it as [|t it IH]; cbn [GetUpvalueKeyOwnerTable_loop]; framed. Qed.

Lemma GetUpvalueKeyOwnerTable_framed key : Framed (GetUpvalueKeyOwnerTable key).
Proof.
  unfold GetUpvalueKeyOwnerTable, DataPool_GetNil.
  pose proof (GetUpvalueKeyOwnerTable_loop_framed key). framed.
Qed.

Lemma GenerateClosure_loop_framed u it : Framed (GenerateClosure_loop u it).
Proof.
  pose proof GetUpvalueKeyOwnerTable_framed.
  induction it as [|n it IH]; cbn [GenerateClosure_loop]; unfold Table_GetTableValue; framed.
Qed.

Lemma GenerateArgTable_loop_framed n arg : forall i j, Framed (GenerateArgTable_loop n arg i j).
Proof.
  induction n as [|n IH]; intros i j; cbn [GenerateArgTable_loop];
    unfold DataPool_GetNumber; framed.
Qed.

Lemma MergeCounter_loop_framed n : forall i, Framed (MergeCounter_loop n i).
Proof. induction n as [|n IH]; intros i; cbn [MergeCounter_loop]; framed. Qed.

Lemma DuplicateCounter_loop_framed n : forall i, Framed (DuplicateCounter_loop n i).
Proof.
  induction n as [|n IH]; intros i; cbn [DuplicateCounter_loop]; unfold Stack.Push_slot;
    framed.
Qed.

Lemma dispatch_plain_framed (ins : Instruction) :
  plain (op_code ins) = true -> Framed (dispatch ins).
Proof.
  intros Hplain. unfold dispatch.
  pose proof GetTable_loop_framed. pose proof GetTableValue_search_framed.
  pose proof GenerateClosure_loop_framed. pose proof GenerateArgTable_loop_framed.
  pose proof MergeCounter_loop_framed. pose proof DuplicateCounter_loop_framed.
  destruct (op_code ins); try discriminate Hplain;
    unfold Assign, CleanStack, GetLocalTable, GetTable, GetTableValue, DoPush,
      GenerateClosure, GenerateArgTable, MergeCounter, ResetCounter, DuplicateCounter,
      Stack.Push, Stack.Push_counter, Stack.Push_slot, DataPool_GetNil, DataPool_GetString,
      param_value, param_counter_index;
    framed.
Qed.

(** ** Calls, returns and scope tables *)

Lemma executes_dispatch op s s' :
  executes op s s' ->
  exists ins s1, op_code ins = op /\ dispatch ins s = Val tt s1 /\
                 nest_tables_ s' = nest_tables_ s1 /\ call_stack_ s' = call_stack_ s1.
Proof.
  intros (ins & Hfetch & Hop & Hstep). unfold step in Hstep.
  rewrite (bind_Val_eq _ _ _ _ _ Hfetch) in Hstep.
  apply bind_Val in Hstep as (u & s1 & Hd & Hfin); destruct u.
  injection Hfin as <-. by exists ins, s1.
Qed.

Lemma AddLocalTable_Val s s1 :
  AddLocalTable s = Val tt s1 ->
  exists info calls t,
    call_stack_ s = info :: calls /\
    nest_tables_ s1 = t :: nest_tables_ s /\
    call_stack_ s1 = with_callee_tables info (wrap64 (callee_tables info + 1)) :: calls /\
    Z.of_nat (length (nest_tables_ s1)) < 2 ^ 64.
Proof.
  unfold AddLocalTable. intros H.
  apply bind_Val in H as (t & sa & Ha & H). injection Ha as <- <-.
  apply bind_Val in H as (u & sb & Hb & H); destruct u.
  unfold nest_tables_push_back in Hb. simp_vm in Hb.
  destruct (Z.ltb_spec (Z.of_nat (length (nest_tables_ s)) + 1) (2 ^ 64)) as [Hlt|];
    [|discriminate Hb].
  injection Hb as <-.
  apply bind_Val in H as (info0 & sc & Hc & H).
  unfold call_stack_back in Hc. simp_vm in Hc.
  destruct (call_stack_ s) as [|info calls] eqn:Hcalls; [discriminate Hc|].
  injection Hc as <- <-.
  unfold set_callee_tables in H. simp_vm in H. rewrite Hcalls in H. injection H as <-.
  exists info, calls, (Some (length (tables (data_pool_ s)))).
  simp_vm. repeat split; try done. cbn [length]. lia.
Qed.

Lemma DelLocalTable_Val s s1 :
  DelLocalTable s = Val tt s1 ->
  exists info calls t nest,
    call_stack_ s = info :: calls /\
    nest_tables_ s = t :: nest /\
    nest_tables_ s1 = nest /\
    call_stack_ s1 = with_callee_tables info (wrap64 (callee_tables info - 1)) :: calls.
Proof.
  unfold DelLocalTable. intros H.
  apply bind_Val in H as (u & sa & Ha & H); destruct u.
  unfold nest_tables_pop_back in Ha.
  destruct (nest_tables_ s) as [|t nest] eqn:Hnest; [discriminate Ha|]. injection Ha as <-.
  apply bind_Val in H as (info0 & sb & Hb & H).
  unfold call_stack_back in Hb. simp_vm in Hb.
  destruct (call_stack_ s) as [|info calls] eqn:Hcalls; [discriminate Hb|].
  injection Hb as <- <-.
  unfold set_callee_tables in H. simp_vm in H. rewrite Hcalls in H. injection H as <-.
  by exists info, calls, t, nest.
Qed.

Lemma Call_Val s s1 :
  Call s = Val tt s1 ->
  exists callee,
    nest_tables_ s1 = nest_tables_ s /\
    call_stack_ s1 =
      new_CallStackInfo (ins_base_ s) (ins_count_ s) (ins_current_ s) callee :: call_stack_ s.
Proof.
  unfold Call. intros H. steps H.
  match goal with H : some (Type_ ?c) _ = Val ?t _ |- _ => exists c; destruct t end;
    try discriminate H.
  - steps H. by injection H as <-.
  - apply bind_Val in H as (u & sa & Ha & H); destruct u. injection H as <-.
    destruct x7; try discriminate Ha. by injection Ha as <-.
Qed.

Lemma Return_Val s s1 :
  Return s = Val tt s1 ->
  exists info calls,
    call_stack_ s = info :: calls /\
    call_stack_ s1 = calls /\
    nest_tables_ s1 =
      resize (Z.to_nat (wrap64 (Z.of_nat (length (nest_tables_ s)) - callee_tables info)))
             (nest_tables_ s) /\
    ins_base_ s1 = caller_base info /\
    ins_count_ s1 = caller_total info /\
    ins_current_ s1 = caller_offset info.
Proof.
  unfold Return. intros H.
  apply bind_Val in H as (info0 & sa & Ha & H).
  unfold call_stack_back in Ha.
  destruct (call_stack_ s) as [|info calls] eqn:Hcalls; [discriminate Ha|].
  injection Ha as <- <-.
  change (bind get ?k s) with (k s s) in H. cbn beta in H.
  do 2 (unfold bind at 1, modify, nest_tables_resize in H; cbn beta iota in H).
  unfold call_stack_pop_back in H. simp_vm in H. rewrite Hcalls in H. injection H as <-.
  by exists info, calls.
Qed.

Lemma AddGlobalTable_Val s s1 :
  AddGlobalTable s = Val tt s1 ->
  exists t,
    nest_tables_ s1 = t :: nest_tables_ s /\
    call_stack_ s1 = mkCallStackInfo [] 0 0 VNull 1 :: call_stack_ s /\
    Z.of_nat (length (nest_tables_ s1)) < 2 ^ 64.
Proof.
  unfold AddGlobalTable. intros H.
  change (bind get ?k s) with (k s s) in H. cbn beta in H.
  apply bind_Val in H as (u & sa & Ha & H); destruct u.
  unfold nest_tables_push_back in Ha.
  destruct (Z.ltb_spec (Z.of_nat (length (nest_tables_ s)) + 1) (2 ^ 64)) as [Hlt|];
    [|discriminate Ha].
  injection Ha as <-.
  unfold bind at 1, call_stack_push_back, modify in H. cbn beta iota in H.
  injection H as <-. eexists. simp_vm. repeat split. cbn [length]. lia.
Qed.

Lemma DelGlobalTable_Val s s1 :
  DelGlobalTable s = Val tt s1 ->
  exists t info,
    nest_tables_ s = t :: nest_tables_ s1 /\
    call_stack_ s = info :: call_stack_ s1.
Proof.
  unfold DelGlobalTable. intros H.
  apply bind_Val in H as (u & sa & Ha & H); destruct u.
  unfold nest_tables_pop_back in Ha.
  destruct (nest_tables_ s) as [|t nest] eqn:Hnest; [discriminate Ha|]. injection Ha as <-.
  unfold call_stack_pop_back in H. simp_vm in H.
  destruct (call_stack_ s) as [|info calls] eqn:Hcalls; [discriminate H|]. injection H as <-.
  by exists t, info.
Qed.

Lemma wrap64_small (z : Z) : 0 <= z < 2 ^ 64 -> wrap64 z = z.
Proof. intros Hz. unfold wrap64. by apply Z.mod_small. Qed.

Lemma wrap64_succ (a : Z) (n : nat) :
  wrap64 (wrap64 (a + Z.of_nat n) + 1) = wrap64 (a + Z.of_nat (S n)).
Proof.
  unfold wrap64. rewrite Zplus_mod_idemp_l. f_equal. lia.
Qed.

Lemma wrap64_pred (a : Z) (n : nat) :
  wrap64 (wrap64 (a + Z.of_nat (S n)) - 1) = wrap64 (a + Z.of_nat n).
Proof.
  unfold wrap64. rewrite Zminus_mod_idemp_l. f_equal. lia.
Qed.

Lemma resize_back (new l : list (option nat)) (ct : Z) :
  Z.of_nat (length (new ++ l)) < 2 ^ 64 ->
  ct = wrap64 (Z.of_nat (length new)) ->
  resize (Z.to_nat (wrap64 (Z.of_nat (length (new ++ l)) - ct))) (new ++ l) = l.
Proof.
  intros Hlen ->. rewrite length_app in *.
  assert (Hw : wrap64 (Z.of_nat (length new + length l) - wrap64 (Z.of_nat (length new)))
               = Z.of_nat (length l)).
  { unfold wrap64. rewrite Zminus_mod_idemp_r.
    replace (Z.of_nat (length new + length l) - Z.of_nat (length new))
      with (Z.of_nat (length l)) by lia.
    apply Z.mod_small. lia. }
  rewrite Hw, Nat2Z.id. unfold resize. rewrite length_app.
  replace (length l - (length new + length l))%nat with 0%nat by lia.
  replace (length new + length l - length l)%nat with (length new) by lia.
  cbn [replicate app]. by rewrite drop_app_length.
Qed.

(** What an activation has done to the scope tables and to the call
    stack: its tables are on top of those it found, its record counts
    them, and everything beneath is as it was. *)
Lemma Activation_invariant s n s' :
  Activation s n s' ->
  forall info calls,
    call_stack_ s = info :: calls ->
    0 <= callee_tables info < 2 ^ 64 ->
    Z.of_nat (length (nest_tables_ s)) < 2 ^ 64 ->
    exists new,
      nest_tables_ s' = new ++ nest_tables_ s /\
      length new = n /\
      call_stack_ s' =
        with_callee_tables info (wrap64 (callee_tables info + Z.of_nat n)) :: calls /\
      Z.of_nat (length (nest_tables_ s')) < 2 ^ 64.
Proof.
  induction 1 as [s|s n s1 op s2 _ IH Hplain Hex|s n s1 s2 _ IH Hex|s n s1 s2 _ IH Hex
                 |s n s1 s2 m s3 s4 _ IH1 Hcall _ IH2 Hret
                 |s n s1 s2 s3 s4 _ IH1 Hadd _ IH2 Hdel];
    intros info calls Hcalls Hct Hlen.
  - exists []. rewrite Z.add_0_r, wrap64_small by done.
    destruct info. by rewrite Hcalls.
  - destruct (IH _ _ Hcalls Hct Hlen) as (new & Hnest & Hnew & Hstack & Hbound).
    destruct (executes_dispatch _ _ _ Hex) as (ins & sd & Hop & Hd & -> & ->).
    rewrite <- Hop in Hplain.
    destruct (dispatch_plain_framed ins Hplain _ _ _ Hd) as [E1 E2].
    exists new. by rewrite E1, E2.
  - destruct (IH _ _ Hcalls Hct Hlen) as (new & Hnest & Hnew & Hstack & Hbound).
    destruct (executes_dispatch _ _ _ Hex) as (ins & sd & Hop & Hd & -> & ->).
    unfold dispatch in Hd. rewrite Hop in Hd.
    apply AddLocalTable_Val in Hd as (info1 & calls1 & t & Hc1 & Hn1 & Hs1 & Hb1).
    rewrite Hstack in Hc1. injection Hc1 as <- <-.
    exists (t :: new). rewrite Hn1, Hnest, Hs1. cbn [length callee_tables with_callee_tables].
    rewrite wrap64_succ. repeat split; try done; [by rewrite Hnew|].
    rewrite Hn1, Hnest in Hb1. done.
  - destruct (IH _ _ Hcalls Hct Hlen) as (new & Hnest & Hnew & Hstack & Hbound).
    destruct (executes_dispatch _ _ _ Hex) as (ins & sd & Hop & Hd & -> & ->).
    unfold dispatch in Hd. rewrite Hop in Hd.
    apply DelLocalTable_Val in Hd as (info1 & calls1 & t & nest & Hc1 & Hn1 & Hn2 & Hs1).
    rewrite Hstack in Hc1. injection Hc1 as <- <-.
    destruct new as [|t' new]; [discriminate Hnew|].
    rewrite Hnest in Hn1. injection Hn1 as <- <-.
    exists new. rewrite Hn2, Hs1. cbn [callee_tables with_callee_tables].
    rewrite wrap64_pred. repeat split; try done; [by injection Hnew|].
    rewrite Hnest in Hbound. cbn [length app] in Hbound. lia.
  - destruct (IH1 _ _ Hcalls Hct Hlen) as (new & Hnest & Hnew & Hstack & Hbound).
    destruct (executes_dispatch _ _ _ Hcall) as (ins & sd & Hop & Hd & E1 & E2).
    unfold dispatch in Hd. rewrite Hop in Hd.
    apply Call_Val in Hd as (c & Hn2 & Hs2). rewrite <- E1 in Hn2. rewrite <- E2 in Hs2.
    destruct (IH2 _ _ Hs2 ltac:(cbn; lia) ltac:(by rewrite Hn2))
      as (new2 & Hnest3 & Hnew2 & Hstack3 & Hbound3).
    destruct (executes_dispatch _ _ _ Hret) as (ins' & sd' & Hop' & Hd' & -> & ->).
    unfold dispatch in Hd'. rewrite Hop' in Hd'.
    apply Return_Val in Hd' as (info3 & calls3 & Hc3 & Hs4 & Hn4 & _).
    rewrite Hstack3 in Hc3. injection Hc3 as <- <-.
    exists new. rewrite Hs4, Hn4, Hnest3, Hn2. cbn [callee_tables with_callee_tables].
    rewrite resize_back; [done| |].
    + by rewrite <- Hn2, <- Hnest3.
    + cbn [new_CallStackInfo callee_tables]. by rewrite Z.add_0_l, Hnew2.
  - destruct (IH1 _ _ Hcalls Hct Hlen) as (new & Hnest & Hnew & Hstack & Hbound).
    destruct (executes_dispatch _ _ _ Hadd) as (ins & sd & Hop & Hd & E1 & E2).
    unfold dispatch in Hd. rewrite Hop in Hd.
    apply AddGlobalTable_Val in Hd as (t & Hn2 & Hs2 & Hb2).
    rewrite <- E1 in Hn2, Hb2. rewrite <- E2 in Hs2.
    destruct (IH2 _ _ Hs2 ltac:(cbn; lia) Hb2)
      as (new2 & Hnest3 & Hnew2 & Hstack3 & Hbound3).
    destruct (executes_dispatch _ _ _ Hdel) as (ins' & sd' & Hop' & Hd' & -> & ->).
    unfold dispatch in Hd'. rewrite Hop' in Hd'.
    apply DelGlobalTable_Val in Hd' as (t' & info' & Hn4 & Hs4).
    destruct new2; [|discriminate Hnew2].
    rewrite Hnest3, Hn2 in Hn4. injection Hn4 as _ <-.
    rewrite Hstack3 in Hs4. injection Hs4 as _ <-.
    exists new. done.
Qed.

(** C6.  A [Call], the activation it opens and the [Ret] that ends
    that activation leave the stack of scope tables and the call stack
    exactly as they were before the [Call], so both have the depth
    they had.  When the [Ret] runs, the record on top of the call
    stack has in [callee_tables] the number [n] of tables the
    activation pushed with [AddLocalTable] and did not remove with
    [DelLocalTable], and the [Ret] removes exactly that many scope
    tables. *)
Theorem scope_call_symmetry (s0 s1 s2 s3 : VM) (n : nat) :
  Z.of_nat (length (nest_tables_ s0)) < 2 ^ 64 ->
  executes OpCode_Call s0 s1 ->
  Activation s1 n s2 ->
  executes OpCode_Ret s2 s3 ->
  length (nest_tables_ s3) = length (nest_tables_ s0) /\
  length (call_stack_ s3) = length (call_stack_ s0) /\
  nest_tables_ s3 = nest_tables_ s0 /\
  call_stack_ s3 = call_stack_ s0 /\
  (exists info, head (call_stack_ s2) = Some info /\ callee_tables info = Z.of_nat n) /\
  length (nest_tables_ s2) = (n + length (nest_tables_ s3))%nat /\
  nest_tables_ s3 = drop n (nest_tables_ s2).
Proof.
  intros Hlen Hcall Hact Hret.
  destruct (executes_dispatch _ _ _ Hcall) as (ins & sd & Hop & Hd & E1 & E2).
  unfold dispatch in Hd. rewrite Hop in Hd.
  apply Call_Val in Hd as (c & Hn1 & Hs1). rewrite <- E1 in Hn1. rewrite <- E2 in Hs1.
  destruct (Activation_invariant _ _ _ Hact _ _ Hs1 ltac:(cbn; lia) ltac:(by rewrite Hn1))
    as (new & Hnest2 & Hnew & Hstack2 & Hbound2).
  destruct (executes_dispatch _ _ _ Hret) as (ins' & sd' & Hop' & Hd' & E3 & E4).
  unfold dispatch in Hd'. rewrite Hop' in Hd'.
  apply Return_Val in Hd' as (info3 & calls3 & Hc3 & Hs3 & Hn3 & _).
  rewrite Hstack2 in Hc3. injection Hc3 as <- <-.
  rewrite <- E3 in Hn3. rewrite <- E4 in Hs3.
  cbn [callee_tables with_callee_tables new_CallStackInfo] in Hn3.
  assert (Hsmall : wrap64 (0 + Z.of_nat n) = Z.of_nat n).
  { apply wrap64_small. rewrite Hnest2, length_app in Hbound2. lia. }
  rewrite Hnest2, Hn1 in Hn3.
  rewrite resize_back in Hn3;
    [| by rewrite <- Hn1, <- Hnest2 | by rewrite Z.add_0_l, Hnew ].
  assert (Hnest : nest_tables_ s3 = nest_tables_ s0) by done.
  assert (Hstack : call_stack_ s3 = call_stack_ s0) by done.
  rewrite Hnest, Hstack, Hnest2, Hstack2, Hn1. cbn [head].
  repeat split.
  - eexists. split; [reflexivity|]. cbn [callee_tables with_callee_tables new_CallStackInfo].
    exact Hsmall.
  - rewrite length_app. lia.
  - subst n. by rewrite drop_app_length.
Qed.

(** ** Closures and their upvalues *)

Lemma Table_HaveKey_agree (s s2 : VM) (r : nat) (k : Value) (b : bool) :
  key_view (data_pool_ s2) r k = key_view (data_pool_ s) r k ->
  Table_HaveKey (Some r) k s = Val b s ->
  Table_HaveKey (Some r) k s2 = Val b s2.
Proof.
  unfold key_view, Table_HaveKey, bind, deref_table. intros Hview.
  destruct (tables (data_pool_ s) !! r) as [tbl|] eqn:E; [|done].
  destruct (tables (data_pool_ s2) !! r) as [tbl2|] eqn:E2; [|done].
  cbn in Hview. injection Hview as Hview.
  destruct k; try done; unfold ret, Table.HaveKey; cbn [snd]; rewrite Hview;
    by intros [= <-].
Qed.

Lemma Table_HaveKey_Val (s s' : VM) (t : option nat) (k : Value) (b : bool) :
  Table_HaveKey t k s = Val b s' ->
  s' = s /\ k <> VNull /\
  exists r tbl, t = Some r /\ tables (data_pool_ s) !! r = Some tbl /\
                b = Table.HaveKey tbl k.
Proof.
  unfold Table_HaveKey, bind, deref_table. intros H.
  destruct t as [r|]; [|done].
  destruct (tables (data_pool_ s) !! r) as [tbl|] eqn:E; [|done].
  destruct k; try done; injection H as <- <-; repeat split; try done; by exists r, tbl.
Qed.

Lemma GetUpvalueKeyOwnerTable_loop_agree (s s2 : VM) (key : Value) (ct : Z)
    (it : list (option nat)) (res : option (option nat)) :
  (forall r, Some r ∈ it -> key_view (data_pool_ s2) r key = key_view (data_pool_ s) r key) ->
  GetUpvalueKeyOwnerTable_loop key it ct s = Val res s ->
  GetUpvalueKeyOwnerTable_loop key it ct s2 = Val res s2.
Proof.
  induction it as [|t it IH]; intros Hview H; cbn [GetUpvalueKeyOwnerTable_loop] in *.
  - by injection H as <-.
  - destruct (ct >? 0); [|by injection H as <-].
    apply bind_Val in H as (b & sa & Hb & H).
    destruct (Table_HaveKey_Val _ _ _ _ _ Hb) as (-> & _ & r & tbl & -> & _ & _).
    erewrite bind_Val_eq.
    2: { eapply Table_HaveKey_agree; [|exact Hb]. apply Hview. left. }
    destruct b.
    + by injection H as <-.
    + apply IH; [|done]. intros r' Hr'. apply Hview. by right.
Qed.

(** The loop answers a table only if the table is one of those it
    walks and has the key. *)
Lemma GetUpvalueKeyOwnerTable_loop_found (s s' : VM) (key : Value) (ct : Z)
    (it : list (option nat)) (t : option nat) :
  GetUpvalueKeyOwnerTable_loop key it ct s = Val (Some t) s' ->
  exists r tbl, t = Some r /\ Some r ∈ it /\
                tables (data_pool_ s) !! r = Some tbl /\ Table.HaveKey tbl key = true.
Proof.
  induction it as [|t0 it IH]; intros H; cbn [GetUpvalueKeyOwnerTable_loop] in *.
  - discriminate H.
  - destruct (ct >? 0); [|discriminate H].
    apply bind_Val in H as (b & sa & Hb & H).
    destruct (Table_HaveKey_Val _ _ _ _ _ Hb) as (-> & _ & r & tbl & -> & Htbl & ->).
    destruct (Table.HaveKey tbl key) eqn:Hhave.
    + injection H as <- _. exists r, tbl. repeat split; try done. left.
    + destruct (IH H) as (r' & tbl' & -> & Hin & Htbl' & Hhave').
      exists r', tbl'. repeat split; try done. by right.
Qed.

Lemma GetUpvalueKeyOwnerTable_loop_reader key it ct :
  Reader (GetUpvalueKeyOwnerTable_loop key it ct).
Proof.
  induction it as [|t it IH]; cbn [GetUpvalueKeyOwnerTable_loop]; [apply _|].
  destruct (ct >? 0); [|apply _].
  apply bind_is_reader; [apply _|]. intros []; [apply _|apply IH].
Qed.

Lemma owns_runs (s : VM) (key : Value) (t : nat) :
  owns s key t -> GetUpvalueKeyOwnerTable key s = Val (Some t) s.
Proof.
  intros (info & calls & Hcalls & H). unfold GetUpvalueKeyOwnerTable.
  assert (Hback : call_stack_back s = Val info s).
  { unfold call_stack_back. by rewrite Hcalls. }
  rewrite (bind_Val_eq _ _ _ _ _ Hback). cbv zeta.
  change (bind get ?k s) with (k s s). cbn beta.
  destruct H as [Hfound|(Hnone & c0 & cl & Hcallee & Hcl & Hup & Hhave)].
  - by rewrite (bind_Val_eq _ _ _ _ _ Hfound).
  - rewrite (bind_Val_eq _ _ _ _ _ Hnone), (bind_Val_eq _ _ _ _ _ Hback), Hcallee.
    erewrite bind_Val_eq by (unfold closure_of_Value; rewrite Hcl; reflexivity).
    rewrite Hup, (bind_Val_eq _ _ _ _ _ Hhave). reflexivity.
Qed.

Lemma owns_agree (s s2 : VM) (key : Value) (t : nat) :
  nest_tables_ s2 = nest_tables_ s ->
  call_stack_ s2 = call_stack_ s ->
  (forall c0 cl, closures (data_pool_ s) !! c0 = Some cl ->
                 closures (data_pool_ s2) !! c0 = Some cl) ->
  (forall r, in_scope s r ->
             key_view (data_pool_ s2) r key = key_view (data_pool_ s) r key) ->
  owns s key t -> owns s2 key t.
Proof.
  intros Hnest Hcalls Hclosures Hview (info & calls & Hc & H).
  exists info, calls. rewrite Hcalls, Hnest. split; [done|].
  assert (Hloop : forall res,
             GetUpvalueKeyOwnerTable_loop key (nest_tables_ s) (callee_tables info) s
               = Val res s ->
             GetUpvalueKeyOwnerTable_loop key (nest_tables_ s) (callee_tables info) s2
               = Val res s2).
  { intros res. apply GetUpvalueKeyOwnerTable_loop_agree.
    intros r Hr. apply Hview. by left. }
  destruct H as [Hfound|(Hnone & c0 & cl & Hcallee & Hcl & Hup & Hhave)].
  - left. by apply Hloop.
  - right. split; [by apply Hloop|]. exists c0, cl. repeat split; try done; [by apply Hclosures|].
    eapply Table_HaveKey_agree; [|exact Hhave].
    apply Hview. right. exists info, c0, cl. by rewrite Hc.
Qed.

Lemma Table_Assign_Val (s s' : VM) (t : option nat) (k v : Value) :
  Table_Assign t k v s = Val tt s' ->
  exists r tbl, t = Some r /\ tables (data_pool_ s) !! r = Some tbl /\
                k <> VNull /\ k <> VNil /\
                s' = set_pool (pool_set_table r (<[k := v]> tbl) (data_pool_ s)) s.
Proof.
  unfold Table_Assign, bind, deref_table. intros H.
  destruct t as [r|]; [|done].
  destruct (tables (data_pool_ s) !! r) as [tbl|] eqn:E; [|done].
  destruct k; try done; injection H as <-; by exists r, tbl.
Qed.

Lemma Table_GetValue_Val (s s' : VM) (t : option nat) (k v : Value) :
  Table_GetValue t k s = Val v s' ->
  s' = s /\ exists r tbl, t = Some r /\ tables (data_pool_ s) !! r = Some tbl /\
                          v = Table.GetValue tbl k.
Proof.
  unfold Table_GetValue, bind, deref_table. intros H.
  destruct t as [r|]; [|done].
  destruct (tables (data_pool_ s) !! r) as [tbl|] eqn:E; [|done].
  destruct k; try done; injection H as <- <-; split; try done; by exists r, tbl.
Qed.

Lemma key_view_set (p : DataPool) (r r' : nat) (tbl tbl' : gmap Value Value) (k : Value) :
  tables p !! r = Some tbl ->
  key_view (pool_set_table r tbl' p) r' k =
    if decide (r' = r) then Some (tbl' !! k) else key_view p r' k.
Proof.
  intros Htbl. unfold key_view, pool_set_table. cbn [tables].
  destruct (decide (r' = r)) as [->|Hne].
  - rewrite list_lookup_insert_eq by (by eapply lookup_lt_Some). done.
  - by rewrite list_lookup_insert_ne.
Qed.

(** What one call of [GetUpvalueKeyOwnerTable] does: it answers a table
    in scope that owns the key afterwards, and the only thing it may
    have changed is what that table shows at that key. *)
Lemma GetUpvalueKeyOwnerTable_Val (s s' : VM) (key : Value) (t' : option nat) :
  GetUpvalueKeyOwnerTable key s = Val t' s' ->
  exists t,
    t' = Some t /\ owns s' key t /\ in_scope s t /\
    stack_ s' = stack_ s /\ nest_tables_ s' = nest_tables_ s /\
    call_stack_ s' = call_stack_ s /\
    closures (data_pool_ s') = closures (data_pool_ s) /\
    functions (data_pool_ s') = functions (data_pool_ s) /\
    length (tables (data_pool_ s')) = length (tables (data_pool_ s)) /\
    (forall r k, k <> key ->
                 key_view (data_pool_ s') r k = key_view (data_pool_ s) r k).
Proof.
  unfold GetUpvalueKeyOwnerTable. intros H.
  apply bind_Val in H as (info & sa & Hback & H).
  unfold call_stack_back in Hback.
  destruct (call_stack_ s) as [|info0 calls] eqn:Hcalls; [discriminate Hback|].
  injection Hback as <- <-. cbv zeta in H.
  change (bind get ?k s) with (k s s) in H. cbn beta in H.
  apply bind_Val in H as (res & sa & Hloop & H).
  destruct (GetUpvalueKeyOwnerTable_loop_reader key (nest_tables_ s) (callee_tables info0) s)
    as [E|[res0 E]]; rewrite E in Hloop; [discriminate Hloop|].
  injection Hloop as -> <-. rename E into Hloop.
  destruct res as [t0|].
  - injection H as <- <-.
    destruct (GetUpvalueKeyOwnerTable_loop_found _ _ _ _ _ _ Hloop)
      as (r & tbl & -> & Hin & Htbl & Hhave).
    exists r. repeat split; try done; [|by left].
    exists info0, calls. split; [done|]. by left.
  - unfold bind at 1, call_stack_back in H. rewrite Hcalls in H.
    destruct (callee info0) eqn:Hcallee.
    + (* the global frame *)
      apply bind_Val in H as (u1 & s1 & Hassert & H).
      destruct (bool_decide (callee_tables info0 = 1)) eqn:Hct; [|discriminate Hassert].
      apply bool_decide_eq_true_1 in Hct. injection Hassert as _ <-.
      apply bind_Val in H as (t0 & s1 & Hnb & H).
      unfold nest_tables_back in Hnb.
      destruct (nest_tables_ s) as [|t1 nest] eqn:Hnest; [discriminate Hnb|].
      injection Hnb as <- <-.
      unfold DataPool_GetNil in H. rewrite bind_ret in H.
      apply bind_Val in H as (u2 & s2 & Hassign & H). injection H as <- <-. destruct u2.
      destruct (Table_Assign_Val _ _ _ _ _ Hassign) as (r & tbl & -> & Htbl & Hnull & Hnil & ->).
      exists r. simp_vm. repeat split; try done.
      * exists info0, calls. simp_vm. rewrite Hcalls, Hnest, Hct. split; [done|]. left.
        cbn [GetUpvalueKeyOwnerTable_loop Z.gtb Z.compare].
        erewrite bind_Val_eq.
        2: { apply Table_HaveKey_runs; [|done]. simp_vm. cbn [pool_set_table tables].
             apply list_lookup_insert_eq. by eapply lookup_lt_Some. }
        unfold Table.HaveKey. by rewrite lookup_insert_eq.
      * left. rewrite Hnest. left.
      * cbn [pool_set_table tables]. by rewrite length_insert.
      * intros r' k Hk. rewrite (key_view_set _ _ _ _ _ _ Htbl).
        destruct (decide (r' = r)) as [->|]; [|done].
        unfold key_view. rewrite Htbl. cbn. by rewrite lookup_insert_ne.
    + discriminate H.
    + unfold bind at 1, closure_of_Value in H. discriminate H.
    + unfold bind at 1, closure_of_Value in H. discriminate H.
    + unfold bind at 1, closure_of_Value in H. discriminate H.
    + unfold bind at 1, closure_of_Value in H. discriminate H.
    + unfold bind at 1, closure_of_Value in H. discriminate H.
    + (* a closure is running *)
      apply bind_Val in H as (cl & s1 & Hcl & H).
      unfold closure_of_Value in Hcl.
      destruct (closures (data_pool_ s) !! c) as [cl0|] eqn:Hc; [|discriminate Hcl].
      injection Hcl as <- <-.
      apply bind_Val in H as (has & s1 & Hhave & H).
      destruct (Table_HaveKey_Val _ _ _ _ _ Hhave) as (-> & _ & r & tbl & Hup & Htbl & ->).
      apply bind_Val in H as (u1 & s1 & Hassert & H).
      destruct (Table.HaveKey tbl key) eqn:Hk; [|discriminate Hassert].
      injection Hassert as _ <-. injection H as <- <-.
      exists r. repeat split; try done.
      * exists info0, calls. split; [done|]. right. split; [done|].
        exists c, cl0. rewrite <- Hup. repeat split; done.
      * right. exists info0, c, cl0. by rewrite Hcalls.
    + unfold bind at 1, closure_of_Value in H. discriminate H.
Qed.

Lemma same_frame_refl s : same_frame s s.
Proof. by repeat split. Qed.

Lemma same_frame_trans s1 s2 s3 : same_frame s1 s2 -> same_frame s2 s3 -> same_frame s1 s3.
Proof.
  intros (? & ? & ? & ? & ? & ?) (? & ? & ? & ? & ? & ?).
  repeat split; congruence.
Qed.

Lemma in_scope_same_frame s s' r : same_frame s s' -> in_scope s r -> in_scope s' r.
Proof.
  intros (_ & Hn & Hc & Hcl & _) [Hin|(info & c0 & cl & H1 & H2 & H3 & H4)].
  - left. by rewrite Hn.
  - right. exists info, c0, cl. by rewrite Hc, Hcl.
Qed.

Lemma same_frame_sym s s' : same_frame s s' -> same_frame s' s.
Proof. intros (? & ? & ? & ? & ? & ?). by repeat split. Qed.

Lemma captured_agree (s s2 : VM) (u : nat) (n : Value) :
  same_frame s s2 ->
  (forall r, key_view (data_pool_ s2) r n = key_view (data_pool_ s) r n) ->
  captured s u n -> captured s2 u n.
Proof.
  intros Hframe Hview (t & o & Hown & Hne & Ht & Hu).
  exists t, o. rewrite !Hview. repeat split; try done.
  destruct Hframe as (_ & Hn & Hc & Hcl & _).
  eapply owns_agree; try done. intros c0 cl. by rewrite Hcl.
Qed.

Lemma GenerateClosure_loop_Val (u : nat) (names : list Value) :
  forall s s',
    GenerateClosure_loop (Some u) names s = Val tt s' ->
    (forall r, in_scope s r -> r <> u) ->
    same_frame s s' /\
    (forall n0, captured s u n0 -> captured s' u n0) /\
    (forall n, n ∈ names -> captured s' u n).
Proof.
  induction names as [|n names IH]; intros s s' H Hfresh; cbn [GenerateClosure_loop] in H.
  - injection H as <-. split; [apply same_frame_refl|]. split; [done|].
    intros n Hn. by apply elem_of_nil in Hn.
  - apply bind_Val in H as (t' & s1 & Hown & H).
    destruct (GetUpvalueKeyOwnerTable_Val _ _ _ _ Hown)
      as (t & -> & Howns1 & Hscope & Hst & Hnest & Hcalls & Hcl & Hfn & Hlen & Hother).
    assert (Hframe1 : same_frame s s1) by by repeat split.
    apply bind_Val in H as (v & s1' & Hget & H).
    destruct (Table_GetValue_Val _ _ _ _ _ Hget) as (-> & r & tbl & [= <-] & Htbl & ->).
    apply bind_Val in H as (u0 & s2 & Hassign & H). destruct u0.
    destruct (Table_Assign_Val _ _ _ _ _ Hassign)
      as (r & tbl_u & [= <-] & Htbl_u & Hnull & Hnil & ->).
    set (s2 := set_pool _ s1) in *.
    assert (Hframe12 : same_frame s1 s2).
    { subst s2. repeat split. cbn [data_pool_ set_pool pool_set_table tables].
      by rewrite length_insert. }
    assert (Hframe2 : same_frame s s2) by by eapply same_frame_trans.
    assert (Htu : t <> u) by by apply Hfresh.
    assert (Hview12 : forall r k, r <> u ->
               key_view (data_pool_ s2) r k = key_view (data_pool_ s1) r k).
    { intros r k Hr. subst s2. cbn [data_pool_ set_pool].
      rewrite (key_view_set _ _ _ _ _ _ Htbl_u). by destruct (decide (r = u)). }
    assert (Hview_u : forall k,
               key_view (data_pool_ s2) u k = Some (<[n := Table.GetValue tbl n]> tbl_u !! k)).
    { intros k. subst s2. cbn [data_pool_ set_pool].
      rewrite (key_view_set _ _ _ _ _ _ Htbl_u). by destruct (decide (u = u)). }
    assert (Hcap2 : captured s2 u n).
    { exists t, (tbl !! n). repeat split; try done.
      - eapply owns_agree; [..|exact Howns1]; try apply Hframe12.
        + intros c0 cl. by destruct Hframe12 as (_ & _ & _ & -> & _).
        + intros r Hr. apply Hview12. apply Hfresh.
          eapply in_scope_same_frame; [|exact Hr]. by apply same_frame_sym.
      - rewrite Hview12 by done. unfold key_view. by rewrite Htbl.
      - rewrite Hview_u. by rewrite lookup_insert_eq. }
    assert (Hkeep : forall n0, captured s u n0 -> captured s2 u n0).
    { intros n0 Hcap. eapply captured_agree; [exact Hframe2| |exact Hcap].
      intros r. destruct (decide (n0 = n)) as [->|Hne].
      - destruct Hcap as (t0 & o0 & Howns0 & Hne0 & Ht0 & Hu0).
        rewrite (owns_runs _ _ _ Howns0) in Hown. injection Hown as <- <-.
        destruct (decide (r = u)) as [->|Hr]; [|by apply Hview12].
        rewrite Hview_u, lookup_insert_eq, Hu0. do 2 f_equal.
        unfold key_view in Ht0. rewrite Htbl in Ht0. cbn in Ht0. by injection Ht0 as <-.
      - rewrite <- (Hother r n0 Hne).
        destruct (decide (r = u)) as [->|Hr]; [|by apply Hview12].
        rewrite Hview_u, lookup_insert_ne by done. unfold key_view. by rewrite Htbl_u. }
    destruct (IH s2 s' H) as (Hframe' & Hkeep' & Hnames').
    { intros r Hr. apply Hfresh. eapply in_scope_same_frame; [|exact Hr].
      by apply same_frame_sym. }
    split; [by eapply same_frame_trans|]. split.
    + intros n0 Hcap. by apply Hkeep', Hkeep.
    + intros n' [->|Hin]%elem_of_cons; [by apply Hkeep'|by apply Hnames'].
Qed.

Lemma GenerateClosure_runs (s : VM) (f : nat) (fn : Function) :
  functions (data_pool_ s) !! f = Some fn ->
  upvalue_set fn <> [] ->
  GenerateClosure (mkInstruction OpCode_GenerateClosure
                     (InstructionParamType_Value (VFunction f))) s =
    GenerateClosure_loop (Some (length (tables (data_pool_ s)))) (upvalue_set fn)
      (closure_pushed f s).
Proof.
  intros Hfn Hup. unfold GenerateClosure, param_value. cbn [param_a Type_ some].
  rewrite !bind_ret. cbn [Type_ some]. rewrite !bind_ret.
  rewrite bool_decide_eq_true_2 by done. cbn [assert]. rewrite !bind_ret.
  erewrite bind_Val_eq.
  2: { unfold DataPool_GetClosure. rewrite Hfn.
       destruct (upvalue_set fn) as [|n0 ns]; [by destruct Hup|reflexivity]. }
  do 2 (unfold bind at 1; cbn [Stack.Push Stack.Push_counter modify]).
  erewrite bind_Val_eq.
  2: { unfold closure_of_Value. simp_vm. cbn [closures].
       rewrite (list_lookup_middle _ [] _ _ eq_refl). reflexivity. }
  cbn [closure_upvalue_table].
  erewrite bind_Val_eq.
  2: { unfold Closure_GetFunction. simp_vm. cbn [functions closure_func].
       rewrite Hfn. reflexivity. }
  reflexivity.
Qed.

(** The copy that [GenerateClosure] makes.  When it creates a closure
    of a function that declares the upvalue [n], in a state without
    dangling references, then in the state it leaves: the closure is
    on the stack under a counter {0,1}; it has an upvalue table [u] of
    its own, which is not the table [t] that
    [GetUpvalueKeyOwnerTable] answers for [n]; the entry of [u] for
    [n] is the value that [t] has for [n]; and an assignment to [n] in
    [t] made afterwards leaves the upvalue table as it is.  Which
    table [GetUpvalueKeyOwnerTable] answers is another matter. *)
Theorem GenerateClosure_captures_by_value (s s' : VM) (f : nat) (fn : Function) (n : Value) :
  no_dangling s ->
  functions (data_pool_ s) !! f = Some fn ->
  n ∈ upvalue_set fn ->
  GenerateClosure (mkInstruction OpCode_GenerateClosure
                     (InstructionParamType_Value (VFunction f))) s = Val tt s' ->
  let c := length (closures (data_pool_ s)) in
  let u := length (tables (data_pool_ s)) in
  stack_ s' = StackValue_Counter 0 1 :: StackValue_Value (VClosure c) :: stack_ s /\
  closures (data_pool_ s') !! c = Some (mkClosure f (Some u)) /\
  exists t tbl_t tbl_u,
    GetUpvalueKeyOwnerTable n s' = Val (Some t) s' /\
    t <> u /\
    tables (data_pool_ s') !! t = Some tbl_t /\
    tables (data_pool_ s') !! u = Some tbl_u /\
    tbl_u !! n = Some (Table.GetValue tbl_t n) /\
    forall v s'',
      Table_Assign (Some t) n v s' = Val tt s'' ->
      tables (data_pool_ s'') !! t = Some (<[n := v]> tbl_t) /\
      tables (data_pool_ s'') !! u = Some tbl_u.
Proof.
  intros [Hscope Hcallee] Hfn Hn H c u.
  rewrite (GenerateClosure_runs s f fn Hfn) in H
    by (intros E; rewrite E in Hn; by apply elem_of_nil in Hn).
  apply GenerateClosure_loop_Val in H as ((Hst & Hnest & Hcalls & Hcl & _) & _ & Hcap).
  - specialize (Hcap n Hn) as (t & o & Hown & Htu & Ht & Hu).
    split; [by rewrite Hst|]. split.
    { rewrite Hcl. unfold closure_pushed. simp_vm. cbn [closures].
      by apply list_lookup_middle. }
    unfold key_view in Ht, Hu.
    destruct (tables (data_pool_ s') !! t) as [tbl_t|] eqn:Etbl_t; [|discriminate Ht].
    destruct (tables (data_pool_ s') !! length (tables (data_pool_ s))) as [tbl_u|] eqn:Etbl_u;
      [|discriminate Hu].
    cbn in Ht, Hu. injection Ht as <-. injection Hu as Hu.
    exists t, tbl_t, tbl_u. repeat split; try done.
    + by apply owns_runs.
    + destruct (Table_Assign_Val _ _ _ _ _ H) as (r & tbl & [= <-] & Htbl & _ & _ & ->).
      simp_vm. cbn [pool_set_table tables].
      rewrite Etbl_t in Htbl. injection Htbl as <-.
      apply list_lookup_insert_eq. by eapply lookup_lt_Some.
    + destruct (Table_Assign_Val _ _ _ _ _ H) as (r & tbl & [= <-] & Htbl & _ & _ & ->).
      simp_vm. cbn [pool_set_table tables]. by rewrite list_lookup_insert_ne.
  - intros r [Hin|(info & c0 & cl & Hhead & Hc0 & Hcl0 & Hup)].
    + intros ->. specialize (Hscope (length (tables (data_pool_ s))) (or_introl Hin)). lia.
    + specialize (Hcallee info c0 Hhead Hc0).
      unfold closure_pushed in Hcl0. simp_vm in Hcl0. cbn [closures] in Hcl0.
      rewrite lookup_app_l in Hcl0 by done.
      intros ->. assert (Hin : in_scope s (length (tables (data_pool_ s)))).
      { right. by exists info, c0, cl. }
      specialize (Hscope _ Hin). lia.
Qed.


(** * More of the machine *)

(** ** [ResetCounter], twice *)

(** X1.  [ResetCounter] is idempotent: in the state a successful
    [ResetCounter] leaves, another [ResetCounter] succeeds and changes
    nothing. *)
Theorem ResetCounter_idempotent (s s' : VM) :
  ResetCounter s = Val tt s' -> ResetCounter s' = Val tt s'.
Proof.
  intros H. pose proof H as H0. unfold ResetCounter in H. steps H.
  match goal with Ht : Stack.Top s = Val ?x s, Hc : slot_counter ?x s = Val ?c s |- _ =>
    destruct x as [|cur tot]; [discriminate Hc|]; injection Hc as <- end.
  cbn [snd] in H.
  destruct (size_t_of_int tot =? 1) eqn:Hone.
  - injection H as <-. exact H0.
  - apply bind_Val in H as (u1 & s1 & _ & H).
    apply bind_Val in H as (u2 & s2 & _ & H).
    injection H as <-.
    reflexivity.
Qed.

(** ** [GetTable], when a scope table has the key *)

Lemma GetTable_loop_finds (s : VM) (key : Value) (r : nat) (tbl : gmap Value Value)
    (below : list (option nat)) (misses : list nat) :
  forall callee_tables,
    Z.of_nat (length misses) < callee_tables ->
    key <> VNull ->
    Forall (fun m => exists t, tables (data_pool_ s) !! m = Some t /\
                               Table.HaveKey t key = false) misses ->
    tables (data_pool_ s) !! r = Some tbl ->
    Table.HaveKey tbl key = true ->
    GetTable_loop key ((Some <$> misses) ++ Some r :: below) callee_tables s =
      Val true (set_stack (StackValue_Counter 0 1 :: StackValue_Value (VTable r) :: stack_ s) s).
Proof.
  induction misses as [|m misses IH]; intros n Hn Hkey Hall Htbl Hhave.
  - cbn [fmap list_fmap app GetTable_loop]. cbn [length] in Hn.
    destruct (Z.gtb_spec n 0); [|lia].
    erewrite bind_Val_eq by (by eapply Table_HaveKey_runs). by rewrite Hhave.
  - cbn [fmap list_fmap app GetTable_loop]. cbn [length] in Hn.
    destruct (Z.gtb_spec n 0); [|lia].
    apply Forall_cons in Hall as [(t & Ht & Hno) Hall].
    erewrite bind_Val_eq by (by eapply Table_HaveKey_runs). rewrite Hno.
    apply IH; try done. lia.
Qed.

(** X2.  When one of the scope tables that [GetTable] scans has the
    key, [GetTable] pushes the innermost such table and a counter
    {0,1}, whatever the callee of the call record is: the tables above
    it were looked into and lack the key, and the tables beneath it are
    not looked into. *)
Theorem GetTable_finds_innermost (s : VM) (key : Value) (info : CallStackInfo)
    (calls : list CallStackInfo) (misses : list nat) (r : nat) (tbl : gmap Value Value)
    (below : list (option nat)) :
  call_stack_ s = info :: calls ->
  nest_tables_ s = (Some <$> misses) ++ Some r :: below ->
  Z.of_nat (length misses) < callee_tables info ->
  key <> VNull ->
  Forall (fun m => exists t, tables (data_pool_ s) !! m = Some t /\
                             Table.HaveKey t key = false) misses ->
  tables (data_pool_ s) !! r = Some tbl ->
  Table.HaveKey tbl key = true ->
  GetTable (mkInstruction OpCode_GetTable (InstructionParamType_Name key)) s =
    Val tt (set_stack (StackValue_Counter 0 1 :: StackValue_Value (VTable r) :: stack_ s) s).
Proof.
  intros Hcalls Hnest Hn Hkey Hall Htbl Hhave.
  unfold GetTable. cbn [param_a]. rewrite bind_ret.
  erewrite bind_Val_eq by (unfold call_stack_back; rewrite Hcalls; reflexivity).
  change (bind get ?k s) with (k s s). cbn beta. rewrite Hnest.
  erewrite bind_Val_eq by (by eapply GetTable_loop_finds).
  reflexivity.
Qed.

(** ** [GetTableValue] *)

Lemma GetTableValue_search_skips (s : VM) (groups : list (Z * list StackValue)) :
  forall (front tail : list StackValue),
    stack_ s = front ++ concat (group_slots <$> groups) ++ tail ->
    GetTableValue_search (length groups) (- Z.of_nat (length front)) s =
      Val (- Z.of_nat (length front) - Z.of_nat (length (concat (group_slots <$> groups)))) s.
Proof.
  induction groups as [|[c run] groups IH]; intros front tail Hst.
  - cbn. unfold ret. f_equal. lia.
  - cbn [length GetTableValue_search fmap list_fmap concat] in *.
    unfold group_slots at 1 in Hst. unfold group_slots at 1. cbn [fst snd app] in *.
    erewrite bind_Val_eq.
    2: { apply (GetStackValue_neg _ _ (length front)); [lia|].
         rewrite Hst. by apply list_lookup_middle. }
    cbn [is_Counter assert slot_counter]. rewrite !bind_ret. cbn [snd].
    specialize (IH (front ++ StackValue_Counter c (Z.of_nat (length run)) :: run) tail).
    rewrite length_app in IH. cbn [length] in IH.
    replace (- Z.of_nat (length front) - 1 - Z.of_nat (length run))
      with (- Z.of_nat (length front + S (length run))) by lia.
    rewrite IH.
    + f_equal. cbn [length]. rewrite length_app. lia.
    + rewrite Hst. by rewrite <- !app_assoc.
Qed.

Lemma insert_after_middle {A} (l1 : list A) (x y z : A) (l2 : list A) :
  <[S (length l1) := z]> (l1 ++ x :: y :: l2) = l1 ++ x :: z :: l2.
Proof. induction l1 as [|a l1 IH]; [done|]. cbn. f_equal. exact IH. Qed.

Lemma GetTableValue_reads_table (s : VM) key groups c0 t0 table rest :
  GetTableValue_shape s key groups c0 t0 table rest ->
  GetTableValue (mkInstruction OpCode_GetTableValue
                   (InstructionParamType_CounterIndex (Z.of_nat (length groups)))) s =
    bind (some (Type_ table))
      (fun ty =>
         if bool_decide (ty <> TYPE_TABLE)
         then throw ("attempt to index value from " +:+ type_name ty)
         else
           v <- Table_GetValue (table_of_Value table) key ;;
           Stack.SetStackValue
             (-1 - Z.of_nat (length (concat (group_slots <$> groups))) - 2)
             (StackValue_Value v) ;;
           Stack.Pop 1) s.
Proof.
  intros Hst. unfold GetTableValue_shape in Hst.
  unfold GetTableValue, param_counter_index. cbn [param_a]. rewrite bind_ret, Nat2Z.id.
  erewrite bind_Val_eq.
  2: { apply (GetTableValue_search_skips s groups [StackValue_Value key]
                (StackValue_Counter c0 t0 :: StackValue_Value table :: rest)). exact Hst. }
  cbn [length].
  set (n := length (concat (group_slots <$> groups))).
  erewrite bind_Val_eq.
  2: { apply (GetStackValue_neg _ _ (S n)); [lia|].
       rewrite Hst. rewrite lookup_cons. by apply list_lookup_middle. }
  cbn [is_Counter assert]. rewrite bind_ret.
  erewrite bind_Val_eq.
  2: { apply (GetStackValue_neg _ _ (S (S n))); [lia|].
       rewrite Hst. rewrite lookup_cons. by apply lookup_after_middle. }
  cbn [slot_value]. rewrite bind_ret.
  destruct (Type_ table) as [ty|]; cbn [some]; [rewrite !bind_ret|reflexivity].
  destruct (bool_decide (ty <> TYPE_TABLE)); [reflexivity|].
  erewrite (bind_Val_eq Stack.Top) by (by eapply Top_cons).
  cbn [slot_value]. rewrite bind_ret.
  replace (- Z.of_nat 1 - Z.of_nat n - 2) with (-1 - Z.of_nat n - 2) by lia.
  reflexivity.
Qed.

Lemma GetTableValue_runs (s : VM) key groups c0 t0 r tbl rest :
  GetTableValue_shape s key groups c0 t0 (VTable r) rest ->
  key <> VNull ->
  tables (data_pool_ s) !! r = Some tbl ->
  GetTableValue (mkInstruction OpCode_GetTableValue
                   (InstructionParamType_CounterIndex (Z.of_nat (length groups)))) s =
    Val tt (set_stack (concat (group_slots <$> groups) ++
                       StackValue_Counter c0 t0 ::
                       StackValue_Value (Table.GetValue tbl key) :: rest) s).
Proof.
  intros Hshape Hkey Htbl.
  rewrite (GetTableValue_reads_table _ _ _ _ _ _ _ Hshape).
  unfold GetTableValue_shape in Hshape.
  cbn [Type_ some]. rewrite bind_ret. rewrite bool_decide_eq_false_2 by (intros E; by apply E).
  cbn [table_of_Value].
  erewrite bind_Val_eq.
  2: { unfold Table_GetValue. erewrite bind_Val_eq
         by (unfold deref_table; rewrite Htbl; reflexivity).
       cbn [snd]. destruct key; done. }
  set (n := length (concat (group_slots <$> groups))).
  erewrite bind_Val_eq.
  2: { apply (SetStackValue_neg _ _ (S (S n))); [lia|].
       rewrite Hshape. cbn [length]. rewrite length_app. cbn [length]. lia. }
  rewrite Hshape.
  pose proof (insert_after_middle (StackValue_Value key :: concat (group_slots <$> groups))
                (StackValue_Counter c0 t0) (StackValue_Value (VTable r))
                (StackValue_Value (Table.GetValue tbl key)) rest) as Hins.
  cbn [length app] in Hins. subst n. rewrite Hins.
  by erewrite (Pop_app _ 1 [StackValue_Value key]).
Qed.

(** X3.  [GetTableValue] with counter index [ci] skips the [ci]
    multi-values that lie between the key and the table, looks the key
    up in the table, puts the value it finds (Nil when the table does
    not have the key) where the table was, and pops the key: the
    skipped multi-values and the counter of the table stay as they
    are. *)
Theorem GetTableValue_indexes (s : VM) key groups c0 t0 r tbl rest :
  GetTableValue_shape s key groups c0 t0 (VTable r) rest ->
  key <> VNull ->
  tables (data_pool_ s) !! r = Some tbl ->
  GetTableValue (mkInstruction OpCode_GetTableValue
                   (InstructionParamType_CounterIndex (Z.of_nat (length groups)))) s =
    Val tt (set_stack (concat (group_slots <$> groups) ++
                       StackValue_Counter c0 t0 ::
                       StackValue_Value (Table.GetValue tbl key) :: rest) s) /\
  (tbl !! key = None -> Table.GetValue tbl key = VNil).
Proof.
  intros Hshape Hkey Htbl. split; [|by unfold Table.GetValue; intros ->].
  by eapply GetTableValue_runs.
Qed.

(** X4.  When the slot that [GetTableValue] takes for the table holds a
    value of another type than table, [GetTableValue] raises "attempt
    to index value from " followed by the name of that type, and
    raises it before it has changed anything: the key is still on the
    stack. *)
Theorem GetTableValue_type_error (s : VM) key groups c0 t0 v ty rest :
  GetTableValue_shape s key groups c0 t0 v rest ->
  Type_ v = Some ty ->
  ty <> TYPE_TABLE ->
  GetTableValue (mkInstruction OpCode_GetTableValue
                   (InstructionParamType_CounterIndex (Z.of_nat (length groups)))) s =
    Exc ("attempt to index value from " +:+ type_name ty) s.
Proof.
  intros Hshape Hty Hne.
  rewrite (GetTableValue_reads_table _ _ _ _ _ _ _ Hshape), Hty.
  cbn [some]. rewrite bind_ret. by rewrite bool_decide_eq_true_2.
Qed.

(** ** [MergeCounter] and [DuplicateCounter] *)

Lemma set_stack_idem (st st' : list StackValue) (s : VM) :
  set_stack st (set_stack st' s) = set_stack st s.
Proof. reflexivity. Qed.

Lemma MergeCounter_loop_shifts (run : list StackValue) :
  forall (s : VM) (front : list StackValue) (d : StackValue) (below : list StackValue),
    stack_ s = front ++ run ++ d :: below ->
    MergeCounter_loop (length run) (- Z.of_nat (length front + length run) - 1) s =
      Val tt (set_stack (front ++ shifted run d ++ below) s).
Proof.
  induction run as [|y run IH] using rev_ind; intros s front d below Hst.
  - cbn. unfold ret. destruct s. cbn in Hst. by subst.
  - rewrite length_app. cbn [length]. rewrite Nat.add_1_r. cbn [MergeCounter_loop].
    rewrite <- app_assoc in Hst. cbn [app] in Hst.
    erewrite bind_Val_eq.
    2: { apply (GetStackValue_neg _ _ (length front + length run)); [lia|].
         rewrite Hst, app_assoc. apply list_lookup_middle. by rewrite length_app. }
    erewrite bind_Val_eq.
    2: { apply (SetStackValue_neg _ _ (S (length front + length run))); [lia|].
         rewrite Hst, !length_app. cbn [length]. lia. }
    rewrite Hst.
    replace (<[S (length front + length run) := y]> (front ++ run ++ y :: d :: below))
      with (front ++ run ++ y :: y :: below).
    2: { rewrite !app_assoc. rewrite <- (length_app front run).
         by rewrite insert_after_middle. }
    replace (- Z.of_nat (length front + S (length run)) - 1 + 1)
      with (- Z.of_nat (length front + length run) - 1) by lia.
    erewrite IH by reflexivity.
    rewrite set_stack_idem. do 3 f_equal.
    destruct run as [|h run]; [done|]. cbn [shifted app]. by rewrite <- app_assoc.
Qed.

Lemma MergeCounter_runs (s : VM) (c1 c2 t2 : Z) (run1 rest : list StackValue) :
  stack_ s = StackValue_Counter c1 (Z.of_nat (length run1)) :: run1 ++
             StackValue_Counter c2 t2 :: rest ->
  MergeCounter s =
    Val tt (set_stack (StackValue_Counter 0 (wrap_int (Z.of_nat (length run1) + t2)) ::
                       run1 ++ rest) s).
Proof.
  intros Hst. unfold MergeCounter.
  erewrite bind_Val_eq.
  2: { apply (GetStackValue_neg _ _ 0); [lia|]. by rewrite Hst. }
  cbn [slot_counter]. rewrite bind_ret. cbn [snd].
  erewrite bind_Val_eq.
  2: { apply (GetStackValue_neg _ _ (S (length run1))); [lia|].
       rewrite Hst. by apply (list_lookup_middle (_ :: run1)). }
  cbn [slot_counter]. rewrite bind_ret. cbn [snd]. rewrite Nat2Z.id.
  erewrite bind_Val_eq.
  2: { replace (-1 - Z.of_nat (length run1) - 1)
         with (- Z.of_nat (length [StackValue_Counter c1 (Z.of_nat (length run1))] +
                           length run1) - 1) by (cbn [length]; lia).
       apply MergeCounter_loop_shifts. exact Hst. }
  destruct run1 as [|h run1].
  - erewrite (bind_Val_eq (Stack.Pop 2)).
    2: { apply (Pop_app _ 2 [StackValue_Counter c1 (Z.of_nat (length (@nil StackValue)));
                             StackValue_Counter c2 t2] rest); reflexivity. }
    reflexivity.
  - erewrite (bind_Val_eq (Stack.Pop 2)).
    2: { apply (Pop_app _ 2 [StackValue_Counter c1 (Z.of_nat (length (h :: run1))); h]
                  ((h :: run1) ++ rest)); reflexivity. }
    reflexivity.
Qed.

Lemma wrap_int_small (z : Z) : - 2 ^ 31 <= z < 2 ^ 31 -> wrap_int z = z.
Proof. intros Hz. unfold wrap_int. rewrite Z.mod_small; lia. Qed.

(** X5.  [MergeCounter] makes one multi-value of the two on top of the
    stack: the slots of the upper run come to lie directly on the
    slots beneath the lower counter, the two counters are gone, and the
    new counter is {0, total1 + total2}, the sum being a sum of [int]s:
    it is the sum of the two totals as long as that is an [int], and
    wraps around in 32 bits otherwise.  It works for an empty upper run
    as well, and does not look at how many slots the lower counter has
    beneath it. *)
Theorem MergeCounter_concatenates (s : VM) (c1 c2 t2 : Z) (run1 rest : list StackValue) :
  stack_ s = StackValue_Counter c1 (Z.of_nat (length run1)) :: run1 ++
             StackValue_Counter c2 t2 :: rest ->
  MergeCounter s =
    Val tt (set_stack (StackValue_Counter 0 (wrap_int (Z.of_nat (length run1) + t2)) ::
                       run1 ++ rest) s) /\
  (- 2 ^ 31 <= Z.of_nat (length run1) + t2 < 2 ^ 31 ->
   wrap_int (Z.of_nat (length run1) + t2) = Z.of_nat (length run1) + t2) /\
  (2 ^ 31 <= Z.of_nat (length run1) + t2 < 2 ^ 32 ->
   wrap_int (Z.of_nat (length run1) + t2) = Z.of_nat (length run1) + t2 - 2 ^ 32).
Proof.
  intros Hst. split; [exact (MergeCounter_runs s c1 c2 t2 run1 rest Hst)|].
  split; [apply wrap_int_small|].
  intros Hz. unfold wrap_int.
  replace (Z.of_nat (length run1) + t2 + 2 ^ 31)
    with (Z.of_nat (length run1) + t2 - 2 ^ 31 + 1 * 2 ^ 32) by lia.
  rewrite Z_mod_plus_full, Z.mod_small; lia.
Qed.

Lemma GetStackValue_abs (s : VM) (i : nat) (top below : list StackValue) (sv : StackValue) :
  stack_ s = top ++ sv :: below -> i = length below ->
  Stack.GetStackValue (Z.of_nat i) s = Val sv s.
Proof.
  intros Hst ->. unfold Stack.GetStackValue, Stack.position. rewrite Hst.
  rewrite length_app. cbn [length].
  destruct (Z.ltb_spec (Z.of_nat (length below)) 0); [lia|].
  destruct (Z.ltb_spec (Z.of_nat (length below)) (Z.of_nat (length top + S (length below))));
    [|lia].
  rewrite Nat2Z.id.
  replace (length top + S (length below) - 1 - length below)%nat with (length top) by lia.
  by rewrite list_lookup_middle.
Qed.

Lemma DuplicateCounter_loop_copies (todo : list StackValue) :
  forall (s : VM) (top below : list StackValue),
    stack_ s = top ++ todo ++ below ->
    DuplicateCounter_loop (length todo) (Z.of_nat (length below)) s =
      Val tt (set_stack (todo ++ top ++ todo ++ below) s).
Proof.
  induction todo as [|y todo IH] using rev_ind; intros s top below Hst.
  - cbn. unfold ret. destruct s. cbn in Hst. by subst.
  - rewrite length_app. cbn [length]. rewrite Nat.add_1_r. cbn [DuplicateCounter_loop].
    rewrite <- app_assoc in Hst. cbn [app] in Hst.
    erewrite bind_Val_eq.
    2: { apply (GetStackValue_abs _ _ (top ++ todo) below y); [|done].
         by rewrite Hst, <- app_assoc. }
    unfold bind at 1, Stack.Push_slot, modify.
    replace (Z.of_nat (length below) + 1) with (Z.of_nat (length (y :: below)))
      by (cbn [length]; lia).
    erewrite (IH _ (y :: top) (y :: below)).
    + rewrite set_stack_idem. f_equal. rewrite <- !app_assoc. reflexivity.
    + cbn [stack_ set_stack]. by rewrite Hst.
Qed.

Lemma DuplicateCounter_runs (s : VM) (c : Z) (run rest : list StackValue) :
  stack_ s = StackValue_Counter c (Z.of_nat (length run)) :: run ++ rest ->
  DuplicateCounter s =
    Val tt (set_stack (StackValue_Counter 0 (Z.of_nat (length run)) :: run ++
                       StackValue_Counter c (Z.of_nat (length run)) :: run ++ rest) s).
Proof.
  intros Hst. unfold DuplicateCounter.
  erewrite bind_Val_eq by (by eapply Top_cons).
  cbn [is_Counter assert slot_counter]. rewrite !bind_ret. cbn [snd].
  unfold bind at 1, Stack.Size. rewrite Hst at 1. cbn [length]. rewrite length_app, Nat2Z.id.
  replace (Z.of_nat (S (length run + length rest)) - Z.of_nat (length run) - 1)
    with (Z.of_nat (length rest)) by lia.
  erewrite bind_Val_eq.
  2: { apply (DuplicateCounter_loop_copies run s [StackValue_Counter c (Z.of_nat (length run))]).
       exact Hst. }
  reflexivity.
Qed.

(** X6.  [DuplicateCounter] copies the multi-value on top of the stack:
    above the counter and its run, which stay as they are, it pushes
    the slots of the run in the same order and a counter {0, total}. *)
Theorem DuplicateCounter_copies (s : VM) (c : Z) (run rest : list StackValue) :
  stack_ s = StackValue_Counter c (Z.of_nat (length run)) :: run ++ rest ->
  DuplicateCounter s =
    Val tt (set_stack (StackValue_Counter 0 (Z.of_nat (length run)) :: run ++
                       StackValue_Counter c (Z.of_nat (length run)) :: run ++ rest) s).
Proof. exact (DuplicateCounter_runs s c run rest). Qed.

(** X7.  [CleanStack] undoes [DuplicateCounter]: duplicating the
    multi-value on top of the stack and discarding the copy leaves the
    machine in the state it was in. *)
Theorem DuplicateCounter_CleanStack (s : VM) (c : Z) (run rest : list StackValue) :
  stack_ s = StackValue_Counter c (Z.of_nat (length run)) :: run ++ rest ->
  (DuplicateCounter ;; CleanStack) s = Val tt s.
Proof.
  intros Hst.
  erewrite bind_Val_eq by (by eapply DuplicateCounter_runs).
  erewrite CleanStack_runs; [|reflexivity|rewrite length_app; cbn [length]; lia].
  rewrite Nat2Z.id, drop_app_length, set_stack_idem.
  destruct s. cbn in Hst. by subst.
Qed.

(** X8.  Two [MergeCounter]s make one multi-value of the three on top
    of the stack, when the two upper runs together have fewer than
    2^31 slots: the runs lie in the order they were pushed in, and the
    total is the sum of the three totals, taken as a sum of [int]s. *)
Theorem MergeCounter_twice (s : VM) (c1 c2 c3 t3 : Z) (run1 run2 rest : list StackValue) :
  stack_ s = StackValue_Counter c1 (Z.of_nat (length run1)) :: run1 ++
             StackValue_Counter c2 (Z.of_nat (length run2)) :: run2 ++
             StackValue_Counter c3 t3 :: rest ->
  Z.of_nat (length run1) + Z.of_nat (length run2) < 2 ^ 31 ->
  (MergeCounter ;; MergeCounter) s =
    Val tt (set_stack (StackValue_Counter 0
                         (wrap_int (Z.of_nat (length run1) + Z.of_nat (length run2) + t3))
                       :: run1 ++ run2 ++ rest) s).
Proof.
  intros Hst Hlen.
  erewrite bind_Val_eq by (by eapply MergeCounter_runs).
  rewrite wrap_int_small by lia.
  erewrite (MergeCounter_runs _ 0 c3 t3 (run1 ++ run2) rest).
  - rewrite set_stack_idem, length_app, <- app_assoc, Nat2Z.inj_add. reflexivity.
  - cbn [stack_ set_stack]. rewrite length_app, <- app_assoc, Nat2Z.inj_add. reflexivity.
Qed.

(** ** Multiple assignment, to the end *)

(** X9.  A multiple assignment is neutral on the stack: from a
    right-hand side {0, N} with its run, the assignments to keys that
    are not Nil followed by [CleanStack] leave the stack that was
    beneath the run, whether there are more keys than values or more
    values than keys. *)
Theorem assign_all_CleanStack (s : VM) (targets : list (nat * Value)) (vals : list Value)
    (rest : list StackValue) :
  stack_ s = StackValue_Counter 0 (Z.of_nat (length vals)) ::
             (StackValue_Value <$> reverse vals) ++ rest ->
  Forall (assignable (data_pool_ s)) targets ->
  exists s',
    (assign_all targets ;; CleanStack) s = Val tt s' /\
    stack_ s' = rest /\
    data_pool_ s' = foldl write (data_pool_ s)
                      (zip targets (taken (length targets) 0 (Z.of_nat (length vals)) vals)).
Proof.
  intros Hst Hall.
  erewrite bind_Val_eq by (by eapply assign_all_runs).
  match goal with
  | |- context [CleanStack ?st] =>
      rewrite (CleanStack_runs st _ (Z.of_nat (length vals))
                 ((StackValue_Value <$> reverse vals) ++ rest) eq_refl)
  end.
  - eexists. split; [reflexivity|]. split; [|reflexivity].
    cbn [stack_ set_stack]. rewrite Nat2Z.id.
    replace (length vals) with (length (StackValue_Value <$> reverse vals))
      by (by rewrite length_fmap, length_reverse).
    by rewrite drop_app_length.
  - rewrite length_app, length_fmap, length_reverse. lia.
Qed.

(** ** [GenerateArgTable] *)

Lemma fill_args_lookup (vs : list Value) :
  forall (tbl : gmap Value Value) (k : Z) (i : nat),
    fill_args tbl k vs !! VNumber (k + Z.of_nat i) =
      match vs !! i with
      | Some v => Some v
      | None => tbl !! VNumber (k + Z.of_nat i)
      end /\
    forall key, (forall j : nat, (j < length vs)%nat -> key <> VNumber (k + Z.of_nat j)) ->
                fill_args tbl k vs !! key = tbl !! key.
Proof.
  induction vs as [|v vs IH]; intros tbl k i; cbn [fill_args].
  - split; [by rewrite lookup_nil|done].
  - split.
    + destruct i as [|i].
      * cbn [lookup list_lookup]. rewrite Z.add_0_r.
        destruct (IH (<[VNumber k := v]> tbl) (k + 1) 0%nat) as [_ Hother].
        rewrite Hother; [by rewrite lookup_insert_eq|].
        intros j _ [= E]. lia.
      * destruct (IH (<[VNumber k := v]> tbl) (k + 1) i) as [Hi _].
        replace (k + Z.of_nat (S i)) with (k + 1 + Z.of_nat i) by lia.
        rewrite Hi. cbn [lookup list_lookup]. destruct (vs !! i); [done|].
        rewrite lookup_insert_ne; [done|]. intros [= E]. lia.
    + intros key Hkey.
      destruct (IH (<[VNumber k := v]> tbl) (k + 1) 0%nat) as [_ Hother].
      rewrite Hother.
      * rewrite lookup_insert_ne; [done|]. intros <-.
        apply (Hkey 0%nat); [cbn; lia|]. by rewrite Z.add_0_r.
      * intros j Hj. replace (k + 1 + Z.of_nat j) with (k + Z.of_nat (S j)) by lia.
        apply Hkey. cbn [length]. lia.
Qed.

Lemma insert_last {A} (l : list A) (x y : A) : <[length l := x]> (l ++ [y]) = l ++ [x].
Proof. induction l as [|a l IH]; [done|]. cbn. f_equal. exact IH. Qed.

Lemma pool_set_table_twice (a : nat) (t1 t2 : gmap Value Value) (p : DataPool) :
  pool_set_table a t2 (pool_set_table a t1 p) = pool_set_table a t2 p.
Proof. unfold pool_set_table. cbn [tables closures functions]. by rewrite list_insert_insert_eq. Qed.

Lemma GenerateArgTable_loop_fills (vs : list Value) :
  forall (s : VM) (a : nat) (tbl : gmap Value Value) (k : Z),
    (forall i v, vs !! i = Some v ->
                 stack_ s !! (length vs - i)%nat = Some (StackValue_Value v)) ->
    tables (data_pool_ s) !! a = Some tbl ->
    GenerateArgTable_loop (length vs) (Some a) (- Z.of_nat (length vs) - 1) k s =
      Val tt (set_pool (pool_set_table a (fill_args tbl k vs) (data_pool_ s)) s).
Proof.
  induction vs as [|v vs IH]; intros s a tbl k Hstack Htbl.
  - cbn. unfold ret, pool_set_table. rewrite list_insert_id by done.
    by destruct s as [? [] ? ? ? ? ? ?].
  - cbn [length GenerateArgTable_loop fill_args]. unfold DataPool_GetNumber. rewrite bind_ret.
    erewrite bind_Val_eq.
    2: { apply (GetStackValue_neg _ _ (S (length vs))); [lia|].
         specialize (Hstack 0%nat v eq_refl). cbn [length] in Hstack.
         by rewrite Nat.sub_0_r in Hstack. }
    cbn [slot_value]. rewrite bind_ret.
    erewrite bind_Val_eq by (by eapply Table_Assign_ok).
    replace (- Z.of_nat (S (length vs)) - 1 + 1) with (- Z.of_nat (length vs) - 1) by lia.
    erewrite IH.
    + cbn [data_pool_ set_pool]. rewrite pool_set_table_twice. reflexivity.
    + intros i v' Hi. cbn [stack_ set_pool].
      specialize (Hstack (S i) v' Hi). by cbn [length Nat.sub] in Hstack.
    + cbn [data_pool_ set_pool pool_set_table tables].
      apply list_lookup_insert_eq. by eapply lookup_lt_Some.
Qed.

(** X10.  [GenerateArgTable] packs the values of the counter on top
    that are not consumed yet into a fresh table, the first of them
    under the number 1, the next under 2, and so on; it marks the
    counter as consumed ([current = total]), leaves the values on the
    stack, and binds the name "arg" to the new table in the innermost
    scope table. *)
Theorem GenerateArgTable_packs (s : VM) (cur : Z) (vals : list Value) (rest : list StackValue)
    (l : nat) (ltbl : gmap Value Value) (nest : list (option nat)) :
  stack_ s = StackValue_Counter cur (Z.of_nat (length vals)) ::
             (StackValue_Value <$> reverse vals) ++ rest ->
  0 <= cur <= Z.of_nat (length vals) ->
  nest_tables_ s = Some l :: nest ->
  tables (data_pool_ s) !! l = Some ltbl ->
  let arg := length (tables (data_pool_ s)) in
  let args := fill_args ∅ 1 (drop (Z.to_nat cur) vals) in
  GenerateArgTable s =
    Val tt (set_pool (mkDataPool
                        (<[l := <[VString "arg" := VTable arg]> ltbl]>
                           (tables (data_pool_ s) ++ [args]))
                        (closures (data_pool_ s)) (functions (data_pool_ s)))
              (set_stack (StackValue_Counter (Z.of_nat (length vals)) (Z.of_nat (length vals)) ::
                          (StackValue_Value <$> reverse vals) ++ rest) s)) /\
  (forall i : nat, args !! VNumber (Z.of_nat i + 1) = vals !! (Z.to_nat cur + i)%nat) /\
  (forall key, (forall i : nat, key <> VNumber (Z.of_nat i + 1)) -> args !! key = None).
Proof.
  intros Hst Hcur Hnest Hltbl arg args. split; [|split].
  - unfold GenerateArgTable.
    unfold bind at 1, DataPool_GetTable.
    set (s1 := set_pool _ s).
    assert (Hst1 : stack_ s1 = stack_ s) by reflexivity.
    erewrite bind_Val_eq by (eapply Top_cons; rewrite Hst1; exact Hst).
    cbn [slot_counter]. rewrite bind_ret. cbn [fst snd].
    set (vs := drop (Z.to_nat cur) vals).
    assert (Hlen : length vs = Z.to_nat (Z.of_nat (length vals) - cur)).
    { subst vs. rewrite length_drop. lia. }
    rewrite <- Hlen.
    replace (-1 - (Z.of_nat (length vals) - cur)) with (- Z.of_nat (length vs) - 1) by lia.
    erewrite bind_Val_eq.
    2: { apply (GenerateArgTable_loop_fills vs s1 arg ∅ 1).
         - intros i v Hi. rewrite Hst1, Hst. subst vs. rewrite lookup_drop in Hi.
           assert (Hlt : (Z.to_nat cur + i < length vals)%nat) by (by eapply lookup_lt_Some).
           replace (length (drop (Z.to_nat cur) vals) - i)%nat
             with (S (length vals - S (Z.to_nat cur + i))) by (rewrite length_drop; lia).
           rewrite lookup_cons.
           rewrite lookup_app_l by (rewrite length_fmap, length_reverse; lia).
           rewrite list_lookup_fmap, reverse_lookup by lia.
           replace (length vals - S (length vals - S (Z.to_nat cur + i)))%nat
             with (Z.to_nat cur + i)%nat by lia.
           by rewrite Hi.
         - subst s1 arg. cbn [data_pool_ set_pool tables].
           by apply list_lookup_middle. }
    erewrite bind_Val_eq.
    2: { apply (SetStackValue_neg _ (-1) 0); [reflexivity|].
         cbn [stack_ set_pool]. rewrite Hst1, Hst. cbn [length]. lia. }
    erewrite bind_Val_eq.
    2: { unfold nest_tables_back. cbn [nest_tables_ set_stack set_pool]. subst s1.
         cbn [nest_tables_ set_pool]. rewrite Hnest. reflexivity. }
    unfold DataPool_GetString. rewrite bind_ret.
    erewrite Table_Assign_ok; [| |done|done].
    2: { cbn [data_pool_ set_stack set_pool pool_set_table tables]. subst s1.
         cbn [data_pool_ set_pool tables].
         rewrite list_lookup_insert_ne.
         - rewrite lookup_app_l by (by eapply lookup_lt_Some). exact Hltbl.
         - apply lookup_lt_Some in Hltbl. subst arg. lia. }
    subst s1. cbn [data_pool_ stack_ set_stack set_pool pool_set_table tables closures functions
                   Table.Assign Value_of_table].
    rewrite Hst. unfold pool_set_table, Table.Assign. cbn [tables closures functions].
    subst arg. rewrite insert_last. reflexivity.
  - intros i. subst args.
    destruct (fill_args_lookup (drop (Z.to_nat cur) vals) ∅ 1 i) as [Hi _].
    replace (Z.of_nat i + 1) with (1 + Z.of_nat i) by lia.
    rewrite Hi, lookup_drop. destruct (vals !! _); [done|apply lookup_empty].
  - intros key Hkey. subst args.
    destruct (fill_args_lookup (drop (Z.to_nat cur) vals) ∅ 1 0%nat) as [_ Hother].
    rewrite Hother; [apply lookup_empty|].
    intros j _. replace (1 + Z.of_nat j) with (Z.of_nat j + 1) by lia. apply Hkey.
Qed.

(** ** Scope tables, added and removed *)

Lemma AddLocalTable_runs (s : VM) (info : CallStackInfo) (calls : list CallStackInfo) :
  call_stack_ s = info :: calls ->
  Z.of_nat (length (nest_tables_ s)) + 1 < 2 ^ 64 ->
  AddLocalTable s =
    Val tt (set_calls (with_callee_tables info (wrap64 (callee_tables info + 1)) :: calls)
              (set_nest (Some (length (tables (data_pool_ s))) :: nest_tables_ s)
                 (set_pool (mkDataPool (tables (data_pool_ s) ++ [∅])
                              (closures (data_pool_ s)) (functions (data_pool_ s))) s))).
Proof.
  intros Hcalls Hlen. unfold AddLocalTable.
  unfold bind at 1, DataPool_GetTable.
  unfold bind at 1, nest_tables_push_back. simp_vm.
  destruct (Z.ltb_spec (Z.of_nat (length (nest_tables_ s)) + 1) (2 ^ 64)); [|lia].
  unfold bind at 1, call_stack_back. simp_vm. rewrite Hcalls.
  unfold set_callee_tables. simp_vm. by rewrite Hcalls.
Qed.

Lemma DelLocalTable_runs (s : VM) (info : CallStackInfo) (calls : list CallStackInfo)
    (t : option nat) (nest : list (option nat)) :
  call_stack_ s = info :: calls ->
  nest_tables_ s = t :: nest ->
  DelLocalTable s =
    Val tt (set_calls (with_callee_tables info (wrap64 (callee_tables info - 1)) :: calls)
              (set_nest nest s)).
Proof.
  intros Hcalls Hnest. unfold DelLocalTable.
  unfold bind at 1, nest_tables_pop_back. rewrite Hnest.
  unfold bind at 1, call_stack_back. simp_vm. rewrite Hcalls.
  unfold set_callee_tables. simp_vm. by rewrite Hcalls.
Qed.

(** X11.  [DelLocalTable] undoes [AddLocalTable]: after the two, the
    scope tables and the call stack, with the [callee_tables] of its
    top record, are what they were; the operand stack is untouched and
    the pool has one more table, the empty table that was the scope
    in between. *)
Theorem AddLocalTable_DelLocalTable (s : VM) (info : CallStackInfo)
    (calls : list CallStackInfo) :
  call_stack_ s = info :: calls ->
  0 <= callee_tables info < 2 ^ 64 ->
  Z.of_nat (length (nest_tables_ s)) + 1 < 2 ^ 64 ->
  (AddLocalTable ;; DelLocalTable) s =
    Val tt (set_pool (mkDataPool (tables (data_pool_ s) ++ [∅])
                        (closures (data_pool_ s)) (functions (data_pool_ s))) s).
Proof.
  intros Hcalls Hct Hlen.
  erewrite bind_Val_eq by (by eapply AddLocalTable_runs).
  erewrite DelLocalTable_runs by reflexivity.
  cbn [callee_tables with_callee_tables].
  assert (Hw : wrap64 (wrap64 (callee_tables info + 1) - 1) = callee_tables info).
  { unfold wrap64. rewrite Zminus_mod_idemp_l.
    replace (callee_tables info + 1 - 1) with (callee_tables info) by lia.
    by apply Z.mod_small. }
  rewrite Hw. destruct s as [? ? ? cs ? ? ? ?]. cbn in Hcalls. subst cs.
  by destruct info.
Qed.

(** X12.  [DelGlobalTable] undoes [AddGlobalTable]: the two leave the
    machine in the state it was in. *)
Theorem AddGlobalTable_DelGlobalTable (s : VM) :
  Z.of_nat (length (nest_tables_ s)) + 1 < 2 ^ 64 ->
  (AddGlobalTable ;; DelGlobalTable) s = Val tt s.
Proof.
  intros Hlen. unfold AddGlobalTable, DelGlobalTable.
  unfold bind at 1. change (bind get ?k s) with (k s s). cbn beta.
  unfold bind at 1, nest_tables_push_back.
  destruct (Z.ltb_spec (Z.of_nat (length (nest_tables_ s)) + 1) (2 ^ 64)); [|lia].
  by destruct s.
Qed.

Lemma Return_runs (s : VM) (info : CallStackInfo) (calls : list CallStackInfo) :
  call_stack_ s = info :: calls ->
  Return s =
    Val tt (set_calls calls
              (set_nest (resize (Z.to_nat (wrap64 (Z.of_nat (length (nest_tables_ s))
                                                   - callee_tables info)))
                           (nest_tables_ s))
                 (set_ins (caller_base info) (caller_total info) (caller_offset info) s))).
Proof.
  intros Hcalls. unfold Return.
  unfold bind at 1, call_stack_back. rewrite Hcalls.
  change (bind get ?k ?st) with (k st st). cbn beta.
  unfold bind at 1, modify. unfold bind at 1, nest_tables_resize, modify.
  unfold call_stack_pop_back. simp_vm. by rewrite Hcalls.
Qed.

(** X13.  [DelLocalTable] has no guard.  Run in an activation that has
    pushed no scope table ([callee_tables] is 0), it removes the
    innermost scope table of the caller and takes [callee_tables]
    below 0; the [Ret] that follows then resizes the vector of scope
    tables to one more than it holds, so that the caller finds a null
    pointer where its innermost scope table was. *)
Theorem DelLocalTable_underflow (s : VM) (info : CallStackInfo) (calls : list CallStackInfo)
    (t : option nat) (nest : list (option nat)) :
  call_stack_ s = info :: calls ->
  callee_tables info = 0 ->
  nest_tables_ s = t :: nest ->
  Z.of_nat (length (nest_tables_ s)) < 2 ^ 64 ->
  (DelLocalTable ;; Return) s =
    Val tt (set_calls calls
              (set_nest (None :: nest)
                 (set_ins (caller_base info) (caller_total info) (caller_offset info) s))).
Proof.
  intros Hcalls Hct Hnest Hlen.
  erewrite bind_Val_eq by (by eapply DelLocalTable_runs).
  erewrite Return_runs by reflexivity.
  simp_vm. cbn [callee_tables caller_base caller_total caller_offset with_callee_tables].
  rewrite Hnest in Hlen. cbn [length] in Hlen. rewrite Hct.
  assert (Hw : wrap64 (Z.of_nat (length nest) - wrap64 (0 - 1)) = Z.of_nat (S (length nest))).
  { unfold wrap64. rewrite Zminus_mod_idemp_r.
    replace (Z.of_nat (length nest) - (0 - 1)) with (Z.of_nat (S (length nest))) by lia.
    apply Z.mod_small. lia. }
  rewrite Hw, Nat2Z.id. unfold resize.
  replace (S (length nest) - length nest)%nat with 1%nat by lia.
  replace (length nest - S (length nest))%nat with 0%nat by lia.
  reflexivity.
Qed.

(** ** Calls and returns in the dispatch loop *)

Lemma executes_step op s s' :
  executes op s s' ->
  exists ins s1, op_code ins = op /\ dispatch ins s = Val tt s1 /\ s' = advance s1.
Proof.
  intros (ins & Hfetch & Hop & Hstep). unfold step in Hstep.
  rewrite (bind_Val_eq _ _ _ _ _ Hfetch) in Hstep.
  apply bind_Val in Hstep as (u & s1 & Hd & Hfin); destruct u.
  injection Hfin as <-. by exists ins, s1.
Qed.

(** X14.  A call comes back to the instruction after its [Call]: when
    the activation that a [Call] starts ends with its [Ret], whatever
    it has run in between, the machine is again in the instructions
    of the caller, one past the [Call]. *)
Theorem Ret_resumes_after_Call (s0 s1 s2 s3 : VM) (n : nat) :
  Z.of_nat (length (nest_tables_ s0)) < 2 ^ 64 ->
  executes OpCode_Call s0 s1 ->
  Activation s1 n s2 ->
  executes OpCode_Ret s2 s3 ->
  ins_base_ s3 = ins_base_ s0 /\
  ins_count_ s3 = ins_count_ s0 /\
  ins_current_ s3 = ins_current_ s0 + 1.
Proof.
  intros Hlen Hcall Hact Hret.
  apply executes_step in Hcall as (i0 & sa & Hop0 & Hd0 & ->).
  apply executes_step in Hret as (i2 & sb & Hop2 & Hd2 & ->).
  unfold dispatch in Hd0, Hd2. rewrite Hop0 in Hd0. rewrite Hop2 in Hd2.
  apply Call_Val in Hd0 as (callee & Hnest & Hcalls).
  destruct (Activation_invariant _ _ _ Hact
              (new_CallStackInfo (ins_base_ s0) (ins_count_ s0) (ins_current_ s0) callee)
              (call_stack_ s0))
    as (new & _ & _ & Hcalls2 & _).
  - unfold advance. simp_vm. exact Hcalls.
  - cbn. lia.
  - unfold advance. simp_vm. by rewrite Hnest.
  - apply Return_Val in Hd2 as (info & calls & Hc & _ & _ & Hb & Ht & Ho).
    rewrite Hcalls2 in Hc. injection Hc as <- _.
    unfold advance. simp_vm. rewrite Hb, Ht, Ho. done.
Qed.

(** X15.  A call of a native function takes two turns of the dispatch
    loop: the [Call] runs the native function and enters the
    bootstrap of one [Ret], and that [Ret] comes back.  After the two
    turns the machine is one instruction past the [Call], with the
    stack and the pool the native function has left; the call stack
    and the scope tables are what they were. *)
Theorem native_call_returns (s : VM) (ins : Instruction) (n : nat) :
  fetch s = Val ins s ->
  op_code ins = OpCode_Call ->
  Call_shape s (VNative n) ->
  Z.of_nat (length (nest_tables_ s)) < 2 ^ 64 ->
  (step ;; step) s = Val tt (advance (after_native n s)).
Proof.
  intros Hfetch Hop Hshape Hlen.
  assert (Hcall : Call s = Val tt (set_ins native_func_ret_ 1 (-1)
                                     (after_native n (record_pushed s (VNative n))))).
  { rewrite (Call_reads_callee _ _ Hshape). reflexivity. }
  assert (H1 : step s = Val tt (set_ins native_func_ret_ 1 0
                                  (after_native n (record_pushed s (VNative n))))).
  { unfold step. rewrite (bind_Val_eq _ _ _ _ _ Hfetch).
    unfold dispatch. rewrite Hop. rewrite (bind_Val_eq _ _ _ _ _ Hcall). reflexivity. }
  rewrite (bind_Val_eq _ _ _ _ _ H1).
  unfold step.
  erewrite bind_Val_eq by reflexivity.
  unfold dispatch. cbn [op_code].
  erewrite bind_Val_eq by (by eapply Return_runs).
  unfold modify, advance, after_native, record_pushed, new_CallStackInfo. simp_vm.
  cbn [callee_tables caller_base caller_total caller_offset].
  rewrite Z.sub_0_r, wrap64_small by lia. rewrite Nat2Z.id.
  unfold resize. rewrite Nat.sub_diag. cbn [replicate app drop].
  by destruct s.
Qed.


(** ** A bootstrap of pushes *)

Lemma Run_loop_pushes (vs : list Value) :
  forall (s : VM) (pre : list Instruction),
    ins_base_ s = pre ++ ((fun v => mkInstruction OpCode_Push (InstructionParamType_Value v)) <$> vs) ->
    ins_count_ s = Z.of_nat (length (ins_base_ s)) ->
    ins_current_ s = Z.of_nat (length pre) ->
    Run_loop (S (length vs)) s =
      Val true (set_ins (ins_base_ s) (ins_count_ s) (ins_count_ s)
                  (set_stack ((StackValue_Value <$> reverse vs) ++ stack_ s) s)).
Proof.
  induction vs as [|v vs IH]; intros s pre Hbase Hcount Hcur.
  - assert (E : ins_current_ s = ins_count_ s).
    { rewrite Hcount, Hcur, Hbase. cbn [fmap list_fmap]. by rewrite app_nil_r. }
    cbn [Run_loop length]. change (bind get ?k s) with (k s s). cbn beta.
    destruct (Z.ltb_spec (ins_current_ s) (ins_count_ s)); [lia|].
    unfold ret. destruct s. cbn in E |- *. by rewrite E.
  - cbn [length]. change (Run_loop (S (S (length vs)))) with
      (s0 <- get ;; if ins_current_ s0 <? ins_count_ s0
                    then step ;; Run_loop (S (length vs)) else ret true).
    change (bind get ?k s) with (k s s). cbn beta.
    destruct (Z.ltb_spec (ins_current_ s) (ins_count_ s)) as [_|Hge].
    2: { rewrite Hcount, Hcur, Hbase, length_app in Hge. cbn [fmap list_fmap length] in Hge. lia. }
    assert (Hstep : step s = Val tt (advance (set_stack (StackValue_Value v :: stack_ s) s))).
    { unfold step. unfold bind at 1, fetch. rewrite Hcur.
      destruct (Z.ltb_spec (Z.of_nat (length pre)) 0); [lia|].
      rewrite Nat2Z.id, Hbase. cbn [fmap list_fmap]. rewrite list_lookup_middle by done.
      reflexivity. }
    rewrite (bind_Val_eq _ _ _ _ _ Hstep).
    rewrite (IH _ (pre ++ [mkInstruction OpCode_Push (InstructionParamType_Value v)])).
    + unfold advance. simp_vm. rewrite reverse_cons, fmap_app, <- app_assoc. reflexivity.
    + unfold advance. simp_vm. rewrite Hbase, <- app_assoc. reflexivity.
    + unfold advance. simp_vm. exact Hcount.
    + unfold advance. simp_vm. rewrite Hcur, length_app. cbn [length]. lia.
Qed.

(** X17.  [Run] on a bootstrap that pushes the values [vs] one after
    the other ends after as many turns as there are instructions, with
    the values on the stack, the last one on top, above what the stack
    held; nothing else of the machine has changed but the instruction
    registers, which stand at the end of the bootstrap. *)
Theorem Run_pushes (s : VM) (vs : list Value) :
  let boot := (fun v => mkInstruction OpCode_Push (InstructionParamType_Value v)) <$> vs in
  Run (S (length vs)) boot s =
    Val true (set_ins boot (Z.of_nat (length vs)) (Z.of_nat (length vs))
                (set_stack ((StackValue_Value <$> reverse vs) ++ stack_ s) s)).
Proof.
  intros boot. unfold Run. unfold bind at 1, modify.
  rewrite (Run_loop_pushes vs _ []).
  - simp_vm. subst boot. rewrite length_fmap. by destruct s.
  - reflexivity.
  - simp_vm. subst boot. by rewrite length_fmap.
  - reflexivity.
Qed.

(** ** Variables, written and read *)

(** X18.  A local assignment writes to the innermost scope table:
    [GetLocalTable], the push of the name and [Assign] store the value
    that the counter of the right-hand side designates (Nil when the
    counter is exhausted) under the name in the table at the back of
    [nest_tables_], and leave on the stack the right-hand side alone,
    its counter advanced. *)
Theorem local_assignment (s : VM) (key : Value) (r : nat) (nest : list (option nat))
    (cur : Z) (vals : list Value) (rest : list StackValue) :
  nest_tables_ s = Some r :: nest ->
  stack_ s = StackValue_Counter cur (Z.of_nat (length vals)) ::
             (StackValue_Value <$> reverse vals) ++ rest ->
  0 <= cur ->
  assignable (data_pool_ s) (r, key) ->
  (GetLocalTable ;;
   DoPush (mkInstruction OpCode_Push (InstructionParamType_Name key)) ;;
   Assign) s =
    Val tt (set_pool (write (data_pool_ s) ((r, key), consumed cur vals))
              (set_stack (StackValue_Counter (advanced cur (Z.of_nat (length vals)))
                            (Z.of_nat (length vals)) ::
                          (StackValue_Value <$> reverse vals) ++ rest) s)).
Proof.
  intros Hnest Hst Hcur Hok.
  rewrite <- (assign_to_runs s (r, key) cur _ vals rest Hst eq_refl Hcur Hok).
  unfold assign_to, GetLocalTable. cbn [fst snd DoPush param_a].
  unfold bind at 1. unfold bind at 1, nest_tables_back. rewrite Hnest.
  reflexivity.
Qed.

(** X19.  Reading a variable: [GetTable], the push of the name and
    [GetTableValue] with counter index 0 leave on the stack, as a
    multi-value of one, the value that the name has in the innermost
    scope table of the activation that has the name. *)
Theorem variable_read (s : VM) (key v : Value) (info : CallStackInfo)
    (calls : list CallStackInfo) (misses : list nat) (r : nat) (tbl : gmap Value Value)
    (below : list (option nat)) :
  call_stack_ s = info :: calls ->
  nest_tables_ s = (Some <$> misses) ++ Some r :: below ->
  Z.of_nat (length misses) < callee_tables info ->
  key <> VNull ->
  Forall (fun m => exists t, tables (data_pool_ s) !! m = Some t /\
                             Table.HaveKey t key = false) misses ->
  tables (data_pool_ s) !! r = Some tbl ->
  tbl !! key = Some v ->
  (GetTable (mkInstruction OpCode_GetTable (InstructionParamType_Name key)) ;;
   DoPush (mkInstruction OpCode_Push (InstructionParamType_Name key)) ;;
   GetTableValue (mkInstruction OpCode_GetTableValue (InstructionParamType_CounterIndex 0))) s =
    Val tt (set_stack (StackValue_Counter 0 1 :: StackValue_Value v :: stack_ s) s).
Proof.
  intros Hcalls Hnest Hn Hkey Hall Htbl Hv.
  assert (Hget : GetTable (mkInstruction OpCode_GetTable (InstructionParamType_Name key)) s =
            Val tt (set_stack (StackValue_Counter 0 1 :: StackValue_Value (VTable r) :: stack_ s) s)).
  { unfold GetTable. cbn [param_a]. rewrite bind_ret.
    erewrite bind_Val_eq by (unfold call_stack_back; rewrite Hcalls; reflexivity).
    change (bind get ?k s) with (k s s). cbn beta. rewrite Hnest.
    erewrite bind_Val_eq.
    2: { eapply GetTable_loop_finds; try done. unfold Table.HaveKey. by rewrite Hv. }
    reflexivity. }
  rewrite (bind_Val_eq _ _ _ _ _ Hget).
  cbn [DoPush param_a]. unfold bind at 1, Stack.Push, modify. simp_vm.
  rewrite (GetTableValue_runs _ key [] 0 1 r tbl (stack_ s)); try done.
  unfold Table.GetValue. rewrite Hv. reflexivity.
Qed.

(** ** Handlers that work on the operand stack alone *)

Lemma set_stack_same (s : VM) : s = set_stack (stack_ s) s.
Proof. by destruct s. Qed.

Lemma reader_stackonly {A} (m : M A) : Reader m -> StackOnly m.
Proof.
  intros Hm s. destruct (Hm s) as [E|[a E]]; rewrite E; [done|apply set_stack_same].
Qed.

Lemma bind_stackonly {A B} (m : M A) (k : A -> M B) :
  StackOnly m -> (forall a, StackOnly (k a)) -> StackOnly (bind m k).
Proof.
  intros Hm Hk s. unfold bind. specialize (Hm s).
  destruct (m s) as [a s1|msg s1|]; [|done..].
  specialize (Hk a s1). destruct (k a s1) as [b s2|msg s2|]; [| |done];
    rewrite Hk, Hm at 1; reflexivity.
Qed.

Lemma modify_stackonly (f : VM -> VM) :
  (forall s, f s = set_stack (stack_ (f s)) s) -> StackOnly (modify f).
Proof. intros Hf s. apply Hf. Qed.

Lemma throw_stackonly {A} msg : StackOnly (@throw A msg).
Proof. intros s. apply set_stack_same. Qed.

Lemma Pop_stackonly n : StackOnly (Stack.Pop n).
Proof. intros s. unfold Stack.Pop. destruct (_ && _); [by destruct s|done]. Qed.

Lemma SetStackValue_stackonly i sv : StackOnly (Stack.SetStackValue i sv).
Proof. intros s. unfold Stack.SetStackValue. destruct (Stack.position _ _); [by destruct s|done]. Qed.

Ltac stackonly :=
  repeat first
    [ assumption
    | match goal with H : forall _, StackOnly _ |- _ => apply H end
    | match goal with H : forall _ _, StackOnly _ |- _ => apply H end
    | match goal with H : forall _ _ _, StackOnly _ |- _ => apply H end
    | apply Pop_stackonly | apply SetStackValue_stackonly
    | apply throw_stackonly
    | apply reader_stackonly; solve [apply _]
    | apply modify_stackonly; intros [];  reflexivity
    | progress cbv zeta
    | match goal with
      | |- StackOnly (if ?b then _ else _) => destruct b
      | |- StackOnly (match ?x with _ => _ end) => destruct x
      end
    | apply bind_stackonly; [|intros ?] ].

Lemma GetTable_loop_stackonly key it : forall n, StackOnly (GetTable_loop key it n).
Proof.
  induction it as [|t it IH]; intros n; cbn [GetTable_loop]; unfold Stack.Push,
    Stack.Push_counter; stackonly.
Qed.

Lemma GetTableValue_search_stackonly n : forall i, StackOnly (GetTableValue_search n i).
Proof. induction n as [|n IH]; intros i; cbn [GetTableValue_search]; stackonly. Qed.

Lemma MergeCounter_loop_stackonly n : forall i, StackOnly (MergeCounter_loop n i).
Proof. induction n as [|n IH]; intros i; cbn [MergeCounter_loop]; stackonly. Qed.

Lemma DuplicateCounter_loop_stackonly n : forall i, StackOnly (DuplicateCounter_loop n i).
Proof.
  induction n as [|n IH]; intros i; cbn [DuplicateCounter_loop]; unfold Stack.Push_slot;
    stackonly.
Qed.

(** X20.  The handlers of [CleanStack], [GetLocalTable], [GetTable],
    [GetTableValue], [Push], [MergeCounter], [ResetCounter] and
    [DuplicateCounter] work on the operand stack alone: whether they
    complete or raise, the data pool, the scope tables, the call
    stack and the instruction registers are what they were. *)
Theorem stack_handlers_change_the_stack_alone (ins : Instruction) (s : VM) :
  on_stack (op_code ins) = true ->
  match dispatch ins s with
  | Val _ s' | Exc _ s' => s' = set_stack (stack_ s') s
  | Crash => True
  end.
Proof.
  intros Hop. revert s. change (StackOnly (dispatch ins)). unfold dispatch.
  pose proof GetTable_loop_stackonly. pose proof GetTableValue_search_stackonly.
  pose proof MergeCounter_loop_stackonly. pose proof DuplicateCounter_loop_stackonly.
  destruct (op_code ins); try discriminate Hop;
    unfold CleanStack, GetLocalTable, GetTable, GetTableValue, DoPush,
      MergeCounter, ResetCounter, DuplicateCounter,
      Stack.Push, Stack.Push_counter, Stack.Push_slot, DataPool_GetNil,
      param_value, param_counter_index;
    stackonly.
Qed.

(** ** A name that nothing declares *)

Lemma GetUpvalueKeyOwnerTable_loop_misses (s : VM) (key : Value) (ct : Z)
    (it : list (option nat)) :
  key <> VNull ->
  Forall (fun t => exists r tbl, t = Some r /\
                                 tables (data_pool_ s) !! r = Some tbl /\
                                 Table.HaveKey tbl key = false) it ->
  GetUpvalueKeyOwnerTable_loop key it ct s = Val None s.
Proof.
  intros Hkey. induction it as [|t it IH]; intros Hall; cbn [GetUpvalueKeyOwnerTable_loop].
  - reflexivity.
  - destruct (ct >? 0); [|reflexivity].
    apply Forall_cons in Hall as [(r & tbl & -> & Htbl & Hno) Hall].
    erewrite bind_Val_eq by (by eapply Table_HaveKey_runs). rewrite Hno. by apply IH.
Qed.

(** X21.  In the global frame (the callee of the call record is null
    and [callee_tables] is 1), [GetUpvalueKeyOwnerTable] declares a
    name that no scope table has: it writes Nil under the name in the
    table at the back of [nest_tables_] and answers that table. *)
Theorem GetUpvalueKeyOwnerTable_declares (s : VM) (key : Value) (info : CallStackInfo)
    (calls : list CallStackInfo) (r : nat) (tbl : gmap Value Value)
    (nest : list (option nat)) :
  call_stack_ s = info :: calls ->
  callee info = VNull ->
  callee_tables info = 1 ->
  nest_tables_ s = Some r :: nest ->
  tables (data_pool_ s) !! r = Some tbl ->
  key <> VNull -> key <> VNil ->
  Forall (fun t => exists r tbl, t = Some r /\
                                 tables (data_pool_ s) !! r = Some tbl /\
                                 Table.HaveKey tbl key = false) (nest_tables_ s) ->
  GetUpvalueKeyOwnerTable key s =
    Val (Some r) (set_pool (pool_set_table r (<[key := VNil]> tbl) (data_pool_ s)) s).
Proof.
  intros Hcalls Hcallee Hct Hnest Htbl Hnull Hnil Hall.
  unfold GetUpvalueKeyOwnerTable.
  erewrite bind_Val_eq by (unfold call_stack_back; rewrite Hcalls; reflexivity).
  change (bind get ?k s) with (k s s). cbn beta.
  erewrite bind_Val_eq by (by eapply GetUpvalueKeyOwnerTable_loop_misses).
  cbn beta iota.
  erewrite bind_Val_eq by (unfold call_stack_back; rewrite Hcalls; reflexivity).
  rewrite Hcallee, Hct. cbn beta iota. rewrite bool_decide_eq_true_2 by reflexivity.
  cbn [assert]. rewrite bind_ret.
  erewrite bind_Val_eq by (unfold nest_tables_back; rewrite Hnest; reflexivity).
  unfold DataPool_GetNil. rewrite bind_ret.
  erewrite bind_Val_eq by (by eapply Table_Assign_ok).
  reflexivity.
Qed.

(** ** A local, written and read back *)

(** X22.  A local shadows: after the local assignment of a name, the
    read of the name finds the value just assigned in the innermost
    scope table, whatever the scope tables beneath it and the upvalues
    bind.  The stack then holds that value as a multi-value of one,
    above the right-hand side of the assignment. *)
Theorem local_assignment_then_read (s : VM) (key : Value) (r : nat)
    (nest : list (option nat)) (info : CallStackInfo) (calls : list CallStackInfo)
    (cur : Z) (vals : list Value) (rest : list StackValue) :
  call_stack_ s = info :: calls ->
  0 < callee_tables info ->
  nest_tables_ s = Some r :: nest ->
  stack_ s = StackValue_Counter cur (Z.of_nat (length vals)) ::
             (StackValue_Value <$> reverse vals) ++ rest ->
  0 <= cur ->
  assignable (data_pool_ s) (r, key) ->
  (GetLocalTable ;;
   DoPush (mkInstruction OpCode_Push (InstructionParamType_Name key)) ;;
   Assign ;;
   GetTable (mkInstruction OpCode_GetTable (InstructionParamType_Name key)) ;;
   DoPush (mkInstruction OpCode_Push (InstructionParamType_Name key)) ;;
   GetTableValue (mkInstruction OpCode_GetTableValue (InstructionParamType_CounterIndex 0))) s =
    Val tt (set_pool (write (data_pool_ s) ((r, key), consumed cur vals))
              (set_stack (StackValue_Counter 0 1 :: StackValue_Value (consumed cur vals) ::
                          StackValue_Counter (advanced cur (Z.of_nat (length vals)))
                            (Z.of_nat (length vals)) ::
                          (StackValue_Value <$> reverse vals) ++ rest) s)).
Proof.
  intros Hcalls Hct Hnest Hst Hcur Hok.
  pose proof Hok as (Hnull & Hnil & Hr). cbn [fst snd] in Hnull, Hnil, Hr.
  destruct (lookup_lt_is_Some_2 _ _ Hr) as [tbl Htbl].
  pose proof (assign_to_runs s (r, key) cur _ vals rest Hst eq_refl Hcur Hok) as Hassign.
  assert (H1 : GetLocalTable s =
            Val tt (set_stack (StackValue_Counter 0 1 :: StackValue_Value (VTable r) ::
                               stack_ s) s)).
  { unfold GetLocalTable. unfold bind at 1, nest_tables_back. rewrite Hnest. reflexivity. }
  rewrite (bind_Val_eq _ _ _ _ _ H1).
  cbn [DoPush param_a]. unfold bind at 1, Stack.Push, modify.
  match goal with |- bind Assign _ ?st = _ =>
    assert (H3 : Assign st = _) by exact Hassign end.
  rewrite (bind_Val_eq _ _ _ _ _ H3).
  set (v := consumed cur vals).
  unfold write. cbn [fst snd]. rewrite Htbl.
  match goal with |- bind _ _ ?st = _ => set (s1 := st) end.
  assert (Htbl1 : tables (data_pool_ s1) !! r = Some (<[key := v]> tbl)).
  { subst s1. simp_vm. unfold pool_set_table, Table.Assign. cbn [tables].
    by apply list_lookup_insert_eq. }
  assert (Hget : GetTable (mkInstruction OpCode_GetTable (InstructionParamType_Name key)) s1 =
            Val tt (set_stack (StackValue_Counter 0 1 :: StackValue_Value (VTable r) ::
                               stack_ s1) s1)).
  { assert (Hcalls1 : call_stack_ s1 = info :: calls) by exact Hcalls.
    assert (Hnest1 : nest_tables_ s1 = (Some <$> []) ++ Some r :: nest) by exact Hnest.
    unfold GetTable. cbn [param_a]. rewrite bind_ret.
    erewrite bind_Val_eq by (unfold call_stack_back; rewrite Hcalls1; reflexivity).
    change (bind get ?k s1) with (k s1 s1). cbn beta. rewrite Hnest1.
    erewrite bind_Val_eq.
    2: { apply (GetTable_loop_finds s1 key r (<[key := v]> tbl) nest [] (callee_tables info)).
         - cbn [length]. lia.
         - exact Hnull.
         - apply Forall_nil_2.
         - exact Htbl1.
         - unfold Table.HaveKey. by rewrite lookup_insert_eq. }
    reflexivity. }
  rewrite (bind_Val_eq _ _ _ _ _ Hget).
  cbn [DoPush param_a]. unfold bind at 1, Stack.Push, modify. simp_vm.
  rewrite (GetTableValue_runs _ key [] 0 1 r (<[key := v]> tbl) (stack_ s1)); try done.
  unfold Table.GetValue. rewrite lookup_insert_eq. cbn [default].
  subst s1. simp_vm. reflexivity.
Qed.
End VirtualMachine.

(** * The machine on concrete inputs *)

(** ** An opcode outside the switch *)

(** C9 on an instruction of opcode 99: the turn only moves on, and the
    loop then ends at the end of the instructions. *)
Lemma unhandled_opcode_is_skipped_witness :
  step sample_type_name sample_nil_key_error sample_native_call unknown_opcode_state =
    Val tt (advance unknown_opcode_state) /\
  Run_loop sample_type_name sample_nil_key_error sample_native_call 2 unknown_opcode_state =
    Val true (advance unknown_opcode_state).
Proof.
  destruct (unhandled_opcode_is_skipped sample_type_name sample_nil_key_error
              sample_native_call unknown_opcode_state (no_param (OpCode_Other 99)) 99 1)
    as (_ & Hstep & _ & _ & _ & _ & _ & _ & _ & Hrun).
  - reflexivity.
  - reflexivity.
  - split; [exact Hstep|]. rewrite Hrun; [reflexivity|]. vm_compute. reflexivity.
Defined.

(** ** Calling a number *)

(** The callee is the number 5, called with one argument. *)
Lemma call_number_shape : Call_shape call_number_state (VNumber 5).
Proof.
  exists 0, 1, [StackValue_Value (VString "arg")], 0, []. repeat split; done.
Defined.

(** C5 on a callee that is a number: the call raises an error. *)
Lemma Call_type_check_witness :
  exists msg s', Call sample_type_name sample_native_call call_number_state = Exc msg s'.
Proof.
  apply (Call_type_check sample_type_name sample_native_call call_number_state
           (VNumber 5) TYPE_NUMBER call_number_shape eq_refl).
  split; discriminate.
Defined.

(** C10 on the same call: the error is raised with the record of the
    call on the call stack. *)
Lemma Call_error_leaves_record_witness :
  exists cur A callee ty,
    head (stack_ call_number_state) = Some (StackValue_Counter cur A) /\
    Stack.GetStackValue (-1 - A - 2) call_number_state
      = Val (StackValue_Value callee) call_number_state /\
    Type_ callee = Some ty /\
    ty <> TYPE_FUNCTION /\ ty <> TYPE_NATIVE_FUNCTION /\
    "attempt to call number" = "attempt to call " +:+ sample_type_name ty /\
    record_pushed call_number_state (VNumber 5) = record_pushed call_number_state callee /\
    call_stack_ (record_pushed call_number_state (VNumber 5)) =
      mkCallStackInfo [no_param OpCode_Call] 1 0 callee 0 :: call_stack_ call_number_state.
Proof.
  apply (Call_error_leaves_record sample_type_name sample_native_call call_number_state
           "attempt to call number" (record_pushed call_number_state (VNumber 5))).
  reflexivity.
Defined.

(** ** Assignments: S1 and S2 of the scenarios *)

(** [x = 1], ready for [Assign]. *)
Lemma assign_x_shape :
  Assign_shape assign_x_state (VString "x") 0 0 1 [VNumber 1] [].
Proof.
  split; [by exists (StackValue_Counter 0 1)|]. repeat split; done.
Defined.

(** C7 on [x = 1] and on a counter of total 2. *)
Lemma stack_balance_witness :
  (exists s',
      (Assign sample_nil_key_error assign_x_state = Val tt s' \/
       Assign sample_nil_key_error assign_x_state = Exc sample_nil_key_error s') /\
      Z.of_nat (length (stack_ s')) = Z.of_nat (length (stack_ assign_x_state)) - 3 /\
      stack_ s' = [StackValue_Counter 1 1; StackValue_Value (VNumber 1)]) /\
  (exists s2',
      CleanStack clean_two_state = Val tt s2' /\
      Z.of_nat (length (stack_ s2')) = Z.of_nat (length (stack_ clean_two_state)) - (2 + 1)).
Proof.
  apply (stack_balance sample_nil_key_error assign_x_state (VString "x") 0 0 1 [VNumber 1] []
           clean_two_state 0 2 [StackValue_Value (VNumber 20); StackValue_Value (VNumber 10)]
           assign_x_shape eq_refl).
  cbn. lia.
Defined.

(** The three targets of [a, b, c = 10, 20]. *)
Lemma abc_assignable : Forall (assignable (data_pool_ assign_abc_state)) abc.
Proof. repeat constructor; done. Defined.

(** C4 on [a, b, c = 10, 20]: [a] gets 10, [b] gets 20, [c] gets Nil,
    and the counter is left at {2,2}. *)
Lemma Assign_consumes_one_witness :
  exists s',
    assign_all sample_nil_key_error abc assign_abc_state = Val tt s' /\
    tables (data_pool_ s') !! 0%nat =
      Some (<[VString "c" := VNil]> (<[VString "b" := VNumber 20]>
              (<[VString "a" := VNumber 10]> ∅))) /\
    stack_ s' = [StackValue_Counter 2 2; StackValue_Value (VNumber 20);
                 StackValue_Value (VNumber 10)].
Proof.
  destruct (Assign_consumes_one sample_nil_key_error assign_x_state (VString "x") 0 ∅ 0 1
              [VNumber 1] [] assign_abc_state abc [VNumber 10; VNumber 20] []
              assign_x_shape ltac:(discriminate) eq_refl eq_refl abc_assignable)
    as (_ & _ & _ & Hall).
  eexists. split; [exact Hall|]. split; reflexivity.
Defined.

(** C4 as stated fails on a Nil key: the stack has the shape [Assign]
    expects, the counter is advanced from {0,1} to {1,1}, and the table
    raises its error: no value is written as [table[key]]. *)
Lemma Assign_Nil_key_writes_nothing :
  Assign_shape assign_nil_key_state VNil 0 0 1 [VNumber 10] [] /\
  Assign sample_nil_key_error assign_nil_key_state =
    Exc sample_nil_key_error
        (set_stack [StackValue_Counter 1 1; StackValue_Value (VNumber 10)]
           assign_nil_key_state) /\
  ~ (exists s', Assign sample_nil_key_error assign_nil_key_state = Val tt s').
Proof.
  split; [|split].
  - split; [by exists (StackValue_Counter 0 1)|]. repeat split; done.
  - reflexivity.
  - intros [s' H]. discriminate H.
Qed.

(** ** [ResetCounter] *)

(** C8 on a counter of total 3: the two values on top are popped. *)
Lemma ResetCounter_coerces_witness :
  exists s' cur',
    ResetCounter three_results_state = Val tt s' /\
    head (stack_ s') = Some (StackValue_Counter cur' 1) /\
    (1 < 3 -> cur' = 0 /\
              stack_ s' = [StackValue_Counter 0 1; StackValue_Value (VNumber 1)]).
Proof.
  destruct (ResetCounter_coerces three_results_state 0 3
              [StackValue_Value (VNumber 3); StackValue_Value (VNumber 2);
               StackValue_Value (VNumber 1)] eq_refl)
    as (s' & cur' & Hrun & Htop & _ & _ & Hmany).
  - lia.
  - cbn. lia.
  - exists s', cur'. repeat split; try done; by apply Hmany.
Defined.

(** C8 as stated fails on the counter {1,1}: [ResetCounter] succeeds,
    changes nothing, and the top slot is not the counter {0,1}. *)
Lemma ResetCounter_keeps_consumed_counter :
  ResetCounter consumed_counter_state = Val tt consumed_counter_state /\
  head (stack_ consumed_counter_state) = Some (StackValue_Counter 1 1) /\
  ~ (exists s', ResetCounter consumed_counter_state = Val tt s' /\
                head (stack_ s') = Some (StackValue_Counter 0 1)).
Proof.
  split; [reflexivity|]. split; [reflexivity|].
  intros (s' & Hrun & Htop). injection Hrun as <-. discriminate Htop.
Qed.

(** ** Names that no scope table has *)

(** C1 as stated fails in the global frame: [x] is in no scope table
    that is scanned, the callee of the call record is null, and
    [GetTable] crashes where it was to push an upvalue table. *)
Lemma GetTable_in_global_frame_crashes :
  not_in_scope global_frame (VString "x") 1 /\
  callee <$> head (call_stack_ global_frame) = Some VNull /\
  GetTable GetTable_x global_frame = Crash.
Proof.
  split; [|split; reflexivity].
  repeat split; [cbn; lia|done|].
  apply Forall_cons. split; [|apply Forall_nil_2].
  exists 0%nat, ∅. done.
Qed.

(** The scope table of the running closure does not bind [y]. *)
Lemma callee_frame_has_no_y upvalues : not_in_scope (callee_frame upvalues) (VString "y") 1.
Proof.
  repeat split; [cbn; lia|done|].
  apply Forall_cons. split; [|apply Forall_nil_2].
  exists 1%nat, ∅. done.
Defined.

(** C1, as amended, in a call: with an upvalue table the table is
    pushed, without one the null pointer is. *)
Lemma GetTable_falls_back_to_upvalues_witness :
  GetTable GetTable_y (callee_frame (Some 2%nat)) =
    Val tt (set_stack [StackValue_Counter 0 1; StackValue_Value (VTable 2)]
              (callee_frame (Some 2%nat))) /\
  GetTable GetTable_y (callee_frame None) =
    Val tt (set_stack [StackValue_Counter 0 1; StackValue_Value VNull] (callee_frame None)).
Proof.
  split.
  - exact (proj1 (GetTable_falls_back_to_upvalues (callee_frame (Some 2%nat)) (VString "y")
                    _ _ 0 (mkClosure 0 (Some 2%nat)) eq_refl
                    (callee_frame_has_no_y _) eq_refl eq_refl)).
  - exact (proj1 (GetTable_falls_back_to_upvalues (callee_frame None) (VString "y")
                    _ _ 0 (mkClosure 0 None) eq_refl
                    (callee_frame_has_no_y _) eq_refl eq_refl)).
Defined.

(** ** The owner of an upvalue *)

(** C2.  In [callee_frame] the running closure has pushed one scope table,
    table 1, which does not bind [x]; the table beneath it belongs to
    the caller.  [GetUpvalueKeyOwnerTable] walks on into the caller's
    table 0 and answers it, where the upvalue table of the closure,
    table 2, was to be the owner: the claim that the first step scans
    only the scope tables of the current frame fails on the code.
    [GetTable], whose loop counts [callee_tables] down, stops after
    table 1 and pushes table 2. *)
Lemma GetUpvalueKeyOwnerTable_answers_caller_table :
  callee_tables <$> head (call_stack_ (callee_frame (Some 2%nat))) = Some 1 /\
  take 1 (nest_tables_ (callee_frame (Some 2%nat))) = [Some 1%nat] /\
  Table.HaveKey ∅ (VString "x") = false /\
  GetUpvalueKeyOwnerTable sample_nil_key_error (VString "x") (callee_frame (Some 2%nat)) =
    Val (Some 0%nat) (callee_frame (Some 2%nat)) /\
  GetTable GetTable_x (callee_frame (Some 2%nat)) =
    Val tt (set_stack [StackValue_Counter 0 1; StackValue_Value (VTable 2)]
              (callee_frame (Some 2%nat))).
Proof. repeat split; reflexivity. Qed.

(** ** A closure and its upvalue: S4 of the scenarios *)

(** The only table in scope is the global table. *)
Lemma before_closure_no_dangling : no_dangling before_closure.
Proof.
  split.
  - intros r [Hin|(info & c0 & cl & Hhead & Hcallee & _)].
    + apply list_elem_of_singleton in Hin. injection Hin as ->. cbn. lia.
    + injection Hhead as <-. discriminate Hcallee.
  - intros info c0 Hhead Hcallee. injection Hhead as <-. discriminate Hcallee.
Defined.

(** The closure created in the global frame with [n = 1]. *)
Lemma GenerateClosure_captures_by_value_witness :
  exists t tbl_t tbl_u,
    GetUpvalueKeyOwnerTable sample_nil_key_error (VString "n") after_closure
      = Val (Some t) after_closure /\
    t <> 1%nat /\
    tables (data_pool_ after_closure) !! t = Some tbl_t /\
    tables (data_pool_ after_closure) !! 1%nat = Some tbl_u /\
    tbl_u !! VString "n" = Some (Table.GetValue tbl_t (VString "n")) /\
    forall v s'',
      Table_Assign sample_nil_key_error (Some t) (VString "n") v after_closure = Val tt s'' ->
      tables (data_pool_ s'') !! t = Some (<[VString "n" := v]> tbl_t) /\
      tables (data_pool_ s'') !! 1%nat = Some tbl_u.
Proof.
  apply (GenerateClosure_captures_by_value sample_nil_key_error before_closure after_closure
           0 (mkFunction [] [VString "n"]) (VString "n") before_closure_no_dangling eq_refl).
  - apply list_elem_of_singleton. reflexivity.
  - reflexivity.
Defined.

(** The upvalue table of the closure holds 1, and still holds 1 after
    the owner has been given 2. *)
Example closure_keeps_first_value :
  (tables (data_pool_ after_closure) !! 1%nat) ≫= (fun tbl => tbl !! VString "n")
    = Some (VNumber 1) /\
  match Table_Assign sample_nil_key_error (Some 0%nat) (VString "n") (VNumber 2) after_closure with
  | Val _ s'' =>
      (tables (data_pool_ s'') !! 0%nat) ≫= (fun tbl => tbl !! VString "n") = Some (VNumber 2) /\
      (tables (data_pool_ s'') !! 1%nat) ≫= (fun tbl => tbl !! VString "n") = Some (VNumber 1)
  | _ => False
  end.
Proof. split; [reflexivity|]. split; reflexivity. Qed.

(** ** A closure created inside a call *)

(** C3.  In [callee_frame] the running closure reads [x] as 7: its one
    scope table, table 1, does not bind [x], and its upvalue table,
    table 2, binds it to 7.  A closure that it creates there of a
    function with the upvalue [x] does not hold 7 for [x]:
    [GenerateClosure] asks [GetUpvalueKeyOwnerTable] for the owner of
    [x], which walks past table 1 into table 0, the global table of
    the caller, where [x] is 1, and the new upvalue table, table 3,
    gets [x = 1].  The copy is by value, of the wrong binding. *)
Lemma GenerateClosure_captures_caller_value :
  bind (GetTable GetTable_x)
    (fun _ => bind (DoPush (mkInstruction OpCode_Push (InstructionParamType_Name (VString "x"))))
    (fun _ => GetTableValue sample_type_name
                (mkInstruction OpCode_GetTableValue (InstructionParamType_CounterIndex 0))))
    (callee_frame (Some 2%nat)) =
    Val tt (set_stack [StackValue_Counter 0 1; StackValue_Value (VNumber 7)]
              (callee_frame (Some 2%nat))) /\
  GenerateClosure sample_nil_key_error
    (mkInstruction OpCode_GenerateClosure (InstructionParamType_Value (VFunction 0)))
    (callee_frame (Some 2%nat)) =
    Val tt (set_pool
              (mkDataPool [{[VString "x" := VNumber 1]}; ∅; {[VString "x" := VNumber 7]};
                           {[VString "x" := VNumber 1]}]
                          [mkClosure 0 (Some 2%nat); mkClosure 0 (Some 3%nat)]
                          [mkFunction [] [VString "x"]])
              (set_stack [StackValue_Counter 0 1; StackValue_Value (VClosure 1)]
                 (callee_frame (Some 2%nat)))) /\
  take 1 (nest_tables_ (callee_frame (Some 2%nat))) = [Some 1%nat] /\
  callee_tables <$> head (call_stack_ (callee_frame (Some 2%nat))) = Some 1.
Proof. repeat split; reflexivity. Qed.

(** ** A call and its return *)

(** The three turns of the loop: [Call], [AddLocalTable], [Ret]. *)
Lemma before_call_executes_Call :
  executes sample_type_name sample_nil_key_error sample_native_call
    OpCode_Call before_call in_callee.
Proof. exists (no_param OpCode_Call). repeat split; reflexivity. Defined.

Lemma in_callee_executes_AddLocalTable :
  executes sample_type_name sample_nil_key_error sample_native_call
    OpCode_AddLocalTable in_callee table_added.
Proof. exists (no_param OpCode_AddLocalTable). repeat split; reflexivity. Defined.

Lemma table_added_executes_Ret :
  executes sample_type_name sample_nil_key_error sample_native_call
    OpCode_Ret table_added after_return.
Proof. exists (no_param OpCode_Ret). repeat split; reflexivity. Defined.

(** C6 on the call of a closure that adds one scope table and
    returns. *)
Lemma scope_call_symmetry_witness :
  length (nest_tables_ after_return) = length (nest_tables_ before_call) /\
  length (call_stack_ after_return) = length (call_stack_ before_call) /\
  nest_tables_ after_return = nest_tables_ before_call /\
  call_stack_ after_return = call_stack_ before_call /\
  (exists info, head (call_stack_ table_added) = Some info /\ callee_tables info = Z.of_nat 1) /\
  length (nest_tables_ table_added) = (1 + length (nest_tables_ after_return))%nat /\
  nest_tables_ after_return = drop 1 (nest_tables_ table_added).
Proof.
  apply (scope_call_symmetry sample_type_name sample_nil_key_error sample_native_call
           before_call in_callee table_added after_return 1).
  - cbn. lia.
  - exact before_call_executes_Call.
  - apply (Activation_add _ _ _ in_callee 0 in_callee table_added).
    + apply Activation_enter.
    + exact in_callee_executes_AddLocalTable.
  - exact table_added_executes_Ret.
Defined.

(** * More of the machine on concrete inputs *)

(** X1 on a counter of total 3: after one [ResetCounter] the counter
    is {0,1} and a second one changes nothing. *)
Lemma ResetCounter_idempotent_witness :
  ResetCounter (set_stack [StackValue_Counter 0 1; StackValue_Value (VNumber 1)]
                  three_results_state) =
    Val tt (set_stack [StackValue_Counter 0 1; StackValue_Value (VNumber 1)]
              three_results_state).
Proof. apply (ResetCounter_idempotent three_results_state). reflexivity. Defined.

(** The inner scope table of [two_scopes] does not bind [x]. *)
Lemma two_scopes_inner_misses :
  Forall (fun m => exists t, tables (data_pool_ two_scopes) !! m = Some t /\
                             Table.HaveKey t (VString "x") = false) [1%nat].
Proof. repeat constructor. exists ∅. split; reflexivity. Defined.

(** X2 on [x] in [two_scopes]: the outer table is pushed. *)
Lemma GetTable_finds_innermost_witness :
  GetTable GetTable_x two_scopes =
    Val tt (set_stack [StackValue_Counter 0 1; StackValue_Value (VTable 0)] two_scopes).
Proof.
  apply (GetTable_finds_innermost two_scopes (VString "x") (mkCallStackInfo [] 0 0 VNull 2) []
           [1%nat] 0%nat {[VString "x" := VNumber 1]} [] eq_refl eq_refl).
  - cbn. lia.
  - discriminate.
  - exact two_scopes_inner_misses.
  - reflexivity.
  - reflexivity.
Defined.

(** X3 on [t.x] beneath one multi-value: the table gives way to 1. *)
Lemma GetTableValue_indexes_witness :
  GetTableValue sample_type_name
    (mkInstruction OpCode_GetTableValue (InstructionParamType_CounterIndex 1)) index_x_state =
    Val tt (set_stack [StackValue_Counter 0 1; StackValue_Value (VNumber 5);
                       StackValue_Counter 0 1; StackValue_Value (VNumber 1)] index_x_state).
Proof.
  exact (proj1 (GetTableValue_indexes sample_type_name index_x_state (VString "x")
                  [(0, [StackValue_Value (VNumber 5)])] 0 1 0%nat
                  {[VString "x" := VNumber 1]} [] eq_refl ltac:(discriminate) eq_refl)).
Defined.

(** X4 on a number in the place of the table. *)
Lemma GetTableValue_type_error_witness :
  GetTableValue sample_type_name
    (mkInstruction OpCode_GetTableValue (InstructionParamType_CounterIndex 0))
    index_number_state =
    Exc "attempt to index value from number" index_number_state.
Proof.
  apply (GetTableValue_type_error sample_type_name index_number_state (VString "x")
           [] 0 1 (VNumber 5) TYPE_NUMBER [] eq_refl eq_refl).
  discriminate.
Defined.

(** X5 on the two upper multi-values of [three_groups_state], and on
    a sum that is not an [int]: the total wraps around. *)
Lemma MergeCounter_concatenates_witness :
  MergeCounter three_groups_state =
    Val tt (set_stack [StackValue_Counter 0 2; StackValue_Value (VNumber 3);
                       StackValue_Value (VNumber 2);
                       StackValue_Counter 0 1; StackValue_Value (VNumber 1)]
              three_groups_state) /\
  MergeCounter merge_overflow_state =
    Val tt (set_stack [StackValue_Counter 0 (-2147483648); StackValue_Value (VNumber 3)]
              merge_overflow_state).
Proof.
  split.
  - exact (proj1 (MergeCounter_concatenates three_groups_state 0 0 1
                    [StackValue_Value (VNumber 3)]
                    [StackValue_Value (VNumber 2); StackValue_Counter 0 1;
                     StackValue_Value (VNumber 1)] eq_refl)).
  - exact (proj1 (MergeCounter_concatenates merge_overflow_state 0 0 2147483647
                    [StackValue_Value (VNumber 3)] [] eq_refl)).
Defined.

(** X6 on a multi-value of two. *)
Lemma DuplicateCounter_copies_witness :
  DuplicateCounter clean_two_state =
    Val tt (set_stack [StackValue_Counter 0 2; StackValue_Value (VNumber 20);
                       StackValue_Value (VNumber 10);
                       StackValue_Counter 0 2; StackValue_Value (VNumber 20);
                       StackValue_Value (VNumber 10)] clean_two_state).
Proof.
  apply (DuplicateCounter_copies clean_two_state 0
           [StackValue_Value (VNumber 20); StackValue_Value (VNumber 10)] []).
  reflexivity.
Defined.

(** X7 on the same multi-value. *)
Lemma DuplicateCounter_CleanStack_witness :
  bind DuplicateCounter (fun _ => CleanStack) clean_two_state = Val tt clean_two_state.
Proof.
  apply (DuplicateCounter_CleanStack clean_two_state 0
           [StackValue_Value (VNumber 20); StackValue_Value (VNumber 10)] []).
  reflexivity.
Defined.

(** X8 on [three_groups_state]: one multi-value of three. *)
Lemma MergeCounter_twice_witness :
  bind MergeCounter (fun _ => MergeCounter) three_groups_state =
    Val tt (set_stack [StackValue_Counter 0 3; StackValue_Value (VNumber 3);
                       StackValue_Value (VNumber 2); StackValue_Value (VNumber 1)]
              three_groups_state).
Proof.
  apply (MergeCounter_twice three_groups_state 0 0 0 1 [StackValue_Value (VNumber 3)]
           [StackValue_Value (VNumber 2)] [StackValue_Value (VNumber 1)]).
  - reflexivity.
  - cbn. lia.
Defined.

(** X9 on [a, b, c = 10, 20]: the stack is empty afterwards. *)
Lemma assign_all_CleanStack_witness :
  exists s',
    bind (assign_all sample_nil_key_error abc) (fun _ => CleanStack) assign_abc_state
      = Val tt s' /\
    stack_ s' = [] /\
    data_pool_ s' =
      foldl write (data_pool_ assign_abc_state)
        (zip abc (taken 3 0 2 [VNumber 10; VNumber 20])).
Proof.
  apply (assign_all_CleanStack sample_nil_key_error assign_abc_state abc
           [VNumber 10; VNumber 20] [] eq_refl abc_assignable).
Defined.

(** X10 on the arguments 10, 20, 30 with the first one consumed: the
    table [arg] holds 20 and 30 under 1 and 2. *)
Lemma GenerateArgTable_packs_witness :
  GenerateArgTable sample_nil_key_error args_state =
    Val tt (set_pool (mkDataPool [ {[VString "arg" := VTable 1]};
                                   <[VNumber 2 := VNumber 30]> (<[VNumber 1 := VNumber 20]> ∅) ]
                                 [] [])
              (set_stack [StackValue_Counter 3 3; StackValue_Value (VNumber 30);
                          StackValue_Value (VNumber 20); StackValue_Value (VNumber 10)]
                 args_state)).
Proof.
  refine (proj1 (GenerateArgTable_packs sample_nil_key_error args_state 1
                   [VNumber 10; VNumber 20; VNumber 30] [] 0%nat ∅ [] eq_refl _ eq_refl eq_refl)).
  cbn. lia.
Defined.

(** X11 in the global frame. *)
Lemma AddLocalTable_DelLocalTable_witness :
  bind AddLocalTable (fun _ => DelLocalTable) global_frame =
    Val tt (set_pool (mkDataPool [∅; ∅] [] []) global_frame).
Proof.
  apply (AddLocalTable_DelLocalTable global_frame (mkCallStackInfo [] 0 0 VNull 1) [] eq_refl).
  - cbn. lia.
  - cbn. lia.
Defined.

(** X12 in the global frame. *)
Lemma AddGlobalTable_DelGlobalTable_witness :
  bind AddGlobalTable (fun _ => DelGlobalTable) global_frame = Val tt global_frame.
Proof. apply (AddGlobalTable_DelGlobalTable global_frame). cbn. lia. Defined.

(** X13 in a callee that has pushed no scope table: the global table
    of the caller is removed, and after the [Ret] the caller has a
    null pointer for its innermost scope table. *)
Lemma DelLocalTable_underflow_witness :
  bind DelLocalTable (fun _ => Return) in_callee =
    Val tt (set_calls [mkCallStackInfo [] 0 0 VNull 1]
              (set_nest [None] (set_ins [no_param OpCode_Call] 1 0 in_callee))).
Proof.
  apply (DelLocalTable_underflow in_callee
           (mkCallStackInfo [no_param OpCode_Call] 1 0 (VClosure 0) 0)
           [mkCallStackInfo [] 0 0 VNull 1] (Some 0%nat) [] eq_refl eq_refl eq_refl).
  cbn. lia.
Defined.

(** X14 on the call of a closure that adds one scope table and
    returns. *)
Lemma Ret_resumes_after_Call_witness :
  ins_base_ after_return = ins_base_ before_call /\
  ins_count_ after_return = ins_count_ before_call /\
  ins_current_ after_return = ins_current_ before_call + 1.
Proof.
  apply (Ret_resumes_after_Call sample_type_name sample_nil_key_error sample_native_call
           before_call in_callee table_added after_return 1).
  - cbn. lia.
  - exact before_call_executes_Call.
  - apply (Activation_add _ _ _ in_callee 0 in_callee table_added).
    + apply Activation_enter.
    + exact in_callee_executes_AddLocalTable.
  - exact table_added_executes_Ret.
Defined.

(** The callee is the native function 0, called without arguments. *)
Lemma call_native_shape : Call_shape call_native_state (VNative 0).
Proof. exists 0, 0, [], 0, []. repeat split; done. Defined.

(** X15 on that call. *)
Lemma native_call_returns_witness :
  bind (step sample_type_name sample_nil_key_error sample_native_call)
       (fun _ => step sample_type_name sample_nil_key_error sample_native_call)
       call_native_state =
    Val tt (advance (after_native sample_native_call 0 call_native_state)).
Proof.
  apply (native_call_returns sample_type_name sample_nil_key_error sample_native_call
           call_native_state (no_param OpCode_Call) 0 eq_refl eq_refl call_native_shape).
  cbn. lia.
Defined.


(** X18 on [local a = 10, 20]: the innermost table gets [a = 10]. *)
Lemma local_assignment_witness :
  bind GetLocalTable
    (fun _ => bind (DoPush (mkInstruction OpCode_Push (InstructionParamType_Name (VString "a"))))
                (fun _ => Assign sample_nil_key_error)) assign_abc_state =
    Val tt (set_pool (write (data_pool_ assign_abc_state) ((0%nat, VString "a"), VNumber 10))
              (set_stack [StackValue_Counter 1 2; StackValue_Value (VNumber 20);
                          StackValue_Value (VNumber 10)] assign_abc_state)).
Proof.
  apply (local_assignment sample_nil_key_error assign_abc_state (VString "a") 0 [] 0
           [VNumber 10; VNumber 20] [] eq_refl eq_refl).
  - lia.
  - repeat split; [discriminate..|cbn; lia].
Defined.

(** X19 on [x] in [two_scopes]: the value 1 of the outer table. *)
Lemma variable_read_witness :
  bind (GetTable GetTable_x)
    (fun _ => bind (DoPush (mkInstruction OpCode_Push (InstructionParamType_Name (VString "x"))))
                (fun _ => GetTableValue sample_type_name
                            (mkInstruction OpCode_GetTableValue
                               (InstructionParamType_CounterIndex 0)))) two_scopes =
    Val tt (set_stack [StackValue_Counter 0 1; StackValue_Value (VNumber 1)] two_scopes).
Proof.
  apply (variable_read sample_type_name two_scopes (VString "x") (VNumber 1)
           (mkCallStackInfo [] 0 0 VNull 2) [] [1%nat] 0%nat {[VString "x" := VNumber 1]} []
           eq_refl eq_refl).
  - cbn. lia.
  - discriminate.
  - exact two_scopes_inner_misses.
  - reflexivity.
  - reflexivity.
Defined.

(** X20 on [CleanStack]. *)
Lemma stack_handlers_change_the_stack_alone_witness :
  match dispatch sample_type_name sample_nil_key_error sample_native_call
          (no_param OpCode_CleanStack) clean_two_state with
  | Val _ s' | Exc _ s' => s' = set_stack (stack_ s') clean_two_state
  | Crash => True
  end.
Proof.
  apply (stack_handlers_change_the_stack_alone sample_type_name sample_nil_key_error
           sample_native_call (no_param OpCode_CleanStack) clean_two_state).
  reflexivity.
Defined.

(** The global table of [global_frame] does not bind [g]. *)
Lemma global_frame_has_no_g :
  Forall (fun t => exists r tbl, t = Some r /\
                                 tables (data_pool_ global_frame) !! r = Some tbl /\
                                 Table.HaveKey tbl (VString "g") = false)
         (nest_tables_ global_frame).
Proof. repeat constructor. exists 0%nat, ∅. repeat split; reflexivity. Defined.

(** X21 on the name [g] in the global frame: the global table gets
    [g = Nil]. *)
Lemma GetUpvalueKeyOwnerTable_declares_witness :
  GetUpvalueKeyOwnerTable sample_nil_key_error (VString "g") global_frame =
    Val (Some 0%nat)
        (set_pool (pool_set_table 0 (<[VString "g" := VNil]> ∅) (data_pool_ global_frame))
           global_frame).
Proof.
  apply (GetUpvalueKeyOwnerTable_declares sample_nil_key_error global_frame (VString "g")
           (mkCallStackInfo [] 0 0 VNull 1) [] 0 ∅ [] eq_refl eq_refl eq_refl eq_refl eq_refl).
  - discriminate.
  - discriminate.
  - exact global_frame_has_no_g.
Defined.

(** X22 on [local a = 10, 20] and the read of [a]. *)
Lemma local_assignment_then_read_witness :
  bind GetLocalTable
    (fun _ => bind (DoPush (mkInstruction OpCode_Push (InstructionParamType_Name (VString "a"))))
    (fun _ => bind (Assign sample_nil_key_error)
    (fun _ => bind (GetTable (mkInstruction OpCode_GetTable
                                (InstructionParamType_Name (VString "a"))))
    (fun _ => bind (DoPush (mkInstruction OpCode_Push (InstructionParamType_Name (VString "a"))))
    (fun _ => GetTableValue sample_type_name
                (mkInstruction OpCode_GetTableValue (InstructionParamType_CounterIndex 0)))))))
    assign_abc_state =
    Val tt (set_pool (write (data_pool_ assign_abc_state) ((0%nat, VString "a"), VNumber 10))
              (set_stack [StackValue_Counter 0 1; StackValue_Value (VNumber 10);
                          StackValue_Counter 1 2; StackValue_Value (VNumber 20);
                          StackValue_Value (VNumber 10)] assign_abc_state)).
Proof.
  apply (local_assignment_then_read sample_type_name sample_nil_key_error assign_abc_state
           (VString "a") 0 [] (mkCallStackInfo [] 0 0 VNull 1) [] 0
           [VNumber 10; VNumber 20] [] eq_refl).
  - cbn. lia.
  - reflexivity.
  - reflexivity.
  - lia.
  - repeat split; [discriminate..|cbn; lia].
Defined.
